(** * smart-face: the identity matching engine

    A shallow embedding of [backend/app/services/faiss_service.py], of the
    enrollment and verification parts of
    [backend/app/services/face_recognition_service.py] and of
    [backend/app/services/cache_service.py], with the properties of the
    vector index, its life cycle, the quality assessor, the embedding
    aggregator and the in-process cache.

    Conventions.
    - A Python/numpy float is idealised as an exact real number, with NaN
      (the quotient 0/0 of a zero vector by its own norm) explicit.  The
      idealisation is sound up to rounding as long as the sum of squares
      that [np.linalg.norm] forms stays in the normal range of binary64
      ([float64_range]); outside of it the sum overflows or underflows, and
      [Float64] evaluates the same expression in binary64 itself.
    - [save_index] writes two files one after the other and swallows every
      exception.  [save_index] is the run in which both writes complete;
      [save_index_io] is the general case, with the outcome of each write
      taken from the environment.
    - Exceptions are values: a function that can raise returns an [option]
      or an outcome, and every [try/except] of the source is a [match].
    - The two persisted artifacts and the relational store are explicit
      parts of the state or explicit arguments. *)

From Stdlib Require Import Reals Lra Lia ZArith List Bool PeanoNat.
From Stdlib Require Import Sorting.Sorted Sorting.Permutation.
From Stdlib Require Strings.String Strings.Ascii Numbers.DecimalString Numbers.DecimalZ.
From Stdlib Require Floats.PrimFloat.
From stdpp Require base option fin_maps gmap strings.
Import ListNotations.

(* ------------------------------------------------------------------ *)
(** ** Floats and vectors *)

Module Numeric.

(** [Some r] is the finite value [r], [None] is NaN. *)
Definition fl : Type := option R.
Definition NaN : fl := None.
Definition fin (r : R) : fl := Some r.

Definition fadd (a b : fl) : fl :=
  match a, b with
  | Some x, Some y => Some (x + y)%R
  | _, _ => NaN
  end.

Definition fmul (a b : fl) : fl :=
  match a, b with
  | Some x, Some y => Some (x * y)%R
  | _, _ => NaN
  end.

(** Square root of a sum of squares (never negative there). *)
Definition fsqrt (a : fl) : fl :=
  match a with
  | Some x => Some (sqrt x)
  | None => NaN
  end.

(** Division of a float by a finite non-zero real. *)
Definition fdivr (a : fl) (n : R) : fl :=
  match a with
  | Some x => Some (x / n)%R
  | None => NaN
  end.

Definition vec : Type := list fl.

Fixpoint fsum (v : vec) : fl :=
  match v with
  | [] => fin 0
  | x :: v' => fadd x (fsum v')
  end.

Definition sumsq (v : vec) : fl := fsum (map (fun x => fmul x x) v).

(** [np.linalg.norm] of a one-dimensional array, in real arithmetic.  The
    binary64 computation agrees with it up to rounding when the sum of
    squares is in the normal range ([float64_range] below); outside of it
    the computed norm is [inf] or 0 ([Float64.norm]). *)
Definition vnorm (v : vec) : fl := fsqrt (sumsq v).

(** Inner product of two rows of the same length. *)
Fixpoint vdot (a b : vec) : fl :=
  match a, b with
  | x :: a', y :: b' => fadd (fmul x y) (vdot a' b')
  | _, _ => fin 0
  end.

(** One quotient of [v / np.linalg.norm(v)].  numpy does not raise on a zero
    divisor: the norm is 0 only for a zero vector, whose quotients are all
    0/0 = NaN (a warning only); a NaN norm makes every quotient NaN. *)
Definition fdiv_norm (x : fl) (norm : fl) : fl :=
  match norm with
  | Some n => if Req_EM_T n 0 then NaN else fdivr x n
  | None => NaN
  end.

(** [v / np.linalg.norm(v)]. *)
Definition l2_normalize (v : vec) : vec :=
  map (fun x => fdiv_norm x (vnorm v)) v.

(** The norm is finite and differs from 1 by at most [tol]. *)
Definition unit_norm_within (tol : R) (v : vec) : Prop :=
  exists n, vnorm v = Some n /\ (Rabs (n - 1) <= tol)%R.

(** The largest finite and the smallest normal number of binary64. *)
Definition float64_max : R := ((2 - / 2 ^ 52) * 2 ^ 1023)%R.
Definition float64_min_normal : R := (/ 2 ^ 1022)%R.

(** The sum of squares that [np.linalg.norm] takes the root of is finite
    and in the normal range of binary64: it neither overflows to [inf] nor
    loses its bits to zero, and the real norm is the computed norm up to
    rounding. *)
Definition float64_range (v : vec) : Prop :=
  exists s, sumsq v = Some s /\ (float64_min_normal <= s <= float64_max)%R.

End Numeric.
Import Numeric.

(* ------------------------------------------------------------------ *)
(** ** The normalization in binary64 *)

(** [embedding / np.linalg.norm(embedding)] on a float64 array, evaluated
    with the binary64 operations of the kernel.  [np.linalg.norm] of a
    one-dimensional array is the square root of its inner product with
    itself.  The cast to float32 that follows in [add_person] and [search]
    leaves 0, the infinities and NaN as they are. *)
Module Float64.
Import PrimFloat.

Definition norm (v : list float) : float :=
  sqrt (fold_left (fun acc x => acc + x * x) v 0)%float.

Definition normalize (v : list float) : list float :=
  map (fun x => x / norm v)%float v.

(** Three embeddings: one whose square overflows, one whose square
    underflows, and one in the normal range. *)
Definition huge_embedding : list float := [0x1p+600; 0; 0; 0]%float.
Definition tiny_embedding : list float := [0x1p-600; 0; 0; 0]%float.
Definition plain_embedding : list float := [3; 4; 0; 0]%float.

Definition zero_row : list float := [0; 0; 0; 0]%float.
Definition inf_nan_row : list float := [infinity; nan; nan; nan]%float.
Definition plain_row : list float := [3 / 5; 4 / 5; 0; 0]%float.
Definition five : float := 5%float.

End Float64.

(* ------------------------------------------------------------------ *)
(** ** The FAISS flat inner-product index (library interface) *)

Module Faiss.

(** [faiss.IndexFlatIP]: a dimension fixed at construction and the rows
    added so far, in slot order. *)
Record IndexFlatIP : Type := mkIndex { d : nat; xb : list vec }.

Definition new (dim : nat) : IndexFlatIP := mkIndex dim [].

Definition ntotal (ix : IndexFlatIP) : nat := length (xb ix).

(** [index.add(x)] for one row: the Python wrapper asserts that the row has
    the index's dimension; [None] is the AssertionError. *)
Definition add (ix : IndexFlatIP) (x : vec) : option IndexFlatIP :=
  if Nat.eqb (length x) (d ix) then Some (mkIndex (d ix) (xb ix ++ [x])) else None.

(** Label of an unused result slot. *)
Definition no_label : Z := (-1)%Z.

(** The library's exhaustive scan for one query: [scan ix q k] stands for the
    pairs [zip(distances[0], indices[0])] of [ix.search(q, k)]. *)
Definition scan_fn : Type := IndexFlatIP -> vec -> nat -> list (fl * Z).

(** [index.search(x, k)] for one query row: the Python wrapper asserts the
    dimension of the query and [k > 0]; [None] is the AssertionError. *)
Definition search (scan : scan_fn) (ix : IndexFlatIP) (q : vec) (k : Z)
  : option (list (fl * Z)) :=
  if Nat.eqb (length q) (d ix) && (0 <? k)%Z
  then Some (scan ix q (Z.to_nat k))
  else None.

(** What the library documents of the scan: exactly [k] result slots; a slot
    is unused (label -1) or names a stored row together with its inner
    product with the query; the used slots come by non-increasing inner
    product.  Nothing is said of the order of equal inner products. *)
Definition finite_ge (a b : fl) : Prop :=
  match a, b with
  | Some x, Some y => (y <= x)%R
  | _, _ => True
  end.

Record scan_contract (scan : scan_fn) : Prop := mkContract {
  scan_length : forall ix q k, length (scan ix q k) = k;
  scan_labels : forall ix q k dist idx,
      In (dist, idx) (scan ix q k) ->
      idx = no_label \/
      ((0 <= idx < Z.of_nat (ntotal ix))%Z /\
       dist = vdot q (nth (Z.to_nat idx) (xb ix) []));
  scan_sorted : forall ix q k,
      StronglySorted (fun a b => snd a <> no_label -> snd b <> no_label ->
                                 finite_ge (fst a) (fst b))
                     (scan ix q k)
}.

(** The scan is exhaustive and exact: a stored row with a finite inner
    product is among the results, unless all [k] slots are used by rows whose
    inner product is at least as large. *)
Definition exact_top_k (scan : scan_fn) : Prop :=
  forall ix q k j s,
    (j < ntotal ix)%nat ->
    vdot q (nth j (xb ix) []) = Some s ->
    In (Some s, Z.of_nat j) (scan ix q k) \/
    Forall (fun r => snd r <> no_label /\ finite_ge (fst r) (Some s)) (scan ix q k).

End Faiss.

(* ------------------------------------------------------------------ *)
(** ** FAISSService: state *)

Module FAISSService.
Import Faiss.

(** Content of a persisted artifact. *)
Inductive file (A : Type) : Type :=
| Missing : file A
| Unreadable : file A
| Stored : A -> file A.
Arguments Missing {A}.
Arguments Unreadable {A}.
Arguments Stored {A} _.

Definition exists_ {A} (f : file A) : bool :=
  match f with Missing => false | _ => true end.

(** The attributes of a [FAISSService] instance. *)
Record Service : Type := mkService {
  index : option IndexFlatIP;
  person_ids : list Z;
  dimension : nat;
  is_initialized : bool
}.

(** [faiss_index.bin] and [faiss_mapping.pkl]; [saves] counts the completed
    runs of [save_index] (instrumentation, not read by the code). *)
Record Disk : Type := mkDisk {
  index_file : file IndexFlatIP;
  mapping_file : file (list Z);
  saves : nat
}.

Record World : Type := mkWorld { svc : Service; disk : Disk }.

(** [FAISSService.__init__]. *)
Definition init : Service := mkService None [] 512 false.

Definition vectors (self : Service) : list vec :=
  match index self with
  | Some ix => xb ix
  | None => []
  end.

(** [create_index]. *)
Definition create_index (self : Service) : Service :=
  mkService (Some (Faiss.new (dimension self))) [] (dimension self) (is_initialized self).

(** [save_index] when both of its writes complete: the two artifacts are
    written from the live state; nothing is written when there is no index.
    The source writes the index file, then the mapping file, and swallows
    every exception: [save_index_io] below is the general case, and the
    operations over it ([add_person_io], [run_io], ...) agree with the ones
    over [save_index] exactly when the writes complete
    ([WriteFacts.run_io_completes]). *)
Definition save_index (w : World) : World :=
  match index (svc w) with
  | Some ix =>
      mkWorld (svc w)
        (mkDisk (Stored ix) (Stored (person_ids (svc w))) (S (saves (disk w))))
  | None => w
  end.

(** The first statement of [add_person]: an index is created when there is
    none. *)
Definition ensure_index (self : Service) : Service :=
  match index self with
  | None => create_index self
  | Some _ => self
  end.

(** The state after the row and its label are appended. *)
Definition appended (self : Service) (ix' : IndexFlatIP) (person_id : Z) : Service :=
  mkService (Some ix') (person_ids self ++ [person_id]) (dimension self)
            (is_initialized self).

(** [add_person]: returns the boolean of the source and the new state. *)
Definition add_person (person_id : Z) (embedding : vec) (w : World) : bool * World :=
  let self := ensure_index (svc w) in
  let w1 := mkWorld self (disk w) in
  if negb (Nat.eqb (length embedding) (dimension self)) then (false, w1)
  else
    let embedding := l2_normalize embedding in
    match index self with
    | None => (false, w1)
    | Some ix =>
        match Faiss.add ix embedding with
        | None => (false, w1)
        | Some ix' =>
            let w2 := mkWorld (appended self ix' person_id) (disk w) in
            if Nat.eqb (length (person_ids (svc w2)) mod 10) 0
            then (true, save_index w2)
            else (true, w2)
        end
    end.

(** [l[i]] of a Python list: negative positions count from the end; [None]
    is the IndexError. *)
Definition py_index {A} (l : list A) (i : Z) : option A :=
  let n := Z.of_nat (length l) in
  if (0 <=? i)%Z then nth_error l (Z.to_nat i)
  else if (- n <=? i)%Z then nth_error l (Z.to_nat (n + i))
  else None.

(** The loop of [search] over the result slots; [None] is an exception
    raised in the loop (it discards the results collected so far). *)
Fixpoint collect (ids : list Z) (threshold : R) (rs : list (fl * Z))
  : option (list (Z * R)) :=
  match rs with
  | [] => Some []
  | (dist, idx) :: rs' =>
      if (idx =? -1)%Z then collect ids threshold rs'
      else
        match dist with
        | Some confidence =>
            if Rge_dec confidence (1 - threshold) then
              match py_index ids idx with
              | Some person_id =>
                  match collect ids threshold rs' with
                  | Some results => Some ((person_id, confidence) :: results)
                  | None => None
                  end
              | None => None
              end
            else collect ids threshold rs'
        | None => collect ids threshold rs'   (* NaN >= x is false *)
        end
  end.

(** [search]. *)
Definition search (scan : scan_fn) (embedding : vec) (k : Z) (threshold : R)
  (self : Service) : list (Z * R) :=
  match index self with
  | None => []
  | Some ix =>
      if Nat.eqb (length (person_ids self)) 0 then []
      else
        let embedding := l2_normalize embedding in
        let k := Z.min k (Z.of_nat (length (person_ids self))) in
        match Faiss.search scan ix embedding k with
        | None => []
        | Some rs =>
            match collect (person_ids self) threshold rs with
            | Some results => results
            | None => []
            end
        end
  end.

(** A row of [Person.query.filter_by(status='active').all()]: the id and
    what [pickle.loads(person.embedding)] gives ([None] when it raises). *)
Record person_row : Type := mkRow { id : Z; embedding_blob : option vec }.

(** The relational store as seen by one rebuild. *)
Inductive db_outcome : Type :=
| QueryFails : db_outcome
| ActivePersons : list person_row -> db_outcome.

Inductive outcome : Type := Returned | Raised.

(** One turn of the loop of [rebuild_from_database]. *)
Definition rebuild_step (w : World) (person : person_row) : World :=
  match embedding_blob person with
  | Some embedding => snd (add_person (id person) embedding w)
  | None => w
  end.

(** [rebuild_from_database]. *)
Definition rebuild_from_database (db : db_outcome) (w : World) : outcome * World :=
  let w1 := mkWorld (create_index (svc w)) (disk w) in
  match db with
  | QueryFails => (Raised, w1)
  | ActivePersons persons => (Returned, save_index (fold_left rebuild_step persons w1))
  end.


(** [update_person]. *)
Definition update_person (person_id : Z) (new_embedding : vec) (db : db_outcome)
  (w : World) : bool * World :=
  if existsb (Z.eqb person_id) (person_ids (svc w)) then
    match rebuild_from_database db w with
    | (Returned, w') => (true, w')
    | (Raised, w') => (false, w')
    end
  else (false, w).

(** [remove_person]. *)
Definition remove_person (person_id : Z) (db : db_outcome) (w : World) : bool * World :=
  if existsb (Z.eqb person_id) (person_ids (svc w)) then
    match rebuild_from_database db w with
    | (Returned, w') => (true, w')
    | (Raised, w') => (false, w')
    end
  else (false, w).

(** [clear_index]. *)
Definition clear_index (w : World) : World :=
  save_index (mkWorld (create_index (svc w)) (disk w)).

(** [load_index]: the index is assigned before the mapping is read. *)
Definition load_index (w : World) : outcome * World :=
  let self := svc w in
  match index_file (disk w) with
  | Stored ix =>
      let self1 := mkService (Some ix) (person_ids self) (dimension self)
                     (is_initialized self) in
      match mapping_file (disk w) with
      | Stored ids =>
          (Returned,
           mkWorld (mkService (Some ix) ids (dimension self) (is_initialized self))
                   (disk w))
      | _ => (Raised, mkWorld self1 (disk w))
      end
  | _ => (Raised, w)
  end.

Definition set_initialized (self : Service) : Service :=
  mkService (index self) (person_ids self) (dimension self) true.

(** [initialize]. *)
Definition initialize (w : World) : World :=
  if exists_ (index_file (disk w)) && exists_ (mapping_file (disk w)) then
    match load_index w with
    | (Returned, w') => mkWorld (set_initialized (svc w')) (disk w')
    | (Raised, w') => mkWorld (create_index (svc w')) (disk w')
    end
  else mkWorld (set_initialized (create_index (svc w))) (disk w).

(** [get_total_persons]. *)
Definition get_total_persons (self : Service) : nat := length (person_ids self).

(** *** Notions used by the properties *)

(** What a search can observe of the service: the stored rows and their
    labels. *)
Definition observable (w : World) : list vec * list Z :=
  (vectors (svc w), person_ids (svc w)).

(** The parallel sequences have one length. *)
Definition consistent (self : Service) : Prop :=
  length (vectors self) = length (person_ids self).

(** The persisted artifacts, when both can be read, have one length. *)
Definition disk_consistent (dk : Disk) : Prop :=
  match index_file dk, mapping_file dk with
  | Stored ix, Stored ids => ntotal ix = length ids
  | _, _ => True
  end.

(** The labels on disk. *)
Definition persisted_ids (dk : Disk) : list Z :=
  match mapping_file dk with
  | Stored ids => ids
  | _ => []
  end.

(** A store row that a rebuild can index: its embedding deserializes and has
    the dimension of the service. *)
Definition indexable (dim : nat) (person : person_row) : bool :=
  match embedding_blob person with
  | Some e => Nat.eqb (length e) dim
  | None => false
  end.

Definition stored_row (person : person_row) : vec :=
  match embedding_blob person with
  | Some e => l2_normalize e
  | None => []
  end.

(** The live index exists and has the configured dimension. *)
Definition live (dim : nat) (w : World) : Prop :=
  exists ix, index (svc w) = Some ix /\ d ix = dim /\ dimension (svc w) = dim.

Definition has_index (w : World) : Prop := index (svc w) <> None.

(** The operations of the index. *)
Inductive op : Type :=
| OpAdd : Z -> vec -> op
| OpSearch : vec -> Z -> R -> op
| OpRebuild : db_outcome -> op
| OpPersist : op
| OpLoad : op
| OpClear : op
| OpUpdate : Z -> vec -> db_outcome -> op
| OpRemove : Z -> db_outcome -> op.

(** One operation; a load is the load of [initialize], its only caller. *)
Definition step (o : op) (w : World) : World :=
  match o with
  | OpAdd person_id embedding => snd (add_person person_id embedding w)
  | OpSearch _ _ _ => w
  | OpRebuild db => snd (rebuild_from_database db w)
  | OpPersist => save_index w
  | OpLoad => initialize w
  | OpClear => clear_index w
  | OpUpdate person_id e db => snd (update_person person_id e db w)
  | OpRemove person_id db => snd (remove_person person_id db w)
  end.

Definition run (ops : list op) (w : World) : World := fold_left (fun w o => step o w) ops w.

(** One [add_person] call as an event: did it return true, and did it run
    [save_index]. *)
Record add_event : Type := mkEvent { ok : bool; saved : bool }.

Definition add_event_of (person_id : Z) (embedding : vec) (w : World) : add_event :=
  let r := add_person person_id embedding w in
  mkEvent (fst r) (Nat.ltb (saves (disk w)) (saves (disk (snd r)))).

(** A sequence of [add_person] calls: the events in call order and the
    final state. *)
Fixpoint add_all (reqs : list (Z * vec)) (w : World) : list add_event * World :=
  match reqs with
  | [] => ([], w)
  | (person_id, embedding) :: reqs' =>
      let r := add_all reqs' (snd (add_person person_id embedding w)) in
      (add_event_of person_id embedding w :: fst r, snd r)
  end.

Definition successes (evs : list add_event) : nat := length (filter ok evs).

Definition no_save (evs : list add_event) : Prop := Forall (fun e => saved e = false) evs.

(** *** Writes that fail *)

(** How one run of [save_index] on a live index ends.  The source calls
    [faiss.write_index] first and opens and writes the mapping file only
    when that call has returned; both are inside one [try] whose handler
    logs the exception and returns, so a failure is not seen by the
    caller.  [torn] tells whether the file under the failed write is left
    unreadable (truncated or partly written) or as it was. *)
Inductive write_outcome : Type :=
| Completes : write_outcome
| IndexWriteFails (torn : bool) : write_outcome
| MappingWriteFails (torn : bool) : write_outcome.

Definition after_failed_write {A} (torn : bool) (old : file A) : file A :=
  if torn then Unreadable else old.

(** The artifacts after one run of [save_index] on the index [ix] and the
    labels [ids]. *)
Definition write_artifacts (o : write_outcome) (ix : IndexFlatIP) (ids : list Z)
  (dk : Disk) : Disk :=
  match o with
  | Completes => mkDisk (Stored ix) (Stored ids) (S (saves dk))
  | IndexWriteFails torn =>
      mkDisk (after_failed_write torn (index_file dk)) (mapping_file dk) (saves dk)
  | MappingWriteFails torn =>
      mkDisk (Stored ix) (after_failed_write torn (mapping_file dk)) (saves dk)
  end.

(** The service and its files, with the outcomes of the runs of
    [save_index] to come, in order (a run past the end of the list
    completes); [attempts] counts the runs of [save_index] on a live index
    (instrumentation, not read by the code). *)
Record Env : Type := mkEnv {
  world : World;
  writes : list write_outcome;
  attempts : nat
}.

Definition with_world (w : World) (e : Env) : Env := mkEnv w (writes e) (attempts e).

(** [save_index], with writes that can fail. *)
Definition save_index_io (e : Env) : Env :=
  let w := world e in
  match index (svc w) with
  | Some ix =>
      mkEnv (mkWorld (svc w)
               (write_artifacts (hd Completes (writes e)) ix (person_ids (svc w)) (disk w)))
            (tl (writes e)) (S (attempts e))
  | None => e
  end.

(** [add_person] over [save_index_io]. *)
Definition add_person_io (person_id : Z) (embedding : vec) (e : Env) : bool * Env :=
  let w := world e in
  let self := ensure_index (svc w) in
  let e1 := with_world (mkWorld self (disk w)) e in
  if negb (Nat.eqb (length embedding) (dimension self)) then (false, e1)
  else
    let embedding := l2_normalize embedding in
    match index self with
    | None => (false, e1)
    | Some ix =>
        match Faiss.add ix embedding with
        | None => (false, e1)
        | Some ix' =>
            let e2 := with_world (mkWorld (appended self ix' person_id) (disk w)) e in
            if Nat.eqb (length (person_ids (svc (world e2))) mod 10) 0
            then (true, save_index_io e2)
            else (true, e2)
        end
    end.

Definition rebuild_step_io (e : Env) (person : person_row) : Env :=
  match embedding_blob person with
  | Some embedding => snd (add_person_io (id person) embedding e)
  | None => e
  end.

(** [rebuild_from_database] over [save_index_io]: the adds of the loop
    save on every tenth row, and the rebuild saves once more at its end. *)
Definition rebuild_from_database_io (db : db_outcome) (e : Env) : outcome * Env :=
  let e1 := with_world (mkWorld (create_index (svc (world e))) (disk (world e))) e in
  match db with
  | QueryFails => (Raised, e1)
  | ActivePersons persons => (Returned, save_index_io (fold_left rebuild_step_io persons e1))
  end.

Definition update_person_io (person_id : Z) (new_embedding : vec) (db : db_outcome)
  (e : Env) : bool * Env :=
  if existsb (Z.eqb person_id) (person_ids (svc (world e))) then
    match rebuild_from_database_io db e with
    | (Returned, e') => (true, e')
    | (Raised, e') => (false, e')
    end
  else (false, e).

Definition remove_person_io (person_id : Z) (db : db_outcome) (e : Env) : bool * Env :=
  if existsb (Z.eqb person_id) (person_ids (svc (world e))) then
    match rebuild_from_database_io db e with
    | (Returned, e') => (true, e')
    | (Raised, e') => (false, e')
    end
  else (false, e).

Definition clear_index_io (e : Env) : Env :=
  save_index_io
    (with_world (mkWorld (create_index (svc (world e))) (disk (world e))) e).

(** One operation; [initialize] and [search] write nothing. *)
Definition step_io (o : op) (e : Env) : Env :=
  match o with
  | OpAdd person_id embedding => snd (add_person_io person_id embedding e)
  | OpSearch _ _ _ => e
  | OpRebuild db => snd (rebuild_from_database_io db e)
  | OpPersist => save_index_io e
  | OpLoad => with_world (initialize (world e)) e
  | OpClear => clear_index_io e
  | OpUpdate person_id v db => snd (update_person_io person_id v db e)
  | OpRemove person_id db => snd (remove_person_io person_id db e)
  end.

Definition run_io (ops : list op) (e : Env) : Env :=
  fold_left (fun e o => step_io o e) ops e.

(** One [add_person_io] call as an event: did it return true, and did it
    run [save_index]. *)
Definition add_event_of_io (person_id : Z) (embedding : vec) (e : Env) : add_event :=
  let r := add_person_io person_id embedding e in
  mkEvent (fst r) (Nat.ltb (attempts e) (attempts (snd r))).

Fixpoint add_all_io (reqs : list (Z * vec)) (e : Env) : list add_event * Env :=
  match reqs with
  | [] => ([], e)
  | (person_id, embedding) :: reqs' =>
      let r := add_all_io reqs' (snd (add_person_io person_id embedding e)) in
      (add_event_of_io person_id embedding e :: fst r, snd r)
  end.

(** A save after which the two artifacts can both be read and disagree: the
    index file is new and the mapping file is the old one. *)
Definition leaves_stale_mapping (o : write_outcome) : bool :=
  match o with
  | MappingWriteFails false => true
  | _ => false
  end.

Definition is_load (o : op) : bool :=
  match o with OpLoad => true | _ => false end.

(** The rows on disk. *)
Definition persisted_vectors (dk : Disk) : list vec :=
  match index_file dk with
  | Stored ix => xb ix
  | _ => []
  end.

(** What is in memory is what is on disk. *)
Definition in_sync (w : World) : Prop :=
  vectors (svc w) = persisted_vectors (disk w) /\
  person_ids (svc w) = persisted_ids (disk w).

(** *** Lookup of a stored embedding *)

(** [l.index(x)]: the first position of [x]; [None] is the ValueError. *)
Fixpoint list_index (x : Z) (l : list Z) : option nat :=
  match l with
  | [] => None
  | y :: l' => if Z.eqb y x then Some 0%nat
               else match list_index x l' with
                    | Some i => Some (S i)
                    | None => None
                    end
  end.

(** [get_person_embedding]: [index.reconstruct(idx)] raises when there is no
    index or no such slot, and every exception gives [None]. *)
Definition get_person_embedding (person_id : Z) (self : Service) : option vec :=
  if negb (existsb (Z.eqb person_id) (person_ids self)) then None
  else
    match list_index person_id (person_ids self) with
    | Some idx =>
        match index self with
        | Some ix => nth_error (xb ix) idx
        | None => None
        end
    | None => None
    end.

(** Every row is the result of a normalization. *)
Definition normalized_rows (rows : list vec) : Prop :=
  Forall (fun row => exists v, row = l2_normalize v) rows.

Definition normalized_disk (dk : Disk) : Prop :=
  match index_file dk with
  | Stored ix => normalized_rows (xb ix)
  | _ => True
  end.

(** Every row has the dimension of its index. *)
Definition rows_wf (ix : IndexFlatIP) : Prop :=
  Forall (fun row => length row = d ix) (xb ix).

Definition service_rows_wf (self : Service) : Prop :=
  match index self with
  | Some ix => rows_wf ix
  | None => True
  end.

Definition disk_rows_wf (dk : Disk) : Prop :=
  match index_file dk with
  | Stored ix => rows_wf ix
  | _ => True
  end.

(** The rows in memory and on disk are normalized and have the dimension
    of their index. *)
Definition rows_invariant (w : World) : Prop :=
  normalized_rows (vectors (svc w)) /\ service_rows_wf (svc w) /\
  normalized_disk (disk w) /\ disk_rows_wf (disk w).

(** A service as it is after a restart: constructed, nothing loaded yet. *)
Definition restarted (dk : Disk) : World := mkWorld init dk.

End FAISSService.

(* ------------------------------------------------------------------ *)
(** ** Exhaustive scans that meet the library contract *)

Module FlatScan.
Import Faiss.

(** Distance the library writes in an unused result slot (the lowest
    single-precision float). *)
Definition neutral : fl := Some (- 340282346638528859811704183484516925440)%R.

(** Inner product of the query with every stored row, with the row's slot. *)
Definition scored (ix : IndexFlatIP) (q : vec) : list (fl * Z) :=
  combine (map (vdot q) (xb ix)) (map Z.of_nat (seq 0 (ntotal ix))).

(** Insertion in a list kept by non-increasing score.  With [low_first] an
    entry goes behind the entries of equal score already there, otherwise in
    front of them. *)
Fixpoint insert (low_first : bool) (x : R * Z) (l : list (R * Z)) : list (R * Z) :=
  match l with
  | [] => [x]
  | y :: l' =>
      if (if low_first
          then (if Rle_dec (fst x) (fst y) then true else false)
          else (if Rlt_dec (fst x) (fst y) then true else false))
      then y :: insert low_first x l'
      else x :: y :: l'
  end.

(** Rows in slot order, one insertion each; a NaN score compares false with
    everything and is never kept. *)
Fixpoint ranked (low_first : bool) (rows : list (fl * Z)) (acc : list (R * Z))
  : list (R * Z) :=
  match rows with
  | [] => acc
  | (Some s, i) :: rows' => ranked low_first rows' (insert low_first (s, i) acc)
  | (None, _) :: rows' => ranked low_first rows' acc
  end.

Definition pad (k : nat) (l : list (fl * Z)) : list (fl * Z) :=
  l ++ repeat (neutral, no_label) (k - length l).

(** Exact top-[k] by inner product. *)
Definition exhaustive (low_first : bool) : scan_fn :=
  fun ix q k =>
    pad k (firstn k (map (fun p => (Some (fst p), snd p))
                         (ranked low_first (scored ix q) []))).

End FlatScan.

(* ------------------------------------------------------------------ *)
(** ** FaceRecognitionService: quality assessment and enrollment *)

Module FaceRecognitionService.

(** What OpenCV computes from a decoded image: the pixels of
    [cv2.cvtColor(image, COLOR_BGR2GRAY)] (unsigned bytes, flattened) and the
    response of [cv2.Laplacian(gray, CV_64F)], one value per pixel. *)
Record GrayImage : Type := mkGray { pixels : list Z; laplacian : list R }.

Definition well_formed (g : GrayImage) : Prop :=
  pixels g <> [] /\
  Forall (fun p => (0 <= p <= 255)%Z) (pixels g) /\
  length (laplacian g) = length (pixels g).

Definition rsum (l : list R) : R := fold_right Rplus 0%R l.

(** [np.mean]. *)
Definition rmean (l : list R) : R := (rsum l / INR (length l))%R.

(** [ndarray.var]: the mean of the squared deviations from the mean. *)
Definition rvar (l : list R) : R :=
  let m := rmean l in rmean (map (fun x => ((x - m) * (x - m))%R) l).

(** [np.std]. *)
Definition rstd (l : list R) : R := sqrt (rvar l).

(** Round to the nearest integer, halves to the even neighbour. *)
Definition rint (x : R) : Z :=
  let f := Int_part x in
  let r := frac_part x in
  if Rlt_dec r (1 / 2) then f
  else if Rlt_dec (1 / 2) r then (f + 1)%Z
  else if Z.even f then f else (f + 1)%Z.

(** [round(x, 3)]. *)
Definition round3 (x : R) : R := (IZR (rint (x * 1000)) / 1000)%R.

(** The dictionary returned by [assess_image_quality]. *)
Record QualityMetrics : Type := mkQuality {
  quality_score : R;
  sharpness : R;
  brightness : R;
  contrast : R
}.

Definition default_metrics : QualityMetrics := mkQuality 0.5 0 0 0.

(** The overall score before rounding, as the source computes it. *)
Definition quality_formula (sharpness brightness contrast : R) : R :=
  (sharpness * 0.4 +
   Rmin (Rabs (brightness - 0.5) * 2) 1 * 0.3 +
   Rmin contrast 1 * 0.3)%R.

(** [assess_image_quality]; [None] is an image on which OpenCV raises, as it
    does on an empty one. *)
Definition assess_image_quality (view : option GrayImage) : QualityMetrics :=
  match view with
  | Some g =>
      match pixels g with
      | [] => default_metrics
      | _ :: _ =>
          let gray := map IZR (pixels g) in
          let laplacian_var := rvar (laplacian g) in
          let sharpness := Rmin (laplacian_var / 100) 1 in
          let brightness := (rmean gray / 255)%R in
          let contrast := (rstd gray / 128)%R in
          let quality := quality_formula sharpness brightness contrast in
          mkQuality (round3 quality) (round3 sharpness) (round3 brightness)
                    (round3 contrast)
      end
  | None => default_metrics
  end.

(** The score the specification describes, on the same measurements. *)
Definition spec_quality_formula (sharpness brightness contrast : R) : R :=
  (0.4 * sharpness +
   0.3 * Rmax 0 (Rmin 1 (1 - 2 * Rabs (brightness - 0.5))) +
   0.3 * contrast)%R.

Fixpoint vadd (a b : vec) : vec :=
  match a, b with
  | x :: a', y :: b' => fadd x y :: vadd a' b'
  | _, _ => []
  end.

(** [np.mean(embeddings, axis=0)] of the non-empty list [e :: es]: the
    column means; [None] is the ValueError numpy raises when the rows do not
    have one length. *)
Definition np_mean_axis0 (e : vec) (es : list vec) : option vec :=
  if forallb (fun e' => Nat.eqb (length e') (length e)) es
  then Some (map (fun s => fdivr s (INR (S (length es)))) (fold_left vadd es e))
  else None.

Inductive status : Type := accepted | rejected | error.

Definition is_accepted (st : status) : bool :=
  match st with accepted => true | _ => false end.

Inductive reason_text : Type :=
| LowQuality : reason_text
| NoFaceDetected : reason_text
| ErrorText : nat -> reason_text.

(** One entry of [quality_reports]. *)
Record report : Type := mkReport {
  image_index : nat;
  report_status : status;
  reason : option reason_text;
  metrics : option QualityMetrics
}.

Inductive enrollment_result : Type :=
| EnrollRaises : enrollment_result
| EnrollReturns : option vec -> list report -> enrollment_result.

Section Capabilities.

(** The external capabilities: decoding ([base64_to_image], [inr] is the
    text of the ValueError), OpenCV's view of an image, and
    [DeepFace.represent] on the preprocessed image ([None] when it raises,
    otherwise the embeddings of the faces found). *)
Variable payload : Type.
Variable image : Type.
Variable base64_to_image : payload -> image + nat.
Variable gray_of : image -> option GrayImage.
Variable represent : image -> option (list vec).

(** [extract_embedding]. *)
Definition extract_embedding (img : image) : option vec :=
  match represent img with
  | Some (embedding :: _) => Some (l2_normalize embedding)
  | Some [] => None
  | None => None
  end.

(** The loop of [process_enrollment_images]; [idx] is the position given by
    [enumerate]. *)
Fixpoint enrollment_loop (idx : nat) (base64_images : list payload)
  (embeddings : list vec) (quality_reports : list report)
  : list vec * list report :=
  match base64_images with
  | [] => (embeddings, quality_reports)
  | base64_img :: rest =>
      match base64_to_image base64_img with
      | inr msg =>
          enrollment_loop (S idx) rest embeddings
            (quality_reports ++ [mkReport (idx + 1) error (Some (ErrorText msg)) None])
      | inl img =>
          let quality := assess_image_quality (gray_of img) in
          if Rlt_dec (quality_score quality) 0.3 then
            enrollment_loop (S idx) rest embeddings
              (quality_reports ++
               [mkReport (idx + 1) rejected (Some LowQuality) (Some quality)])
          else
            match extract_embedding img with
            | Some embedding =>
                enrollment_loop (S idx) rest (embeddings ++ [embedding])
                  (quality_reports ++ [mkReport (idx + 1) accepted None (Some quality)])
            | None =>
                enrollment_loop (S idx) rest embeddings
                  (quality_reports ++
                   [mkReport (idx + 1) rejected (Some NoFaceDetected) (Some quality)])
            end
      end
  end.

(** [process_enrollment_images]. *)
Definition process_enrollment_images (base64_images : list payload)
  : enrollment_result :=
  let (embeddings, quality_reports) := enrollment_loop 0 base64_images [] [] in
  match embeddings with
  | [] => EnrollReturns None quality_reports
  | e :: es =>
      match np_mean_axis0 e es with
      | Some averaged_embedding =>
          EnrollReturns (Some (l2_normalize averaged_embedding)) quality_reports
      | None => EnrollRaises
      end
  end.

(** What one image contributes, read off the policy: its status, and its
    embedding when it is accepted. *)
Definition image_status (base64_img : payload) : status * option vec :=
  match base64_to_image base64_img with
  | inr _ => (error, None)
  | inl img =>
      if Rlt_dec (quality_score (assess_image_quality (gray_of img))) 0.3
      then (rejected, None)
      else match extract_embedding img with
           | Some e => (accepted, Some e)
           | None => (rejected, None)
           end
  end.

Definition accepted_embeddings (base64_images : list payload) : list vec :=
  flat_map (fun b => match snd (image_status b) with
                     | Some e => [e]
                     | None => []
                     end) base64_images.

End Capabilities.

Arguments extract_embedding {image} represent img.
Arguments enrollment_loop {payload image} base64_to_image gray_of represent
  idx base64_images embeddings quality_reports.
Arguments process_enrollment_images {payload image} base64_to_image gray_of
  represent base64_images.
Arguments image_status {payload image} base64_to_image gray_of represent base64_img.
Arguments accepted_embeddings {payload image} base64_to_image gray_of represent
  base64_images.

(** *** Verification against stored embeddings *)

(** [np.dot] of two one-dimensional arrays; [None] is the ValueError raised
    when their lengths differ. *)
Definition np_dot (a b : vec) : option fl :=
  if Nat.eqb (length a) (length b) then Some (vdot a b) else None.

(** [1 - x]. *)
Definition one_minus (x : fl) : fl :=
  match x with
  | Some r => Some (1 - r)%R
  | None => NaN
  end.

(** [x < t]; false on NaN. *)
Definition fl_lt (x : fl) (t : R) : bool :=
  match x with
  | Some r => if Rlt_dec r t then true else false
  | None => false
  end.

(** [verify_face], with [self.threshold] as [threshold]. *)
Definition verify_face {image : Type} (represent : image -> option (list vec))
  (threshold : R) (img : image) (stored_embedding : vec) : bool * fl :=
  match extract_embedding represent img with
  | None => (false, Some 0%R)
  | Some new_embedding =>
      match np_dot new_embedding stored_embedding with
      | Some similarity =>
          let distance := one_minus similarity in
          let is_match := fl_lt distance threshold in
          let confidence := one_minus distance in
          (is_match, confidence)
      | None => (false, Some 0%R)
      end
  end.

(** The loop of [batch_verify] over [embeddings_dict.items()], in insertion
    order; [None] is an exception of [np.dot]. *)
Fixpoint batch_matches (new_embedding : vec) (threshold : R)
  (items : list (Z * vec)) (matches : list (Z * R)) : option (list (Z * R)) :=
  match items with
  | [] => Some matches
  | (user_id, stored_embedding) :: rest =>
      match np_dot new_embedding stored_embedding with
      | Some similarity =>
          if fl_lt (one_minus similarity) threshold
          then match similarity with
               | Some confidence =>
                   batch_matches new_embedding threshold rest
                     (matches ++ [(user_id, confidence)])
               | None => batch_matches new_embedding threshold rest matches
               end
          else batch_matches new_embedding threshold rest matches
      | None => None
      end
  end.

(** Insertion for [sort(key=lambda x: x[1], reverse=True)]: the sort is
    stable, so an entry goes in front of the first entry whose confidence is
    not larger. *)
Fixpoint insert_by_confidence (x : Z * R) (l : list (Z * R)) : list (Z * R) :=
  match l with
  | [] => [x]
  | y :: l' =>
      if Rlt_dec (snd x) (snd y) then y :: insert_by_confidence x l'
      else x :: y :: l'
  end.

Definition sort_by_confidence (l : list (Z * R)) : list (Z * R) :=
  fold_right insert_by_confidence [] l.

(** [batch_verify]. *)
Definition batch_verify {image : Type} (represent : image -> option (list vec))
  (threshold : R) (img : image) (embeddings_dict : list (Z * vec)) : list (Z * R) :=
  match extract_embedding represent img with
  | None => []
  | Some new_embedding =>
      match batch_matches new_embedding threshold embeddings_dict [] with
      | Some matches => sort_by_confidence matches
      | None => []
      end
  end.

End FaceRecognitionService.

(* ------------------------------------------------------------------ *)
(** ** The enrollment approval route *)

Module AdminRoutes.
Import FaceRecognitionService.

(** [r.get('quality_score', 0)]: error reports carry no metrics. *)
Definition report_quality (r : report) : R :=
  match metrics r with
  | Some q => quality_score q
  | None => 0%R
  end.

(** The [quality_score] that [approve_enrollment] stores with the person:
    the mean score of the accepted reports; [None] is the ZeroDivisionError
    when no report is accepted. *)
Definition person_quality_score (quality_reports : list report) : option R :=
  let accepted_reports :=
    filter (fun r => is_accepted (report_status r)) quality_reports in
  match accepted_reports with
  | [] => None
  | _ :: _ =>
      Some (rsum (map report_quality accepted_reports)
            / INR (length accepted_reports))%R
  end.

End AdminRoutes.

(* ------------------------------------------------------------------ *)
(** ** The cache service ([backend/app/services/cache_service.py]) *)

Module CacheService.
Import Stdlib.Strings.String.
Import stdpp.base stdpp.option stdpp.fin_maps stdpp.gmap stdpp.strings.

(** Python's [pattern in k] on strings. *)
Fixpoint contains (pattern k : string) : bool :=
  String.prefix pattern k ||
  match k with
  | EmptyString => false
  | String _ rest => contains pattern rest
  end.

(** Truth value of an optional string: [None] and [''] are false. *)
Definition truthy (s : option string) : option string :=
  match s with
  | Some EmptyString => None
  | other => other
  end.

(** What the service takes from the Python runtime and from the redis
    client: [json.dumps] and [json.loads] ([None] when they raise), [int]
    and [str] on counters, and the commands of the client, each returning
    its reply ([None] when it raises) and the client after the command. *)
Class Runtime : Type := {
  value : Type;
  is_None : value -> bool;
  json_dumps : value -> option string;
  json_loads : string -> option value;
  py_int : string -> option Z;
  py_str : Z -> string;
  redis : Type;
  redis_from_url : string -> option redis;
  redis_ping : redis -> option bool * redis;
  redis_get : string -> redis -> option (option string) * redis;
  redis_setex : string -> Z -> string -> redis -> option unit * redis;
  redis_delete : list string -> redis -> option unit * redis;
  redis_exists : string -> redis -> option Z * redis;
  redis_keys : string -> redis -> option (list string) * redis;
  redis_flushdb : redis -> option unit * redis;
  redis_incrby : string -> Z -> redis -> option Z * redis;
  redis_mget : list string -> redis -> option (list (option string)) * redis;
  redis_pipeline_setex : list (string * Z * string) -> redis -> option unit * redis
}.

Section Backend.
Context `{Runtime}.

(** The attributes of a [CacheService] instance; [fallback_cache] is the
    in-process dictionary, from keys to serialized texts. *)
Record CacheService : Type := mkCache {
  redis_client : option redis;
  fallback_cache : gmap string string;
  is_available : bool;
  default_ttl : Z
}.

(** [CacheService.__init__]. *)
Definition init : CacheService := mkCache None empty false 3600.

Definition with_redis (r : redis) (self : CacheService) : CacheService :=
  mkCache (Some r) (fallback_cache self) (is_available self) (default_ttl self).

Definition with_cache (c : gmap string string) (self : CacheService) : CacheService :=
  mkCache (redis_client self) c (is_available self) (default_ttl self).

(** [self.is_available and self.redis_client]: the client the methods talk
    to, or [None] when they work on the fallback dictionary. *)
Definition uses_redis (self : CacheService) : option redis :=
  if is_available self then redis_client self else None.

(** [ttl or self.default_ttl]. *)
Definition ttl_or_default (ttl : option Z) (self : CacheService) : Z :=
  match ttl with
  | Some t => if Z.eqb t 0 then default_ttl self else t
  | None => default_ttl self
  end.

(** [initialize]: the client is kept when the test [ping] raises, but
    marked unavailable. *)
Definition initialize (redis_url : option string) (self : CacheService) : CacheService :=
  match truthy redis_url with
  | Some url =>
      match redis_from_url url with
      | Some r =>
          match redis_ping r with
          | (Some _, r') => mkCache (Some r') (fallback_cache self) true (default_ttl self)
          | (None, r') => mkCache (Some r') (fallback_cache self) false (default_ttl self)
          end
      | None => mkCache (redis_client self) (fallback_cache self) false (default_ttl self)
      end
  | None => self
  end.

(** What [get] can return: a value decoded by [json.loads], or an entry of
    the fallback dictionary as it is stored. *)
Inductive cached : Type :=
  | Decoded (v : value)
  | Text (s : string).

(** [get]; [None] is Python's [None], returned for an absent key, an empty
    reply and every exception. *)
Definition get (key : string) (self : CacheService) : option cached * CacheService :=
  match uses_redis self with
  | Some r =>
      match redis_get key r with
      | (Some reply, r') =>
          match truthy reply with
          | Some text => (option_map Decoded (json_loads text), with_redis r' self)
          | None => (None, with_redis r' self)
          end
      | (None, r') => (None, with_redis r' self)
      end
  | None => (option_map Text (fallback_cache self !! key), self)
  end.

(** [set]: the value is serialized before the store is chosen. *)
Definition set (key : string) (v : value) (ttl : option Z) (self : CacheService)
  : bool * CacheService :=
  let ttl := ttl_or_default ttl self in
  match json_dumps v with
  | None => (false, self)
  | Some serialized =>
      match uses_redis self with
      | Some r =>
          match redis_setex key ttl serialized r with
          | (Some _, r') => (true, with_redis r' self)
          | (None, r') => (false, with_redis r' self)
          end
      | None => (true, with_cache (<[key := serialized]> (fallback_cache self)) self)
      end
  end.

(** [delete]. *)
Definition delete (key : string) (self : CacheService) : bool * CacheService :=
  match uses_redis self with
  | Some r =>
      match redis_delete [key] r with
      | (Some _, r') => (true, with_redis r' self)
      | (None, r') => (false, with_redis r' self)
      end
  | None => (true, with_cache (base.delete key (fallback_cache self)) self)
  end.

(** [exists]. *)
Definition exists_ (key : string) (self : CacheService) : bool * CacheService :=
  match uses_redis self with
  | Some r =>
      match redis_exists key r with
      | (Some n, r') => (negb (Z.eqb n 0), with_redis r' self)
      | (None, r') => (false, with_redis r' self)
      end
  | None => (bool_decide (is_Some (fallback_cache self !! key)), self)
  end.

(** [clear]: with redis the pattern is a glob handed to [KEYS]; on the
    fallback dictionary it is a substring test. *)
Definition clear (pattern : option string) (self : CacheService) : bool * CacheService :=
  match uses_redis self with
  | Some r =>
      match truthy pattern with
      | Some p =>
          match redis_keys p r with
          | (Some [], r') => (true, with_redis r' self)
          | (Some keys, r') =>
              match redis_delete keys r' with
              | (Some _, r'') => (true, with_redis r'' self)
              | (None, r'') => (false, with_redis r'' self)
              end
          | (None, r') => (false, with_redis r' self)
          end
      | None =>
          match redis_flushdb r with
          | (Some _, r') => (true, with_redis r' self)
          | (None, r') => (false, with_redis r' self)
          end
      end
  | None =>
      match truthy pattern with
      | Some p =>
          (true, with_cache (filter (fun kv => contains p (fst kv) = false)
                                    (fallback_cache self)) self)
      | None => (true, with_cache empty self)
      end
  end.

(** [ping]. *)
Definition ping (self : CacheService) : bool * CacheService :=
  match uses_redis self with
  | Some r =>
      match redis_ping r with
      | (Some b, r') => (b, with_redis r' self)
      | (None, r') => (false, with_redis r' self)
      end
  | None => (true, self)
  end.

(** [increment]; [None] when [incrby] or [int] raises. *)
Definition increment (key : string) (amount : Z) (self : CacheService)
  : option Z * CacheService :=
  match uses_redis self with
  | Some r =>
      match redis_incrby key amount r with
      | (reply, r') => (reply, with_redis r' self)
      end
  | None =>
      let current := default "0"%string (fallback_cache self !! key) in
      match py_int current with
      | Some n =>
          let new_value := (n + amount)%Z in
          (Some new_value,
           with_cache (<[key := py_str new_value]> (fallback_cache self)) self)
      | None => (None, self)
      end
  end.

(** The loop of [get_many] over the replies of [mget]. *)
Fixpoint decode_replies (pairs : list (string * option string))
  (results : gmap string value) : option (gmap string value) :=
  match pairs with
  | [] => Some results
  | (key, reply) :: rest =>
      match truthy reply with
      | Some text =>
          match json_loads text with
          | Some v => decode_replies rest (<[key := v]> results)
          | None => None
          end
      | None => decode_replies rest results
      end
  end.

(** The loop of [get_many] over the fallback dictionary. *)
Fixpoint decode_present (cache : gmap string string) (keys : list string)
  (results : gmap string value) : option (gmap string value) :=
  match keys with
  | [] => Some results
  | key :: rest =>
      match cache !! key with
      | Some text =>
          match json_loads text with
          | Some v => decode_present cache rest (<[key := v]> results)
          | None => None
          end
      | None => decode_present cache rest results
      end
  end.

(** [get_many]: an exception anywhere gives the empty dictionary. *)
Definition get_many (keys : list string) (self : CacheService)
  : gmap string value * CacheService :=
  match uses_redis self with
  | Some r =>
      match redis_mget keys r with
      | (Some values, r') =>
          (default empty (decode_replies (combine keys values) empty), with_redis r' self)
      | (None, r') => (empty, with_redis r' self)
      end
  | None => (default empty (decode_present (fallback_cache self) keys empty), self)
  end.

(** The loop of [set_many] that queues the commands of the pipeline. *)
Fixpoint queue_all (ttl : Z) (mapping : list (string * value))
  : option (list (string * Z * string)) :=
  match mapping with
  | [] => Some []
  | (key, v) :: rest =>
      match json_dumps v with
      | Some serialized =>
          option_map (cons (key, ttl, serialized)) (queue_all ttl rest)
      | None => None
      end
  end.

(** The loop of [set_many] over the fallback dictionary: it writes entry by
    entry and stops at the first value that does not serialize. *)
Fixpoint store_all (mapping : list (string * value)) (cache : gmap string string)
  : bool * gmap string string :=
  match mapping with
  | [] => (true, cache)
  | (key, v) :: rest =>
      match json_dumps v with
      | Some serialized => store_all rest (<[key := serialized]> cache)
      | None => (false, cache)
      end
  end.

(** [set_many]; [mapping] is the dictionary argument as its items, in
    iteration order. *)
Definition set_many (mapping : list (string * value)) (ttl : option Z)
  (self : CacheService) : bool * CacheService :=
  let ttl := ttl_or_default ttl self in
  match uses_redis self with
  | Some r =>
      match queue_all ttl mapping with
      | Some commands =>
          match redis_pipeline_setex commands r with
          | (Some _, r') => (true, with_redis r' self)
          | (None, r') => (false, with_redis r' self)
          end
      | None => (false, self)
      end
  | None =>
      match store_all mapping (fallback_cache self) with
      | (ok, cache) => (ok, with_cache cache self)
      end
  end.

(** The wrapper that [cache_result] installs around [func]; [cache_key] is
    the key it builds from the prefix, the name and the arguments.  The
    second component tells whether [func] was called. *)
Definition cache_result (ttl : Z) (cache_key : string) (func : unit -> value)
  (cache_service : CacheService) : cached * bool * CacheService :=
  let miss (s : CacheService) :=
    let result := func tt in
    (Decoded result, true, snd (set cache_key result (Some ttl) s)) in
  match get cache_key cache_service with
  | (Some (Decoded v), s) => if is_None v then miss s else (Decoded v, false, s)
  | (Some (Text t), s) => (Text t, false, s)
  | (None, s) => miss s
  end.

End Backend.

End CacheService.

(* ------------------------------------------------------------------ *)
(** ** Concrete inputs *)

Module Samples.
Import Faiss FAISSService FaceRecognitionService.

(** A 2x2 image that is black everywhere. *)
Definition black_image : GrayImage := mkGray [0; 0; 0; 0]%Z [0; 0; 0; 0]%R.

(** Capabilities for a batch of numbered payloads: payload 0 does not
    decode, OpenCV raises on every image (the default report, score 0.5),
    no face is found on image 1, every other image yields one embedding. *)
Definition sample_decode (n : nat) : nat + nat :=
  if Nat.eqb n 0 then inr 0%nat else inl n.

Definition sample_gray (n : nat) : option GrayImage := None.

Definition sample_represent (n : nat) : option (list vec) :=
  if Nat.eqb n 1 then None else Some [Some 2%R :: repeat (Some 0%R) 511].

(** A one-pixel image of medium gray: no edges, no contrast. *)
Definition gray_image : GrayImage := mkGray [128]%Z [0]%R.

(** Capabilities for a second batch of numbered payloads, all of which
    decode: image 1 is the medium gray one and every other image is black;
    the model finds no face on image 2, and on the images 3, 4 and 5 one
    face each, whose embeddings point along the first axis: forwards on 3
    and 5, backwards on 4. *)
Definition batch_decode (n : nat) : nat + nat := inl n.

Definition batch_gray (n : nat) : option GrayImage :=
  if Nat.eqb n 1 then Some gray_image else Some black_image.

Definition batch_represent (n : nat) : option (list vec) :=
  if Nat.eqb n 2 then Some []
  else if Nat.eqb n 4 then Some [Some (-2)%R :: repeat (Some 0%R) 511]
  else if Nat.eqb n 5 then Some [Some 4%R :: repeat (Some 0%R) 511]
  else Some [Some 2%R :: repeat (Some 0%R) 511].

(** A service as constructed, before [initialize], on an empty directory. *)
Definition fresh_world : World := mkWorld init (mkDisk Missing Missing 0).

(** The zero embedding of the model's dimension. *)
Definition zero_embedding : vec := repeat (Some 0%R) 512.

(** The first basis vector scaled by [c]. *)
Definition axis_embedding (c : R) : vec := Some c :: repeat (Some 0%R) 511.

(** A running service that holds one enrolled person, id 7. *)
Definition one_person_world : World :=
  mkWorld (mkService (Some (mkIndex 512 [axis_embedding 1])) [7%Z] 512 true)
          (mkDisk (Stored (mkIndex 512 [axis_embedding 1])) (Stored [7%Z]) 1).

(** A running service that holds nine enrolled persons, ids 1 to 9, all
    persisted. *)
Definition nine_person_world : World :=
  let ix := mkIndex 512 (repeat (axis_embedding 1) 9) in
  let ids := map Z.of_nat (seq 1 9) in
  mkWorld (mkService (Some ix) ids 512 true) (mkDisk (Stored ix) (Stored ids) 1).

(** [n] enrollment requests with the ids from [first] on. *)
Definition enroll_requests (first n : nat) : list (Z * vec) :=
  map (fun i => (Z.of_nat i, axis_embedding 2)) (seq first n).

(** One embedding enrolled twice, under the ids 1 (slot 0) and 2 (slot 1). *)
Definition twin_service : Service :=
  mkService (Some (mkIndex 512 [axis_embedding 1; axis_embedding 1]))
            [1%Z; 2%Z] 512 true.

(** A running service on an empty index that is saved, on a file system
    that refuses the next write of the index file. *)
Definition refusing_env : Env :=
  mkEnv (clear_index (mkWorld init (mkDisk Missing Missing 0)))
        [IndexWriteFails false] 0.

(** The service with one person, on a file system on which the next save
    writes the index file and then fails to open the mapping file. *)
Definition stale_mapping_env : Env :=
  mkEnv one_person_world [MappingWriteFails false] 0.

(** Artifacts that disagree: two stored rows, one label. *)
Definition mismatched_disk : Disk :=
  mkDisk (Stored (mkIndex 512 [axis_embedding 1; axis_embedding 1]))
         (Stored [7%Z]) 1.

End Samples.

(** A runtime for the cache service. *)

Module CacheSamples.
Import Stdlib.Strings.String.
Import stdpp.base stdpp.option stdpp.fin_maps stdpp.gmap stdpp.strings.
Import CacheService.

(** Python values of three kinds: [None], an integer, and an object that
    [json.dumps] rejects. *)
Inductive sample_value : Type :=
  | PyNone
  | PyInt (z : Z)
  | PyObject.

Definition decimal_str (z : Z) : string :=
  DecimalString.NilZero.string_of_int (Z.to_int z).

Definition decimal_int (s : string) : option Z :=
  option_map Z.of_int (DecimalString.NilZero.int_of_string s).

Definition sample_dumps (v : sample_value) : option string :=
  match v with
  | PyNone => Some "null"%string
  | PyInt z => Some (decimal_str z)
  | PyObject => None
  end.

Definition sample_loads (s : string) : option sample_value :=
  if String.eqb s "null" then Some PyNone else option_map PyInt (decimal_int s).

(** A runtime without a reachable redis server. *)
#[local] Instance sample_runtime : Runtime := {|
  value := sample_value;
  is_None := fun v => match v with PyNone => true | _ => false end;
  json_dumps := sample_dumps;
  json_loads := sample_loads;
  py_int := decimal_int;
  py_str := decimal_str;
  redis := Empty_set;
  redis_from_url := fun _ => None;
  redis_ping := fun r => match r with end;
  redis_get := fun _ r => match r with end;
  redis_setex := fun _ _ _ r => match r with end;
  redis_delete := fun _ r => match r with end;
  redis_exists := fun _ r => match r with end;
  redis_keys := fun _ r => match r with end;
  redis_flushdb := fun r => match r with end;
  redis_incrby := fun _ _ r => match r with end;
  redis_mget := fun _ r => match r with end;
  redis_pipeline_setex := fun _ r => match r with end
|}.

Definition sample_cache : CacheService := initialize None init.

End CacheSamples.

(* ------------------------------------------------------------------ *)
(** * Properties *)

(** ** Vectors and normalization *)

Module NumericFacts.

Lemma fsum_finite (v : vec) (s : R) :
  fsum v = Some s ->
  exists rs, v = map Some rs /\ s = fold_right Rplus 0%R rs.
Proof.
  revert s; induction v as [|x v IH]; intros s H.
  - exists []. simpl in H. injection H as <-. split; reflexivity.
  - simpl in H. destruct x as [r|]; [|discriminate].
    destruct (fsum v) as [t|] eqn:Ht; [|discriminate].
    simpl in H. injection H as <-.
    destruct (IH t eq_refl) as (rs & -> & ->).
    exists (r :: rs). split; reflexivity.
Qed.

Lemma sumsq_finite (v : vec) (s : R) :
  sumsq v = Some s ->
  exists rs, v = map Some rs /\
             s = fold_right Rplus 0%R (map (fun r => (r * r)%R) rs).
Proof.
  unfold sumsq. revert s; induction v as [|x v IH]; intros s H.
  - exists []. simpl in H. injection H as <-. split; reflexivity.
  - simpl in H. destruct x as [r|]; [|discriminate].
    simpl in H.
    destruct (fsum (map (fun x => fmul x x) v)) as [t|] eqn:Ht; [|discriminate].
    simpl in H. injection H as <-.
    destruct (IH t eq_refl) as (rs & -> & ->).
    exists (r :: rs). split; reflexivity.
Qed.

Lemma sumsq_map_Some (rs : list R) :
  sumsq (map Some rs) = Some (fold_right Rplus 0%R (map (fun r => (r * r)%R) rs)).
Proof.
  unfold sumsq. induction rs as [|r rs IH]; simpl; [reflexivity|].
  rewrite IH. reflexivity.
Qed.

Lemma sum_squares_nonneg (rs : list R) :
  (0 <= fold_right Rplus 0 (map (fun r => r * r) rs))%R.
Proof.
  induction rs as [|r rs IH]; simpl; [lra|]. nra.
Qed.

Lemma sum_squares_scaled (rs : list R) (n : R) :
  n <> 0%R ->
  fold_right Rplus 0%R (map (fun r => (r * r)%R) (map (fun r => (r / n)%R) rs)) =
  (fold_right Rplus 0 (map (fun r => r * r) rs) / (n * n))%R.
Proof.
  intros Hn. induction rs as [|r rs IH]; simpl.
  - unfold Rdiv. rewrite Rmult_0_l. reflexivity.
  - rewrite IH. field. exact Hn.
Qed.

Lemma length_l2_normalize (v : vec) : length (l2_normalize v) = length v.
Proof. unfold l2_normalize. apply length_map. Qed.

(** Normalizing a vector of finite non-zero norm gives a vector of norm 1. *)
Lemma l2_normalize_unit (v : vec) (n : R) :
  vnorm v = Some n -> n <> 0%R -> vnorm (l2_normalize v) = Some 1%R.
Proof.
  intros Hv Hn. unfold l2_normalize. rewrite Hv.
  unfold vnorm in Hv.
  destruct (sumsq v) as [s|] eqn:Hs; [|discriminate].
  simpl in Hv. injection Hv as Hn'.
  destruct (sumsq_finite _ _ Hs) as (rs & -> & Hsum).
  assert (Hs0 : (0 <= s)%R) by (rewrite Hsum; apply sum_squares_nonneg).
  assert (Hnn : (n * n)%R = s) by (rewrite <- Hn'; apply sqrt_sqrt; exact Hs0).
  rewrite map_map.
  replace (map (fun x : R => fdiv_norm (Some x) (Some n)) rs)
    with (map Some (map (fun r => (r / n)%R) rs)).
  2:{ rewrite map_map. apply map_ext. intros r. unfold fdiv_norm.
      destruct (Req_EM_T n 0); [contradiction|reflexivity]. }
  unfold vnorm. rewrite sumsq_map_Some. simpl.
  rewrite sum_squares_scaled by exact Hn.
  rewrite <- Hsum, Hnn.
  replace (s / s)%R with 1%R.
  - rewrite sqrt_1. reflexivity.
  - field. intros ->. apply Hn. nra.
Qed.

Lemma unit_norm_exact (tol : R) (v : vec) :
  (0 <= tol)%R -> vnorm v = Some 1%R -> unit_norm_within tol v.
Proof.
  intros Ht Hv. exists 1%R. split; [exact Hv|].
  replace (1 - 1)%R with 0%R by ring. rewrite Rabs_R0. exact Ht.
Qed.

Lemma sumsq_zeros (n : nat) : sumsq (repeat (Some 0%R) n) = Some 0%R.
Proof.
  unfold sumsq. induction n as [|n IH]; simpl; [reflexivity|].
  rewrite IH. simpl. f_equal. ring.
Qed.

Lemma vnorm_zeros (n : nat) : vnorm (repeat (Some 0%R) n) = Some 0%R.
Proof.
  unfold vnorm. rewrite sumsq_zeros. simpl. rewrite sqrt_0. reflexivity.
Qed.

(** The zero vector normalizes to NaN in every component. *)
Lemma l2_normalize_zeros (n : nat) :
  l2_normalize (repeat (Some 0%R) n) = repeat NaN n.
Proof.
  unfold l2_normalize. rewrite vnorm_zeros, map_repeat.
  f_equal. unfold fdiv_norm.
  destruct (Req_EM_T 0 0) as [_|H]; [reflexivity|exfalso; apply H; reflexivity].
Qed.

Lemma vnorm_nan_head (v : vec) : vnorm (NaN :: v) = NaN.
Proof. reflexivity. Qed.

(** A vector of finite norm 0 has only zero components, so each of its
    quotients by the norm is 0/0. *)
Lemma vnorm_zero_components (v : vec) :
  vnorm v = Some 0%R -> Forall (fun x => x = Some 0%R) v.
Proof.
  unfold vnorm. intros H.
  destruct (sumsq v) as [s|] eqn:Hs; [|discriminate].
  simpl in H. injection H as H.
  destruct (sumsq_finite _ _ Hs) as (rs & -> & Hsum).
  assert (Hs0 : (0 <= s)%R) by (rewrite Hsum; apply sum_squares_nonneg).
  assert (s = 0)%R by (apply sqrt_eq_0; assumption).
  subst s. clear Hs Hs0 H.
  induction rs as [|r rs IH]; simpl; constructor.
  - simpl in H0. pose proof (sum_squares_nonneg rs). f_equal. nra.
  - apply IH. simpl in H0. pose proof (sum_squares_nonneg rs). nra.
Qed.


Lemma float64_min_normal_pos : (0 < float64_min_normal)%R.
Proof.
  unfold float64_min_normal. apply Rinv_0_lt_compat.
  pose proof (pow_R1_Rle 2 1022). lra.
Qed.

(** In the range, the norm is finite and not zero. *)
Lemma float64_range_norm (v : vec) :
  float64_range v -> exists n, vnorm v = Some n /\ n <> 0%R.
Proof.
  intros (s & Hs & Hlo & _). exists (sqrt s). unfold vnorm. rewrite Hs. split; [reflexivity|].
  pose proof float64_min_normal_pos as Hpos.
  assert (Hlt : (0 < sqrt s)%R) by (apply sqrt_lt_R0; lra). lra.
Qed.

End NumericFacts.

(* ------------------------------------------------------------------ *)
(** ** The index: [add_person] *)

Module AddFacts.
Import Faiss FAISSService NumericFacts Samples.

Lemma ensure_index_some (self : Service) :
  exists ix, index (ensure_index self) = Some ix /\
             xb ix = vectors self.
Proof.
  unfold ensure_index, vectors. destruct (index self) as [ix|] eqn:E.
  - exists ix. rewrite E. split; reflexivity.
  - eexists. simpl. split; reflexivity.
Qed.

Lemma ensure_index_dimension (self : Service) :
  dimension (ensure_index self) = dimension self.
Proof. unfold ensure_index. destruct (index self); reflexivity. Qed.

Lemma ensure_index_vectors (self : Service) :
  vectors (ensure_index self) = vectors self.
Proof. unfold ensure_index, vectors. destruct (index self) eqn:E; simpl; [rewrite E|]; reflexivity. Qed.

Lemma ensure_index_consistent (self : Service) :
  consistent self -> person_ids (ensure_index self) = person_ids self.
Proof.
  unfold consistent, ensure_index, vectors.
  destruct (index self); [reflexivity|]. simpl.
  intros H. symmetry in H. apply length_zero_iff_nil in H. now rewrite H.
Qed.

(** [add_person] returns false without touching the rows, the labels or
    the artifacts (an index is created when there was none). *)
Lemma add_person_false (person_id : Z) (e : vec) (w w' : World) :
  add_person person_id e w = (false, w') ->
  w' = mkWorld (ensure_index (svc w)) (disk w).
Proof.
  unfold add_person.
  destruct (negb _); [intros H; now injection H as <-|].
  destruct (index (ensure_index (svc w))); [|intros H; now injection H as <-].
  destruct (Faiss.add _ _); [|intros H; now injection H as <-].
  destruct (Nat.eqb _ 0); discriminate.
Qed.

(** What a successful [add_person] did. *)
Lemma add_person_true (person_id : Z) (e : vec) (w w' : World) :
  add_person person_id e w = (true, w') ->
  exists ix,
    index (ensure_index (svc w)) = Some ix /\
    length e = dimension (svc w) /\
    d ix = dimension (svc w) /\
    svc w' = appended (ensure_index (svc w))
               (mkIndex (d ix) (xb ix ++ [l2_normalize e])) person_id /\
    (if Nat.eqb (length (person_ids (svc w')) mod 10) 0
     then disk w' = mkDisk (Stored (mkIndex (d ix) (xb ix ++ [l2_normalize e])))
                           (Stored (person_ids (svc w')))
                           (S (saves (disk w)))
     else disk w' = disk w).
Proof.
  unfold add_person.
  destruct (Nat.eqb (length e) _) eqn:Hlen; simpl; [|discriminate].
  apply Nat.eqb_eq in Hlen. rewrite ensure_index_dimension in Hlen.
  destruct (index (ensure_index (svc w))) as [ix|] eqn:Hix; [|discriminate].
  unfold Faiss.add. rewrite length_l2_normalize.
  destruct (Nat.eqb (length e) (d ix)) eqn:Hd; [|discriminate].
  apply Nat.eqb_eq in Hd.
  destruct (Nat.eqb _ 0) eqn:Hmod; intros H; injection H as <-;
    exists ix; simpl; rewrite Hmod; repeat split; congruence.
Qed.

(** [add_person] accepts exactly the embeddings whose length is both the
    configured dimension and the dimension of the live index. *)
Lemma add_person_accepts (person_id : Z) (e : vec) (w : World) (ix : IndexFlatIP) :
  index (ensure_index (svc w)) = Some ix ->
  length e = dimension (svc w) ->
  d ix = dimension (svc w) ->
  fst (add_person person_id e w) = true.
Proof.
  intros Hix Hlen Hd. unfold add_person.
  rewrite ensure_index_dimension, Hlen, Nat.eqb_refl. simpl.
  rewrite Hix. unfold Faiss.add.
  rewrite length_l2_normalize, Hlen, Hd, Nat.eqb_refl.
  destruct (Nat.eqb _ 0); reflexivity.
Qed.

Lemma add_person_true_vectors (person_id : Z) (e : vec) (w w' : World) :
  add_person person_id e w = (true, w') ->
  vectors (svc w') = vectors (svc w) ++ [l2_normalize e].
Proof.
  intros H. destruct (add_person_true _ _ _ _ H) as (ix & Hix & _ & _ & Hs & _).
  rewrite Hs. unfold vectors at 1. simpl.
  destruct (ensure_index_some (svc w)) as (ix0 & Hix0 & Hxb).
  rewrite Hix in Hix0. injection Hix0 as <-. now rewrite Hxb.
Qed.


Lemma sumsq_axis (c : R) : sumsq (axis_embedding c) = Some (c * c)%R.
Proof.
  unfold axis_embedding.
  change (sumsq (Some c :: repeat (Some 0%R) 511))
    with (fadd (fmul (Some c) (Some c)) (sumsq (repeat (Some 0%R) 511))).
  rewrite sumsq_zeros. simpl. f_equal. ring.
Qed.


(** Outside the range the quotient is not a unit vector.  In binary64 the
    square of 2^600 overflows: the norm is [inf], every quotient is 0, and
    the row that [add_person] stores is the zero row. *)
Lemma float64_overflow_gives_zero_row :
  Float64.norm Float64.huge_embedding = PrimFloat.infinity /\
  Float64.normalize Float64.huge_embedding = Float64.zero_row.
Proof. split; vm_compute; reflexivity. Qed.

(** The square of 2^-600 underflows: the norm is 0, and the quotients are
    [inf] and NaN. *)
Lemma float64_underflow_gives_inf_and_nan :
  Float64.norm Float64.tiny_embedding = PrimFloat.zero /\
  Float64.normalize Float64.tiny_embedding = Float64.inf_nan_row.
Proof. split; vm_compute; reflexivity. Qed.

(** In the range both evaluations agree: the embedding (3, 4, 0, 0) has
    norm 5 and is stored as (0.6, 0.8, 0, 0) up to the last bit. *)
Lemma float64_in_range_agrees :
  Float64.norm Float64.plain_embedding = Float64.five /\
  Float64.normalize Float64.plain_embedding = Float64.plain_row.
Proof. split; vm_compute; reflexivity. Qed.


Lemma vnorm_axis (c : R) : (0 <= c)%R -> vnorm (axis_embedding c) = Some c.
Proof.
  intros Hc. unfold vnorm. rewrite sumsq_axis. simpl. f_equal.
  apply sqrt_square. exact Hc.
Qed.


End AddFacts.

(* ------------------------------------------------------------------ *)
(** ** The index: update, remove, load and rebuild *)

Module LifecycleFacts.
Import Faiss FAISSService NumericFacts Samples AddFacts.

Lemma existsb_absent (person_id : Z) (ids : list Z) :
  ~ In person_id ids -> existsb (Z.eqb person_id) ids = false.
Proof.
  intros H. destruct (existsb (Z.eqb person_id) ids) eqn:E; [|reflexivity].
  apply existsb_exists in E. destruct E as (x & Hx & Heq).
  apply Z.eqb_eq in Heq. subst x. contradiction.
Qed.

(** C10: for an id that is not among the labels, [update_person] and
    [remove_person] return false and leave the whole state as it was: the
    rows, the labels and the persisted artifacts are those of before, and no
    rebuild has run. *)
Theorem update_remove_absent_id_unchanged
  (person_id : Z) (new_embedding : vec) (db : db_outcome) (w : World) :
  ~ In person_id (person_ids (svc w)) ->
  update_person person_id new_embedding db w = (false, w) /\
  remove_person person_id db w = (false, w).
Proof.
  intros H. unfold update_person, remove_person.
  rewrite (existsb_absent _ _ H). split; reflexivity.
Qed.

Lemma update_remove_absent_id_unchanged_witness :
  update_person 9 (axis_embedding 1) QueryFails one_person_world
    = (false, one_person_world) /\
  remove_person 9 QueryFails one_person_world = (false, one_person_world).
Proof.
  apply update_remove_absent_id_unchanged.
  simpl. intros [H|[]]. discriminate H.
Defined.

(** C3, as stated, fails: two stored rows and one label on disk are loaded
    as they are; the service does not fall back to an empty index. *)
Lemma initialize_loads_mismatched_artifacts :
  let w' := initialize (mkWorld init mismatched_disk) in
  length (vectors (svc w')) = 2%nat /\
  person_ids (svc w') = [7%Z] /\
  index (svc w') <> Some (Faiss.new 512).
Proof.
  simpl. repeat split. discriminate.
Qed.

(** C3, amended: when either artifact is missing, [initialize] creates an
    empty index; when both exist and either cannot be read, the load fails as
    a whole and [initialize] falls back to an empty index, also when the
    vector blob had been read already; when both can be read they are taken
    as they are, the rows from one and the labels from the other, with no
    comparison of their lengths. *)
Theorem initialize_load_cases (w : World) :
  let w' := initialize w in
  disk w' = disk w /\
  dimension (svc w') = dimension (svc w) /\
  match index_file (disk w), mapping_file (disk w) with
  | Stored ix, Stored ids =>
      index (svc w') = Some ix /\ person_ids (svc w') = ids /\
      is_initialized (svc w') = true
  | Missing, _ | _, Missing =>
      index (svc w') = Some (Faiss.new (dimension (svc w))) /\
      person_ids (svc w') = [] /\ is_initialized (svc w') = true
  | _, _ =>
      index (svc w') = Some (Faiss.new (dimension (svc w))) /\
      person_ids (svc w') = [] /\
      is_initialized (svc w') = is_initialized (svc w)
  end.
Proof.
  unfold initialize, load_index.
  destruct (index_file (disk w)) as [| |ix]; destruct (mapping_file (disk w)) as [| |ids];
    simpl; repeat split; reflexivity.
Qed.

(** *** Rebuild *)

Lemma world_eta (w : World) : mkWorld (svc w) (disk w) = w.
Proof. destruct w; reflexivity. Qed.

Lemma ensure_index_live (dim : nat) (w : World) :
  live dim w -> ensure_index (svc w) = svc w.
Proof. intros (ix & H & _). unfold ensure_index. now rewrite H. Qed.

Lemma live_vectors (dim : nat) (w : World) (ix : IndexFlatIP) :
  index (svc w) = Some ix -> vectors (svc w) = xb ix.
Proof. intros H. unfold vectors. now rewrite H. Qed.

Lemma add_person_live (dim : nat) (person_id : Z) (e : vec) (w : World) :
  live dim w ->
  let w' := snd (add_person person_id e w) in
  fst (add_person person_id e w) = Nat.eqb (length e) dim /\
  live dim w' /\
  person_ids (svc w') =
    person_ids (svc w) ++ (if Nat.eqb (length e) dim then [person_id] else []) /\
  vectors (svc w') =
    vectors (svc w) ++ (if Nat.eqb (length e) dim then [l2_normalize e] else []).
Proof.
  intros Hl. pose proof Hl as (ix & Hix & Hd & Hdim).
  pose proof (ensure_index_live _ _ Hl) as Hens.
  destruct (Nat.eqb (length e) dim) eqn:Hlen.
  - apply Nat.eqb_eq in Hlen.
    assert (Hok : fst (add_person person_id e w) = true).
    { apply add_person_accepts with (ix := ix); [rewrite Hens|..]; congruence. }
    destruct (add_person person_id e w) as [b w'] eqn:E. simpl in Hok. subst b.
    simpl. split; [reflexivity|].
    pose proof (add_person_true_vectors _ _ _ _ E) as Hv.
    destruct (add_person_true _ _ _ _ E) as (ix' & Hix' & _ & _ & Hs & _).
    rewrite Hens in Hix', Hs. rewrite Hix in Hix'. injection Hix' as <-.
    repeat split.
    + exists (mkIndex (d ix) (xb ix ++ [l2_normalize e])).
      rewrite Hs. simpl. repeat split; assumption.
    + rewrite Hs. reflexivity.
    + exact Hv.
  - destruct (add_person person_id e w) as [b w'] eqn:E.
    assert (b = false).
    { unfold add_person in E. rewrite Hens, Hdim, Hlen in E. simpl in E.
      now injection E as <- _. }
    subst b. apply add_person_false in E. rewrite Hens, world_eta in E. subst w'.
    simpl. rewrite !app_nil_r. repeat split. exact Hl.
Qed.

Lemma rebuild_step_live (dim : nat) (w : World) (person : person_row) :
  live dim w ->
  live dim (rebuild_step w person) /\
  person_ids (svc (rebuild_step w person)) =
    person_ids (svc w) ++ map id (filter (indexable dim) [person]) /\
  vectors (svc (rebuild_step w person)) =
    vectors (svc w) ++ map stored_row (filter (indexable dim) [person]).
Proof.
  intros Hl. unfold rebuild_step, indexable, stored_row. simpl.
  destruct (embedding_blob person) as [e|] eqn:Hb.
  - destruct (add_person_live dim (id person) e w Hl) as (_ & Hl' & Hids & Hv).
    rewrite Hids, Hv.
    destruct (Nat.eqb (length e) dim); simpl; rewrite ?Hb; repeat split; assumption.
  - simpl. rewrite !app_nil_r. repeat split. exact Hl.
Qed.

Lemma rebuild_loop_live (dim : nat) (persons : list person_row) (w : World) :
  live dim w ->
  let w' := fold_left rebuild_step persons w in
  live dim w' /\
  person_ids (svc w') =
    person_ids (svc w) ++ map id (filter (indexable dim) persons) /\
  vectors (svc w') =
    vectors (svc w) ++ map stored_row (filter (indexable dim) persons).
Proof.
  revert w. induction persons as [|p persons IH]; intros w Hl; simpl.
  - rewrite !app_nil_r. repeat split. exact Hl.
  - destruct (rebuild_step_live dim w p Hl) as (Hl1 & Hids1 & Hv1).
    destruct (IH _ Hl1) as (Hl2 & Hids2 & Hv2).
    split; [exact Hl2|].
    rewrite Hids2, Hv2, Hids1, Hv1. simpl.
    destruct (indexable dim p); simpl; rewrite <- ?app_assoc, ?app_nil_r; split; reflexivity.
Qed.

Lemma create_index_live (w : World) :
  live (dimension (svc w)) (mkWorld (create_index (svc w)) (disk w)).
Proof. eexists. simpl. repeat split. Qed.


(** The state a rebuild returns with. *)
Lemma rebuild_returns (persons : list person_row) (w : World) :
  let dim := dimension (svc w) in
  let w' := snd (rebuild_from_database (ActivePersons persons) w) in
  observable w' =
    (map stored_row (filter (indexable dim) persons),
     map id (filter (indexable dim) persons)) /\
  dimension (svc w') = dim /\
  index_file (disk w') = Stored (mkIndex dim (vectors (svc w'))) /\
  mapping_file (disk w') = Stored (person_ids (svc w')).
Proof.
  intros dim w'. subst w'. unfold rebuild_from_database.
  set (emptied := mkWorld (create_index (svc w)) (disk w)).
  pose proof (create_index_live w) as Hl. fold emptied in Hl. fold dim in Hl.
  destruct (rebuild_loop_live dim persons emptied Hl) as (Hl' & Hids & Hv).
  destruct Hl' as (ix & Hix & Hd & Hdim).
  assert (Hsave : save_index (fold_left rebuild_step persons emptied) =
            mkWorld (svc (fold_left rebuild_step persons emptied))
              (mkDisk (Stored ix)
                 (Stored (person_ids (svc (fold_left rebuild_step persons emptied))))
                 (S (saves (disk (fold_left rebuild_step persons emptied)))))).
  { unfold save_index. rewrite Hix. reflexivity. }
  cbn [snd]. rewrite Hsave. unfold observable. cbn [svc disk index_file mapping_file].
  rewrite Hids, Hv. split; [reflexivity|]. split; [exact Hdim|]. split; [|reflexivity].
  f_equal. rewrite <- Hv, (live_vectors dim _ ix Hix).
  destruct ix; simpl in *; congruence.
Qed.



End LifecycleFacts.

(* ------------------------------------------------------------------ *)
(** ** Writes that fail: what does not depend on them *)

Module WriteFacts.
Import Faiss FAISSService NumericFacts Samples AddFacts LifecycleFacts.

Lemma save_index_svc (w : World) : svc (save_index w) = svc w.
Proof. unfold save_index. destruct (index (svc w)); reflexivity. Qed.

Lemma save_index_io_svc (e : Env) : svc (world (save_index_io e)) = svc (world e).
Proof. unfold save_index_io. destruct (index (svc (world e))); reflexivity. Qed.

(** The service object does not depend on the files or on the fate of the
    writes: [add_person] and [add_person_io], started on one service
    object, return the same boolean, leave the same service object and run
    [save_index] in the same calls. *)
Lemma add_person_io_sim (person_id : Z) (v : vec) (w : World) (e : Env) :
  svc w = svc (world e) ->
  fst (add_person person_id v w) = fst (add_person_io person_id v e) /\
  svc (snd (add_person person_id v w)) = svc (world (snd (add_person_io person_id v e))) /\
  add_event_of person_id v w = add_event_of_io person_id v e.
Proof.
  intros H. unfold add_event_of, add_event_of_io, add_person, add_person_io.
  cbv zeta. rewrite H.
  destruct (negb _); cbn [fst snd with_world world svc attempts];
    [rewrite !Nat.ltb_irrefl; repeat split|].
  destruct (index (ensure_index (svc (world e)))) as [ix|] eqn:Eix;
    cbn [fst snd with_world world svc attempts];
    [|rewrite !Nat.ltb_irrefl; repeat split].
  destruct (Faiss.add ix (l2_normalize v)) as [ix'|];
    cbn [fst snd with_world world svc attempts];
    [|rewrite !Nat.ltb_irrefl; repeat split].
  cbn [appended person_ids].
  destruct (Nat.eqb _ 0); cbn [fst snd world svc attempts];
    [|rewrite !Nat.ltb_irrefl; repeat split].
  unfold save_index, save_index_io.
  cbn [svc world index appended disk saves attempts fst snd].
  assert (H1 : forall n, Nat.ltb n (S n) = true) by (intros n; apply Nat.ltb_lt; lia).
  rewrite !H1. repeat split.
Qed.

(** When every write completes, the two agree on the files as well. *)
Lemma save_index_io_completes (e : Env) :
  Forall (fun o => o = Completes) (writes e) ->
  world (save_index_io e) = save_index (world e) /\
  Forall (fun o => o = Completes) (writes (save_index_io e)).
Proof.
  intros Hw. unfold save_index_io, save_index.
  destruct (index (svc (world e))) as [ix|]; [|split; [reflexivity|exact Hw]].
  cbn [world writes]. destruct (writes e) as [|o rest]; cbn [hd tl].
  - split; [reflexivity|constructor].
  - apply Forall_cons_iff in Hw. destruct Hw as [-> Hrest]. split; [reflexivity|exact Hrest].
Qed.

Lemma add_person_io_completes (person_id : Z) (v : vec) (e : Env) :
  Forall (fun o => o = Completes) (writes e) ->
  world (snd (add_person_io person_id v e)) = snd (add_person person_id v (world e)) /\
  Forall (fun o => o = Completes) (writes (snd (add_person_io person_id v e))).
Proof.
  intros Hw. unfold add_person, add_person_io. cbv zeta.
  destruct (negb _); cbn [fst snd with_world world writes]; [split; [reflexivity|exact Hw]|].
  destruct (index (ensure_index (svc (world e)))) as [ix|];
    cbn [fst snd with_world world writes]; [|split; [reflexivity|exact Hw]].
  destruct (Faiss.add ix (l2_normalize v)) as [ix'|];
    cbn [fst snd with_world world writes]; [|split; [reflexivity|exact Hw]].
  destruct (Nat.eqb _ 0); cbn [fst snd world writes]; [|split; [reflexivity|exact Hw]].
  apply (save_index_io_completes
           (mkEnv (mkWorld (appended (ensure_index (svc (world e))) ix' person_id)
                           (disk (world e))) (writes e) (attempts e))).
  exact Hw.
Qed.

Lemma add_all_io_completes (reqs : list (Z * vec)) (e : Env) :
  Forall (fun o => o = Completes) (writes e) ->
  world (snd (add_all_io reqs e)) = snd (add_all reqs (world e)).
Proof.
  revert e. induction reqs as [|[pid v] reqs IH]; intros e Hw; [reflexivity|].
  cbn [add_all add_all_io snd].
  destruct (add_person_io_completes pid v e Hw) as [Hworld Hw'].
  rewrite <- Hworld. apply IH. exact Hw'.
Qed.

(** The events of a sequence of adds do not depend on the files either. *)
Lemma add_all_io_sim (reqs : list (Z * vec)) (w : World) (e : Env) :
  svc w = svc (world e) ->
  fst (add_all reqs w) = fst (add_all_io reqs e) /\
  svc (snd (add_all reqs w)) = svc (world (snd (add_all_io reqs e))).
Proof.
  revert w e. induction reqs as [|[pid v] reqs IH]; intros w e H.
  - split; [reflexivity|exact H].
  - cbn [add_all add_all_io fst snd].
    destruct (add_person_io_sim pid v w e H) as (_ & Hsvc & Hev).
    destruct (IH _ _ Hsvc) as [Hevs Hfinal].
    rewrite Hev, Hevs. split; [reflexivity|exact Hfinal].
Qed.

Lemma rebuild_loop_io_completes (persons : list person_row) (e : Env) :
  Forall (fun o => o = Completes) (writes e) ->
  world (fold_left rebuild_step_io persons e) = fold_left rebuild_step persons (world e) /\
  Forall (fun o => o = Completes) (writes (fold_left rebuild_step_io persons e)).
Proof.
  revert e. induction persons as [|person persons IH]; intros e Hw;
    [split; [reflexivity|exact Hw]|].
  cbn [fold_left]. unfold rebuild_step_io at 2 4, rebuild_step at 2.
  destruct (embedding_blob person) as [v|].
  - destruct (add_person_io_completes (id person) v e Hw) as [Hworld Hw'].
    rewrite <- Hworld. apply IH. exact Hw'.
  - apply IH. exact Hw.
Qed.

Lemma rebuild_io_completes (db : db_outcome) (e : Env) :
  Forall (fun o => o = Completes) (writes e) ->
  fst (rebuild_from_database_io db e) = fst (rebuild_from_database db (world e)) /\
  world (snd (rebuild_from_database_io db e)) = snd (rebuild_from_database db (world e)) /\
  Forall (fun o => o = Completes) (writes (snd (rebuild_from_database_io db e))).
Proof.
  intros Hw. unfold rebuild_from_database_io, rebuild_from_database.
  destruct db as [|persons]; cbn [fst snd].
  - repeat split. exact Hw.
  - split; [reflexivity|].
    destruct (rebuild_loop_io_completes persons
                (with_world (mkWorld (create_index (svc (world e))) (disk (world e))) e) Hw)
      as [Hworld Hw'].
    destruct (save_index_io_completes _ Hw') as [Hsave Hw2].
    rewrite Hsave, Hworld. split; [reflexivity|exact Hw2].
Qed.

Lemma step_io_completes (o : op) (e : Env) :
  Forall (fun o => o = Completes) (writes e) ->
  world (step_io o e) = step o (world e) /\
  Forall (fun o => o = Completes) (writes (step_io o e)).
Proof.
  intros Hw. destruct o as [pid v|q k t|db| | | |pid v db|pid db]; cbn [step_io step].
  - apply add_person_io_completes. exact Hw.
  - split; [reflexivity|exact Hw].
  - destruct (rebuild_io_completes db e Hw) as (_ & H1 & H2). split; assumption.
  - apply save_index_io_completes. exact Hw.
  - split; [reflexivity|exact Hw].
  - unfold clear_index_io, clear_index.
    apply (save_index_io_completes
             (with_world (mkWorld (create_index (svc (world e))) (disk (world e))) e)).
    exact Hw.
  - unfold update_person_io, update_person. destruct (existsb _ _); [|split; [reflexivity|exact Hw]].
    destruct (rebuild_io_completes db e Hw) as (H0 & H1 & H2).
    destruct (rebuild_from_database_io db e) as [[|] e'];
      destruct (rebuild_from_database db (world e)) as [[|] w'];
      cbn [fst snd] in *; try discriminate; split; assumption.
  - unfold remove_person_io, remove_person. destruct (existsb _ _); [|split; [reflexivity|exact Hw]].
    destruct (rebuild_io_completes db e Hw) as (H0 & H1 & H2).
    destruct (rebuild_from_database_io db e) as [[|] e'];
      destruct (rebuild_from_database db (world e)) as [[|] w'];
      cbn [fst snd] in *; try discriminate; split; assumption.
Qed.

(** The operations over [save_index] are the operations over
    [save_index_io] on a file system on which every write completes. *)
Lemma run_io_completes (ops : list op) (e : Env) :
  Forall (fun o => o = Completes) (writes e) ->
  world (run_io ops e) = run ops (world e).
Proof.
  unfold run_io, run. revert e. induction ops as [|o ops IH]; intros e Hw; [reflexivity|].
  cbn [fold_left]. destruct (step_io_completes o e Hw) as [Hworld Hw'].
  rewrite <- Hworld. apply IH. exact Hw'.
Qed.

(** What [add_person_io] leaves of the environment: the files, the pending
    outcomes and the counter are untouched, or [save_index_io] ran on the
    new service object, which then holds a multiple of ten labels. *)
Lemma add_person_io_shape (person_id : Z) (v : vec) (e : Env) :
  let r := add_person_io person_id v e in
  let e0 := mkEnv (mkWorld (svc (world (snd r))) (disk (world e)))
                  (writes e) (attempts e) in
  snd r = e0 \/ snd r = save_index_io e0.
Proof.
  unfold add_person_io. cbv zeta.
  destruct (negb _); cbn [fst snd with_world world svc]; [now left|].
  destruct (index (ensure_index (svc (world e)))) as [ix|];
    cbn [fst snd with_world world svc]; [|now left].
  destruct (Faiss.add ix (l2_normalize v)) as [ix'|];
    cbn [fst snd with_world world svc]; [|now left].
  destruct (Nat.eqb _ 0); cbn [fst snd world svc]; [|now left].
  right. rewrite save_index_io_svc. reflexivity.
Qed.

End WriteFacts.

(* ------------------------------------------------------------------ *)
(** ** The index: parallel lengths and autosave *)

Module InvariantFacts.
Import Faiss FAISSService NumericFacts Samples AddFacts LifecycleFacts WriteFacts.

Lemma consistent_no_index (self : Service) :
  consistent self -> index self = None -> person_ids self = [].
Proof.
  unfold consistent, vectors. intros H E. rewrite E in H. simpl in H.
  symmetry in H. now apply length_zero_iff_nil in H.
Qed.

Lemma add_person_consistent (person_id : Z) (e : vec) (w : World) :
  consistent (svc w) -> disk_consistent (disk w) ->
  consistent (svc (snd (add_person person_id e w))) /\
  disk_consistent (disk (snd (add_person person_id e w))).
Proof.
  intros Hc Hd.
  destruct (add_person person_id e w) as [[|] w'] eqn:E; simpl.
  - pose proof (add_person_true_vectors _ _ _ _ E) as Hv.
    destruct (add_person_true _ _ _ _ E) as (ix & Hix & _ & _ & Hs & Hdisk).
    assert (Hids : person_ids (svc w') = person_ids (svc w) ++ [person_id]).
    { rewrite Hs. simpl. now rewrite ensure_index_consistent. }
    assert (Hc' : consistent (svc w')).
    { unfold consistent. rewrite Hv, Hids, !length_app. simpl. unfold consistent in Hc. lia. }
    split; [exact Hc'|].
    destruct (Nat.eqb (length (person_ids (svc w')) mod 10) 0).
    + rewrite Hdisk. unfold disk_consistent, ntotal. simpl.
      destruct (ensure_index_some (svc w)) as (ix0 & Hix0 & Hxb).
      rewrite Hix in Hix0. injection Hix0 as <-.
      rewrite Hxb, <- Hv. exact Hc'.
    + now rewrite Hdisk.
  - apply add_person_false in E. subst w'. simpl. split; [|exact Hd].
    unfold consistent. rewrite ensure_index_vectors, ensure_index_consistent; assumption.
Qed.

Lemma save_index_consistent (w : World) :
  consistent (svc w) ->
  disk_consistent (disk w) ->
  consistent (svc (save_index w)) /\ disk_consistent (disk (save_index w)).
Proof.
  intros Hc Hd. unfold save_index.
  destruct (index (svc w)) as [ix|] eqn:E; simpl; [|split; assumption].
  split; [exact Hc|]. unfold disk_consistent, ntotal. simpl.
  unfold consistent, vectors in Hc. now rewrite E in Hc.
Qed.

Lemma rebuild_consistent (db : db_outcome) (w : World) :
  disk_consistent (disk w) ->
  consistent (svc (snd (rebuild_from_database db w))) /\
  disk_consistent (disk (snd (rebuild_from_database db w))).
Proof.
  intros Hd. destruct db as [|persons].
  - simpl. split; [reflexivity|exact Hd].
  - pose proof (rebuild_returns persons w) as H. cbv zeta in H.
    remember (snd (rebuild_from_database (ActivePersons persons) w)) as w' eqn:E.
    clear E. destruct H as (Hobs & _ & Hi & Hm).
    unfold observable in Hobs. injection Hobs as Hv Hids.
    assert (Hc : consistent (svc w')).
    { unfold consistent. rewrite Hv, Hids, !length_map. reflexivity. }
    split; [exact Hc|].
    unfold disk_consistent. rewrite Hi, Hm. unfold ntotal. simpl. exact Hc.
Qed.

Lemma initialize_consistent (w : World) :
  disk_consistent (disk w) ->
  consistent (svc (initialize w)) /\ disk_consistent (disk (initialize w)).
Proof.
  unfold disk_consistent, initialize, load_index.
  destruct (index_file (disk w)) as [| |ix] eqn:Ei;
    destruct (mapping_file (disk w)) as [| |ids] eqn:Em;
    simpl; rewrite ?Ei, ?Em; intros H; split; try reflexivity; try exact H; try exact I.
Qed.

Lemma step_consistent (o : op) (w : World) :
  consistent (svc w) -> disk_consistent (disk w) ->
  consistent (svc (step o w)) /\ disk_consistent (disk (step o w)).
Proof.
  intros Hc Hd. destruct o as [pid e|q k t|db| | | |pid e db|pid db]; cbn [step].
  - apply add_person_consistent; assumption.
  - split; assumption.
  - apply rebuild_consistent; assumption.
  - apply save_index_consistent; assumption.
  - apply initialize_consistent; assumption.
  - unfold clear_index. apply save_index_consistent; simpl; [reflexivity|exact Hd].
  - unfold update_person. destruct (existsb _ _); [|split; assumption].
    pose proof (rebuild_consistent db w Hd) as H.
    destruct (rebuild_from_database db w) as [[|] w']; exact H.
  - unfold remove_person. destruct (existsb _ _); [|split; assumption].
    pose proof (rebuild_consistent db w Hd) as H.
    destruct (rebuild_from_database db w) as [[|] w']; exact H.
Qed.

(** C7, as stated, fails: a load of artifacts that disagree leaves two
    stored rows beside one label. *)
Lemma load_breaks_parallel_lengths :
  consistent (svc (mkWorld init mismatched_disk)) /\
  ~ consistent (svc (step OpLoad (mkWorld init mismatched_disk))).
Proof.
  split; [reflexivity|]. unfold consistent. simpl. discriminate.
Qed.

(** *** With writes that fail *)

Lemma write_artifacts_consistent (o : write_outcome) (ix : IndexFlatIP)
  (ids : list Z) (dk : Disk) :
  leaves_stale_mapping o = false ->
  disk_consistent dk -> ntotal ix = length ids ->
  disk_consistent (write_artifacts o ix ids dk).
Proof.
  intros Ho Hd Hn. unfold disk_consistent in *.
  destruct o as [|[|]|[|]]; cbn [write_artifacts after_failed_write index_file mapping_file];
    try exact Hn; try exact Hd; try exact I.
  discriminate Ho.
Qed.

Lemma save_index_io_consistent (e : Env) :
  consistent (svc (world e)) -> disk_consistent (disk (world e)) ->
  Forall (fun o => leaves_stale_mapping o = false) (writes e) ->
  consistent (svc (world (save_index_io e))) /\
  disk_consistent (disk (world (save_index_io e))) /\
  Forall (fun o => leaves_stale_mapping o = false) (writes (save_index_io e)).
Proof.
  intros Hc Hd Hw. rewrite save_index_io_svc. split; [exact Hc|].
  unfold save_index_io. destruct (index (svc (world e))) as [ix|] eqn:E;
    [|split; assumption].
  cbn [world disk writes].
  assert (Hn : ntotal ix = length (person_ids (svc (world e)))).
  { unfold consistent, vectors in Hc. rewrite E in Hc. exact Hc. }
  destruct (writes e) as [|o rest]; cbn [hd tl].
  - split; [|constructor]. apply write_artifacts_consistent; [reflexivity|exact Hd|exact Hn].
  - apply Forall_cons_iff in Hw. destruct Hw as [Ho Hrest]. split; [|exact Hrest].
    apply write_artifacts_consistent; assumption.
Qed.

(** An add keeps the parallel sequences of the service object in step,
    whatever the files hold and whatever happens to the writes. *)
Lemma add_person_io_memory (person_id : Z) (v : vec) (e : Env) :
  consistent (svc (world e)) ->
  consistent (svc (world (snd (add_person_io person_id v e)))).
Proof.
  intros Hc.
  destruct (add_person_io_sim person_id v
              (mkWorld (svc (world e)) (mkDisk Missing Missing 0)) e eq_refl)
    as (_ & Hsvc & _).
  rewrite <- Hsvc.
  apply (add_person_consistent person_id v
           (mkWorld (svc (world e)) (mkDisk Missing Missing 0))); [exact Hc|exact I].
Qed.

Lemma add_person_io_consistent (person_id : Z) (v : vec) (e : Env) :
  consistent (svc (world e)) -> disk_consistent (disk (world e)) ->
  Forall (fun o => leaves_stale_mapping o = false) (writes e) ->
  consistent (svc (world (snd (add_person_io person_id v e)))) /\
  disk_consistent (disk (world (snd (add_person_io person_id v e)))) /\
  Forall (fun o => leaves_stale_mapping o = false)
         (writes (snd (add_person_io person_id v e))).
Proof.
  intros Hc Hd Hw. pose proof (add_person_io_memory person_id v e Hc) as Hc'.
  destruct (add_person_io_shape person_id v e) as [E|E]; rewrite E.
  - cbn [world svc disk writes]. repeat split; assumption.
  - apply save_index_io_consistent; assumption.
Qed.

Lemma rebuild_loop_io (P : Env -> Prop) :
  (forall person_id v e, P e -> P (snd (add_person_io person_id v e))) ->
  forall persons e, P e -> P (fold_left rebuild_step_io persons e).
Proof.
  intros Hadd persons. induction persons as [|person persons IH]; intros e He; [exact He|].
  cbn [fold_left]. apply IH. unfold rebuild_step_io.
  destruct (embedding_blob person); [apply Hadd|]; exact He.
Qed.

Lemma rebuild_io_memory (db : db_outcome) (e : Env) :
  consistent (svc (world (snd (rebuild_from_database_io db e)))).
Proof.
  unfold rebuild_from_database_io. destruct db as [|persons]; cbn [snd].
  - reflexivity.
  - rewrite save_index_io_svc.
    apply (rebuild_loop_io (fun e => consistent (svc (world e)))).
    + intros pid v e0. apply add_person_io_memory.
    + reflexivity.
Qed.

Lemma rebuild_io_consistent (db : db_outcome) (e : Env) :
  disk_consistent (disk (world e)) ->
  Forall (fun o => leaves_stale_mapping o = false) (writes e) ->
  consistent (svc (world (snd (rebuild_from_database_io db e)))) /\
  disk_consistent (disk (world (snd (rebuild_from_database_io db e)))) /\
  Forall (fun o => leaves_stale_mapping o = false)
         (writes (snd (rebuild_from_database_io db e))).
Proof.
  intros Hd Hw. unfold rebuild_from_database_io. destruct db as [|persons]; cbn [snd].
  - split; [reflexivity|]. split; assumption.
  - set (P := fun e0 : Env =>
                consistent (svc (world e0)) /\ disk_consistent (disk (world e0)) /\
                Forall (fun o => leaves_stale_mapping o = false) (writes e0)).
    assert (HP : P (fold_left rebuild_step_io persons
                      (with_world (mkWorld (create_index (svc (world e))) (disk (world e))) e))).
    { apply (rebuild_loop_io P).
      - intros pid v e0 (H1 & H2 & H3). apply add_person_io_consistent; assumption.
      - split; [reflexivity|]. split; assumption. }
    destruct HP as (H1 & H2 & H3). apply save_index_io_consistent; assumption.
Qed.

Lemma step_io_memory (o : op) (e : Env) :
  is_load o = false ->
  consistent (svc (world e)) -> consistent (svc (world (step_io o e))).
Proof.
  intros Ho Hc. destruct o as [pid v|q k t|db| | | |pid v db|pid db]; cbn [step_io].
  - apply add_person_io_memory. exact Hc.
  - exact Hc.
  - apply rebuild_io_memory.
  - rewrite save_index_io_svc. exact Hc.
  - discriminate Ho.
  - unfold clear_index_io. rewrite save_index_io_svc. reflexivity.
  - unfold update_person_io. destruct (existsb _ _); [|exact Hc].
    pose proof (rebuild_io_memory db e) as H.
    destruct (rebuild_from_database_io db e) as [[|] e']; exact H.
  - unfold remove_person_io. destruct (existsb _ _); [|exact Hc].
    pose proof (rebuild_io_memory db e) as H.
    destruct (rebuild_from_database_io db e) as [[|] e']; exact H.
Qed.

Lemma step_io_consistent (o : op) (e : Env) :
  consistent (svc (world e)) -> disk_consistent (disk (world e)) ->
  Forall (fun o => leaves_stale_mapping o = false) (writes e) ->
  consistent (svc (world (step_io o e))) /\
  disk_consistent (disk (world (step_io o e))) /\
  Forall (fun o => leaves_stale_mapping o = false) (writes (step_io o e)).
Proof.
  intros Hc Hd Hw. destruct o as [pid v|q k t|db| | | |pid v db|pid db]; cbn [step_io].
  - apply add_person_io_consistent; assumption.
  - repeat split; assumption.
  - apply rebuild_io_consistent; assumption.
  - apply save_index_io_consistent; assumption.
  - cbn [with_world world writes].
    destruct (initialize_consistent (world e) Hd) as [H1 H2]. repeat split; assumption.
  - unfold clear_index_io. apply save_index_io_consistent; [reflexivity|exact Hd|exact Hw].
  - unfold update_person_io. destruct (existsb _ _); [|repeat split; assumption].
    pose proof (rebuild_io_consistent db e Hd Hw) as H.
    destruct (rebuild_from_database_io db e) as [[|] e']; exact H.
  - unfold remove_person_io. destruct (existsb _ _); [|repeat split; assumption].
    pose proof (rebuild_io_consistent db e Hd Hw) as H.
    destruct (rebuild_from_database_io db e) as [[|] e']; exact H.
Qed.

(** A state that violates the equality, reached by the operations of the
    service from a state in which everything agrees.  The tenth add saves;
    the index file is written, the mapping file cannot be opened, and
    [save_index] swallows the exception: the add returns true and the
    artifacts disagree.  The restart then loads ten rows beside one
    label. *)
Lemma stale_mapping_breaks_parallel_lengths :
  let adds := map (fun r => OpAdd (fst r) (snd r)) (enroll_requests 8 9) in
  consistent (svc (world stale_mapping_env)) /\
  disk_consistent (disk (world stale_mapping_env)) /\
  consistent (svc (world (run_io adds stale_mapping_env))) /\
  ~ disk_consistent (disk (world (run_io adds stale_mapping_env))) /\
  ~ consistent (svc (world (run_io (adds ++ [OpLoad]) stale_mapping_env))).
Proof.
  cbv zeta. split; [reflexivity|]. split; [reflexivity|].
  split; [vm_compute; reflexivity|].
  split; [vm_compute; discriminate|]. vm_compute. discriminate.
Qed.

(** C7, amended.  Every operation other than the load of [initialize]
    (add, search, rebuild, persist, clear, update, remove) leaves the number
    of stored rows equal to the number of labels, whatever happens to the
    writes.  The load compares no lengths: it keeps the equality when the
    artifacts agree, and the artifacts keep agreeing as long as no save
    stops between its two writes with the old mapping file left in place. *)
Theorem operations_keep_parallel_lengths (ops : list op) (e : Env) :
  consistent (svc (world e)) ->
  (Forall (fun o => is_load o = false) ops ->
   consistent (svc (world (run_io ops e)))) /\
  (disk_consistent (disk (world e)) ->
   Forall (fun o => leaves_stale_mapping o = false) (writes e) ->
   consistent (svc (world (run_io ops e))) /\
   disk_consistent (disk (world (run_io ops e)))).
Proof.
  intros Hc. split.
  - intros Hops. unfold run_io. revert e Hc.
    induction Hops as [|o ops Ho _ IH]; intros e Hc; [exact Hc|].
    cbn [fold_left]. apply IH. apply step_io_memory; assumption.
  - intros Hd Hw. unfold run_io. revert e Hc Hd Hw.
    induction ops as [|o ops IH]; intros e Hc Hd Hw; [split; assumption|].
    cbn [fold_left]. destruct (step_io_consistent o e Hc Hd Hw) as (Hc' & Hd' & Hw').
    apply IH; assumption.
Qed.

(** The amended C7 on a fresh service: without a load, on a file system
    that leaves a stale mapping file behind; and with loads, on one whose
    failed writes leave nothing that can be read. *)
Lemma operations_keep_parallel_lengths_witness :
  let quiet := [OpAdd 1 (axis_embedding 5); OpPersist; OpRebuild QueryFails;
                OpAdd 2 zero_embedding; OpPersist; OpClear] in
  let ops := [OpLoad; OpAdd 1 (axis_embedding 5); OpPersist; OpLoad;
              OpRebuild QueryFails; OpAdd 2 zero_embedding; OpPersist;
              OpRemove 2 (ActivePersons []); OpLoad; OpClear] in
  consistent (svc (world (run_io quiet
                            (mkEnv fresh_world [MappingWriteFails false] 0)))) /\
  consistent (svc (world (run_io ops
                            (mkEnv fresh_world
                               [IndexWriteFails true; MappingWriteFails true] 0)))) /\
  disk_consistent (disk (world (run_io ops
                                  (mkEnv fresh_world
                                     [IndexWriteFails true; MappingWriteFails true] 0)))).
Proof.
  cbv zeta. split.
  - refine (proj1 (operations_keep_parallel_lengths _
                     (mkEnv fresh_world [MappingWriteFails false] 0) _) _).
    + reflexivity.
    + repeat constructor.
  - refine (proj2 (operations_keep_parallel_lengths _
                     (mkEnv fresh_world [IndexWriteFails true; MappingWriteFails true] 0)
                     _) _ _).
    + reflexivity.
    + exact I.
    + repeat constructor.
Defined.

End InvariantFacts.

(* ------------------------------------------------------------------ *)
(** ** The index: autosave *)

Module AutosaveFacts.
Import Faiss FAISSService NumericFacts Samples AddFacts LifecycleFacts WriteFacts.

Lemma ensure_index_idempotent (self : Service) :
  ensure_index (ensure_index self) = ensure_index self.
Proof. unfold ensure_index. destruct (index self) eqn:E; simpl; [now rewrite E|reflexivity]. Qed.

Lemma add_person_ensure (person_id : Z) (e : vec) (w : World) :
  add_person person_id e (mkWorld (ensure_index (svc w)) (disk w)) =
  add_person person_id e w.
Proof. unfold add_person. simpl. rewrite ensure_index_idempotent. reflexivity. Qed.

Lemma ensure_has_index (w : World) : has_index (mkWorld (ensure_index (svc w)) (disk w)).
Proof.
  unfold has_index. simpl. destruct (ensure_index_some (svc w)) as (ix & H & _).
  rewrite H. discriminate.
Qed.

Lemma has_index_ensure (w : World) :
  has_index w -> mkWorld (ensure_index (svc w)) (disk w) = w.
Proof.
  unfold has_index, ensure_index. intros H.
  destruct (index (svc w)); [apply world_eta|contradiction].
Qed.

(** One call on a state that has an index: a success appends one label and
    saves exactly when the new number of labels is a multiple of 10; a
    failure changes nothing. *)
Lemma add_person_event (person_id : Z) (e : vec) (w : World) :
  has_index w ->
  let w' := snd (add_person person_id e w) in
  let ev := add_event_of person_id e w in
  has_index w' /\
  (ok ev = true ->
     person_ids (svc w') = person_ids (svc w) ++ [person_id] /\
     saved ev = Nat.eqb (S (length (person_ids (svc w))) mod 10) 0 /\
     (saved ev = true -> mapping_file (disk w') = Stored (person_ids (svc w'))) /\
     (saved ev = false -> disk w' = disk w)) /\
  (ok ev = false -> w' = w /\ saved ev = false).
Proof.
  intros Hx w' ev. subst w' ev. unfold add_event_of.
  pose proof (has_index_ensure w Hx) as Hens.
  assert (Hsvc : ensure_index (svc w) = svc w) by exact (f_equal svc Hens).
  destruct (add_person person_id e w) as [[|] w'] eqn:E; cbn [fst snd ok saved].
  - destruct (add_person_true _ _ _ _ E) as (ix & Hix & _ & _ & Hs & Hdisk).
    rewrite Hsvc in Hs.
    assert (Hids : person_ids (svc w') = person_ids (svc w) ++ [person_id])
      by (rewrite Hs; reflexivity).
    split; [unfold has_index; rewrite Hs; discriminate|].
    split; [|intros Hf; discriminate Hf]. intros _.
    split; [exact Hids|].
    rewrite Hids, length_app, Nat.add_1_r in Hdisk.
    destruct (Nat.eqb (S (length (person_ids (svc w))) mod 10) 0).
    + rewrite Hdisk. cbn [saves mapping_file].
      assert (Hlt : (saves (disk w) <? S (saves (disk w)))%nat = true)
        by (apply Nat.ltb_lt; lia).
      rewrite Hlt. split; [reflexivity|].
      split; [intros _; now rewrite Hids|intros Hf; discriminate Hf].
    + rewrite Hdisk, Nat.ltb_irrefl. split; [reflexivity|].
      split; [intros Hf; discriminate Hf|reflexivity].
  - apply add_person_false in E. rewrite Hens in E. subst w'.
    split; [exact Hx|]. split; [intros Hf; discriminate Hf|]. intros _.
    split; [reflexivity|apply Nat.ltb_irrefl].
Qed.

Lemma add_event_ensure (person_id : Z) (e : vec) (w : World) :
  add_event_of person_id e (mkWorld (ensure_index (svc w)) (disk w)) =
  add_event_of person_id e w.
Proof. unfold add_event_of. rewrite add_person_ensure. reflexivity. Qed.

Lemma add_all_ensure (reqs : list (Z * vec)) (w : World) :
  fst (add_all reqs (mkWorld (ensure_index (svc w)) (disk w))) = fst (add_all reqs w).
Proof.
  destruct reqs as [|[pid e] reqs]; [reflexivity|].
  simpl. rewrite add_event_ensure, add_person_ensure. reflexivity.
Qed.

Lemma successes_cons (ev : add_event) (evs : list add_event) :
  successes (ev :: evs) = ((if ok ev then 1 else 0) + successes evs)%nat.
Proof. unfold successes. simpl. destruct (ok ev); reflexivity. Qed.

Lemma successes_app (evs1 evs2 : list add_event) :
  successes (evs1 ++ evs2) = (successes evs1 + successes evs2)%nat.
Proof. unfold successes. rewrite filter_app, length_app. reflexivity. Qed.

Lemma mod10_succ (n : nat) :
  (S n mod 10 <> 0 -> S n mod 10 = n mod 10 + 1)%nat.
Proof.
  intros H.
  pose proof (Nat.div_mod_eq n 10). pose proof (Nat.div_mod_eq (S n) 10).
  pose proof (Nat.mod_upper_bound n 10). pose proof (Nat.mod_upper_bound (S n) 10).
  lia.
Qed.

(** A run without a save never completes a group of ten labels. *)
Lemma no_save_run (reqs : list (Z * vec)) (w : World) :
  has_index w ->
  no_save (fst (add_all reqs w)) ->
  let evs := fst (add_all reqs w) in
  let w' := snd (add_all reqs w) in
  has_index w' /\
  length (person_ids (svc w')) = (length (person_ids (svc w)) + successes evs)%nat /\
  (successes evs = 0 \/
   length (person_ids (svc w)) mod 10 + successes evs <= 9)%nat.
Proof.
  revert w. induction reqs as [|[pid e] reqs IH]; intros w Hx Hns;
    cbn [add_all fst snd] in *.
  - split; [exact Hx|]. split; [now rewrite Nat.add_0_r|now left].
  - inversion Hns as [|ev evs Hev Hrest]; subst.
    destruct (add_person_event pid e w Hx) as (Hx' & Hok & Hfail).
    destruct (IH _ Hx' Hrest) as (Hx2 & Hlen & Hbound).
    split; [exact Hx2|]. rewrite successes_cons.
    destruct (ok (add_event_of pid e w)) eqn:Eok.
    + destruct (Hok eq_refl) as (Hids & Hsaved & _).
      rewrite Hev in Hsaved. symmetry in Hsaved. apply Nat.eqb_neq in Hsaved.
      pose proof (mod10_succ _ Hsaved) as Hm.
      rewrite Hids, length_app in Hlen, Hbound.
      change (length [pid]) with 1%nat in Hlen, Hbound.
      rewrite Nat.add_1_r in Hlen, Hbound.
      pose proof (Nat.mod_upper_bound (S (length (person_ids (svc w)))) 10).
      cbv iota. split; [lia|]. right. lia.
    + destruct (Hfail eq_refl) as (Hw & _). rewrite Hw in Hlen, Hbound |- *.
      cbv iota. split; [lia|]. simpl. exact Hbound.
Qed.

(** Between two consecutive saves there are exactly ten successful adds,
    counting the one that triggers the second. *)
Lemma ten_adds_between_saves (w : World) (p1 : Z) (e1 : vec) (mid : list (Z * vec))
  (p2 : Z) (e2 : vec) :
  let w1 := snd (add_person p1 e1 w) in
  let w2 := snd (add_all mid w1) in
  saved (add_event_of p1 e1 w) = true ->
  no_save (fst (add_all mid w1)) ->
  saved (add_event_of p2 e2 w2) = true ->
  successes (fst (add_all mid w1) ++ [add_event_of p2 e2 w2]) = 10%nat.
Proof.
  intros w1 w2 Hs1 Hns Hs2.
  assert (H1 : has_index w1 /\ length (person_ids (svc w1)) mod 10 = 0%nat).
  { subst w1. rewrite <- (add_person_ensure p1 e1 w).
    rewrite <- add_event_ensure in Hs1.
    destruct (add_person_event p1 e1 _ (ensure_has_index w)) as (Hx & Hok & Hfail).
    split; [exact Hx|].
    destruct (ok (add_event_of p1 e1 _)) eqn:Eok.
    - destruct (Hok eq_refl) as (Hids & Hsaved & _).
      rewrite Hs1 in Hsaved. symmetry in Hsaved. apply Nat.eqb_eq in Hsaved.
      rewrite Hids, length_app. change (length [p1]) with 1%nat.
      rewrite Nat.add_1_r. exact Hsaved.
    - destruct (Hfail eq_refl) as (_ & Hf). rewrite Hs1 in Hf. discriminate Hf. }
  destruct H1 as (Hx1 & Hmod1).
  destruct (no_save_run mid w1 Hx1 Hns) as (Hx2 & Hlen & Hbound).
  fold w2 in Hx2, Hlen.
  destruct (add_person_event p2 e2 w2 Hx2) as (_ & Hok & Hfail).
  rewrite successes_app, successes_cons.
  destruct (ok (add_event_of p2 e2 w2)) eqn:Eok.
  - destruct (Hok eq_refl) as (_ & Hsaved & _).
    rewrite Hs2 in Hsaved. symmetry in Hsaved. apply Nat.eqb_eq in Hsaved.
    rewrite Hlen in Hsaved. rewrite Hmod1 in Hbound.
    change (successes []) with 0%nat. cbv iota.
    pose proof (Nat.div_mod_eq (length (person_ids (svc w1))) 10).
    pose proof (Nat.div_mod_eq
                  (S (length (person_ids (svc w1)) + successes (fst (add_all mid w1)))) 10).
    lia.
  - destruct (Hfail eq_refl) as (_ & Hf). rewrite Hs2 in Hf. discriminate Hf.
Qed.

(** No run of adds without a save has more than nine successes. *)
Lemma nine_adds_without_save (reqs : list (Z * vec)) (w : World) :
  no_save (fst (add_all reqs w)) -> (successes (fst (add_all reqs w)) <= 9)%nat.
Proof.
  intros Hns. rewrite <- add_all_ensure in Hns |- *.
  destruct (no_save_run reqs _ (ensure_has_index w) Hns) as (_ & _ & [H|H]); lia.
Qed.

(** When every write completes, what is in memory and not on disk, rows and
    labels alike, is what was added since the last multiple of ten. *)
Lemma unpersisted_step (person_id : Z) (v : vec) (w : World) :
  consistent (svc w) ->
  (exists rows ids,
     vectors (svc w) = persisted_vectors (disk w) ++ rows /\
     person_ids (svc w) = persisted_ids (disk w) ++ ids /\
     length rows = length ids /\
     (length ids <= length (person_ids (svc w)) mod 10)%nat) ->
  let w' := snd (add_person person_id v w) in
  consistent (svc w') /\
  exists rows ids,
    vectors (svc w') = persisted_vectors (disk w') ++ rows /\
    person_ids (svc w') = persisted_ids (disk w') ++ ids /\
    length rows = length ids /\
    (length ids <= length (person_ids (svc w')) mod 10)%nat.
Proof.
  intros Hc (rows & ids & Hrows & Hids & Hlen & Hbound) w'. subst w'.
  destruct (add_person person_id v w) as [[|] w'] eqn:E; cbn [snd].
  - pose proof (add_person_true_vectors _ _ _ _ E) as Hv.
    destruct (add_person_true _ _ _ _ E) as (ix & Hix & _ & _ & Hs & Hdisk).
    assert (Hids' : person_ids (svc w') = person_ids (svc w) ++ [person_id]).
    { rewrite Hs. simpl. now rewrite ensure_index_consistent. }
    assert (Hc' : consistent (svc w')).
    { unfold consistent. rewrite Hv, Hids', !length_app. simpl.
      unfold consistent in Hc. lia. }
    split; [exact Hc'|].
    destruct (Nat.eqb (length (person_ids (svc w')) mod 10) 0) eqn:Hmod.
    + exists [], []. unfold persisted_vectors, persisted_ids. rewrite Hdisk.
      cbn [index_file mapping_file xb]. rewrite !app_nil_r.
      split; [|split; [reflexivity|split; [reflexivity|simpl; lia]]].
      rewrite Hs. reflexivity.
    + exists (rows ++ [l2_normalize v]), (ids ++ [person_id]). rewrite Hdisk.
      split; [rewrite Hv, Hrows, <- app_assoc; reflexivity|].
      split; [rewrite Hids', Hids, <- app_assoc; reflexivity|].
      rewrite !length_app. cbn [length]. split; [lia|].
      apply Nat.eqb_neq in Hmod. rewrite Hids', length_app in Hmod |- *.
      cbn [length] in Hmod |- *. rewrite Nat.add_1_r in Hmod.
      rewrite (Nat.add_1_r (length (person_ids (svc w)))).
      rewrite (mod10_succ _ Hmod). lia.
  - apply add_person_false in E. subst w'. cbn [svc disk].
    assert (Hsame : person_ids (ensure_index (svc w)) = person_ids (svc w))
      by (apply ensure_index_consistent; exact Hc).
    split.
    + unfold consistent. rewrite ensure_index_vectors, Hsame. exact Hc.
    + exists rows, ids. rewrite ensure_index_vectors, Hsame. repeat split; assumption.
Qed.

Lemma unpersisted_run (reqs : list (Z * vec)) (w : World) :
  consistent (svc w) ->
  (exists rows ids,
     vectors (svc w) = persisted_vectors (disk w) ++ rows /\
     person_ids (svc w) = persisted_ids (disk w) ++ ids /\
     length rows = length ids /\
     (length ids <= length (person_ids (svc w)) mod 10)%nat) ->
  let w' := snd (add_all reqs w) in
  exists rows ids,
    vectors (svc w') = persisted_vectors (disk w') ++ rows /\
    person_ids (svc w') = persisted_ids (disk w') ++ ids /\
    length rows = length ids /\
    (length ids <= length (person_ids (svc w')) mod 10)%nat.
Proof.
  revert w. induction reqs as [|[pid v] reqs IH]; intros w Hc Hu; cbn [add_all snd].
  - exact Hu.
  - destruct (unpersisted_step pid v w Hc Hu) as (Hc' & Hu'). apply IH; assumption.
Qed.

(** C8, as stated, fails: the tenth add runs [save_index], the file system
    refuses the write, [save_index] swallows the exception and the add
    returns true.  All ten additions are in memory, none is on disk, and the
    next save is ten adds away. *)
Lemma refused_autosave_leaves_ten_unpersisted :
  let r := add_all_io (enroll_requests 1 10) refusing_env in
  in_sync (world refusing_env) /\
  fst r = repeat (mkEvent true false) 9 ++ [mkEvent true true] /\
  length (person_ids (svc (world (snd r)))) = 10%nat /\
  length (vectors (svc (world (snd r)))) = 10%nat /\
  persisted_ids (disk (world (snd r))) = [] /\
  persisted_vectors (disk (world (snd r))) = [].
Proof.
  cbv zeta. split; [split; reflexivity|].
  repeat split; vm_compute; reflexivity.
Qed.

(** C8, amended.  [save_index] is run on every tenth successful add,
    whatever happens to the writes: between two consecutive runs there are
    exactly 10 successful adds (counting the one that triggers the second),
    and no sequence of adds without a run has more than 9 successes.  When
    every write completes and memory and disk agree at the start, at most 9
    additions, rows and labels alike, are missing from disk after any
    sequence of adds.  A write that fails is not reported, so that bound
    does not hold without the proviso. *)
Theorem autosave_every_tenth_add :
  (forall (e : Env) (p1 : Z) (v1 : vec) (mid : list (Z * vec)) (p2 : Z) (v2 : vec),
     let e1 := snd (add_person_io p1 v1 e) in
     let e2 := snd (add_all_io mid e1) in
     saved (add_event_of_io p1 v1 e) = true ->
     no_save (fst (add_all_io mid e1)) ->
     saved (add_event_of_io p2 v2 e2) = true ->
     successes (fst (add_all_io mid e1) ++ [add_event_of_io p2 v2 e2]) = 10%nat) /\
  (forall (reqs : list (Z * vec)) (e : Env),
     no_save (fst (add_all_io reqs e)) ->
     (successes (fst (add_all_io reqs e)) <= 9)%nat) /\
  (forall (reqs : list (Z * vec)) (e : Env),
     Forall (fun o => o = Completes) (writes e) ->
     consistent (svc (world e)) ->
     in_sync (world e) ->
     let w' := world (snd (add_all_io reqs e)) in
     exists unsaved_rows unsaved_ids,
       vectors (svc w') = persisted_vectors (disk w') ++ unsaved_rows /\
       person_ids (svc w') = persisted_ids (disk w') ++ unsaved_ids /\
       length unsaved_rows = length unsaved_ids /\
       (length unsaved_ids <= 9)%nat).
Proof.
  split; [|split].
  - intros e p1 v1 mid p2 v2 e1 e2 Hs1 Hns Hs2.
    destruct (add_person_io_sim p1 v1 (world e) e eq_refl) as (_ & Hsvc1 & Hev1).
    destruct (add_all_io_sim mid (snd (add_person p1 v1 (world e))) e1 Hsvc1)
      as (Hevs & Hsvc2).
    destruct (add_person_io_sim p2 v2
                (snd (add_all mid (snd (add_person p1 v1 (world e))))) e2 Hsvc2)
      as (_ & _ & Hev2).
    rewrite <- Hev1 in Hs1. rewrite <- Hevs in Hns |- *. rewrite <- Hev2 in Hs2 |- *.
    exact (ten_adds_between_saves (world e) p1 v1 mid p2 v2 Hs1 Hns Hs2).
  - intros reqs e Hns.
    destruct (add_all_io_sim reqs (world e) e eq_refl) as (Hevs & _).
    rewrite <- Hevs in Hns |- *. exact (nine_adds_without_save reqs (world e) Hns).
  - intros reqs e Hw Hc (Hrows & Hids) w'. subst w'.
    rewrite (add_all_io_completes reqs e Hw).
    destruct (unpersisted_run reqs (world e) Hc) as (rows & ids & H1 & H2 & H3 & H4).
    + exists [], []. rewrite !app_nil_r. repeat split; [assumption|assumption|simpl; lia].
    + exists rows, ids. split; [exact H1|]. split; [exact H2|]. split; [exact H3|].
      pose proof (Nat.mod_upper_bound
                    (length (person_ids (svc (snd (add_all reqs (world e)))))) 10).
      lia.
Qed.

(** The amended C8 on a service that holds 9 persons, on a file system that
    refuses the first write: the 10th add runs [save_index], the next 9 do
    not, the 20th runs it again. *)
Lemma autosave_every_tenth_add_witness :
  let e := mkEnv nine_person_world [IndexWriteFails true] 0 in
  let e1 := snd (add_person_io 10 (axis_embedding 2) e) in
  let e2 := snd (add_all_io (enroll_requests 11 9) e1) in
  saved (add_event_of_io 10 (axis_embedding 2) e) = true /\
  no_save (fst (add_all_io (enroll_requests 11 9) e1)) /\
  saved (add_event_of_io 20 (axis_embedding 2) e2) = true /\
  successes (fst (add_all_io (enroll_requests 11 9) e1) ++
             [add_event_of_io 20 (axis_embedding 2) e2]) = 10%nat.
Proof.
  set (e := mkEnv nine_person_world [IndexWriteFails true] 0).
  assert (H1 : saved (add_event_of_io 10 (axis_embedding 2) e) = true)
    by (vm_compute; reflexivity).
  assert (H2 : no_save (fst (add_all_io (enroll_requests 11 9)
                               (snd (add_person_io 10 (axis_embedding 2) e))))).
  { assert (E : fst (add_all_io (enroll_requests 11 9)
                       (snd (add_person_io 10 (axis_embedding 2) e)))
                = repeat (mkEvent true false) 9) by (vm_compute; reflexivity).
    rewrite E. repeat constructor. }
  assert (H3 : saved (add_event_of_io 20 (axis_embedding 2)
                        (snd (add_all_io (enroll_requests 11 9)
                                (snd (add_person_io 10 (axis_embedding 2) e)))))
               = true) by (vm_compute; reflexivity).
  cbv zeta. split; [exact H1|]. split; [exact H2|]. split; [exact H3|].
  exact (proj1 autosave_every_tenth_add e 10%Z (axis_embedding 2)
           (enroll_requests 11 9) 20%Z (axis_embedding 2) H1 H2 H3).
Defined.

End AutosaveFacts.

(* ------------------------------------------------------------------ *)
(** ** The index: [search] *)

Module SearchFacts.
Import Faiss FAISSService NumericFacts Samples.

Lemma collect_length (ids : list Z) (threshold : R) (rs : list (fl * Z))
  (results : list (Z * R)) :
  collect ids threshold rs = Some results -> (length results <= length rs)%nat.
Proof.
  revert results. induction rs as [|[dist idx] rs IH]; intros results H; simpl in H.
  - injection H as <-. simpl. lia.
  - destruct (idx =? -1)%Z; [specialize (IH _ H); simpl; lia|].
    destruct dist as [c|]; [|specialize (IH _ H); simpl; lia].
    destruct (Rge_dec c (1 - threshold)) as [Hge|Hlt]; [|specialize (IH _ H); simpl; lia].
    destruct (py_index ids idx); [|discriminate].
    destruct (collect ids threshold rs) as [r|]; [|discriminate].
    injection H as <-. specialize (IH _ eq_refl). simpl. lia.
Qed.

(** Every pair returned comes from a used result slot of the scan, with the
    slot's finite distance as confidence, and passes the floor. *)
Lemma collect_In (ids : list Z) (threshold : R) (rs : list (fl * Z))
  (results : list (Z * R)) (person_id : Z) (c : R) :
  collect ids threshold rs = Some results ->
  In (person_id, c) results ->
  (1 - threshold <= c)%R /\
  exists idx, In (Some c, idx) rs /\ idx <> no_label /\
              py_index ids idx = Some person_id.
Proof.
  revert results. induction rs as [|[dist idx] rs IH]; intros results H Hin; simpl in H.
  - injection H as <-. destruct Hin.
  - destruct (idx =? -1)%Z eqn:Ei.
    { destruct (IH _ H Hin) as (Hf & i & Hi & Hn & Hp).
      split; [exact Hf|]. exists i. split; [right; exact Hi|split; assumption]. }
    destruct dist as [c0|].
    2:{ destruct (IH _ H Hin) as (Hf & i & Hi & Hn & Hp).
        split; [exact Hf|]. exists i. split; [right; exact Hi|split; assumption]. }
    destruct (Rge_dec c0 (1 - threshold)) as [Hge|Hlt].
    2:{ destruct (IH _ H Hin) as (Hf & i & Hi & Hn & Hp).
        split; [exact Hf|]. exists i. split; [right; exact Hi|split; assumption]. }
    destruct (py_index ids idx) as [pid|] eqn:Ep; [|discriminate].
    destruct (collect ids threshold rs) as [r|]; [|discriminate].
    injection H as <-. destruct Hin as [Heq|Hin].
    + injection Heq as -> ->. split; [lra|].
      exists idx. split; [left; reflexivity|]. split; [|exact Ep].
      apply Z.eqb_neq in Ei. exact Ei.
    + destruct (IH _ eq_refl Hin) as (Hf & i & Hi & Hn & Hp).
      split; [exact Hf|]. exists i. split; [right; exact Hi|split; assumption].
Qed.

(** The loop keeps the order of the scan. *)
Lemma collect_sorted (ids : list Z) (threshold : R) (rs : list (fl * Z))
  (results : list (Z * R)) :
  StronglySorted (fun a b => snd a <> no_label -> snd b <> no_label ->
                             finite_ge (fst a) (fst b)) rs ->
  collect ids threshold rs = Some results ->
  StronglySorted (fun a b => (snd b <= snd a)%R) results.
Proof.
  intros Hs. revert results.
  induction Hs as [|[dist idx] rs Hs IH Hall]; intros results H; simpl in H.
  - injection H as <-. constructor.
  - destruct (idx =? -1)%Z eqn:Ei; [exact (IH _ H)|].
    destruct dist as [c|]; [|exact (IH _ H)].
    destruct (Rge_dec c (1 - threshold)) as [Hge|Hlt]; [|exact (IH _ H)].
    destruct (py_index ids idx); [|discriminate].
    destruct (collect ids threshold rs) as [r|] eqn:Er; [|discriminate].
    injection H as <-. constructor; [exact (IH _ eq_refl)|].
    apply Forall_forall. intros [pid' c'] Hin.
    destruct (collect_In _ _ _ _ _ _ Er Hin) as (_ & i & Hi & Hn & _).
    rewrite Forall_forall in Hall. specialize (Hall _ Hi). simpl in Hall.
    simpl. apply Hall; [|exact Hn].
    apply Z.eqb_neq in Ei. exact Ei.
Qed.

Lemma collect_unused (ids : list Z) (threshold : R) (rs : list (fl * Z)) :
  Forall (fun r => snd r = no_label) rs -> collect ids threshold rs = Some [].
Proof.
  induction 1 as [|[dist idx] rs Hh Ht IH]; [reflexivity|].
  simpl in Hh. subst idx. simpl. exact IH.
Qed.

Section Contract.

Variable scan : scan_fn.
Hypothesis contract : scan_contract scan.

Lemma search_results (embedding : vec) (k : Z) (threshold : R) (self : Service) :
  search scan embedding k threshold self = [] \/
  exists ix rs,
    index self = Some ix /\
    rs = scan ix (l2_normalize embedding)
           (Z.to_nat (Z.min k (Z.of_nat (length (person_ids self))))) /\
    collect (person_ids self) threshold rs = Some (search scan embedding k threshold self).
Proof.
  unfold search. destruct (index self) as [ix|]; [|now left].
  destruct (Nat.eqb _ 0); [now left|].
  unfold Faiss.search. destruct (_ && _); [|now left].
  destruct (collect _ _ _) as [r|] eqn:E; [|now left].
  right. exists ix. eexists. split; [reflexivity|]. split; [reflexivity|exact E].
Qed.

Lemma empty_index_scan_unused (ix : IndexFlatIP) (q : vec) (k : nat) :
  xb ix = [] -> Forall (fun r => snd r = no_label) (scan ix q k).
Proof.
  intros Hxb. apply Forall_forall. intros [dist idx] Hin.
  destruct (scan_labels scan contract ix q k dist idx Hin) as [H|(H & _)]; [exact H|].
  unfold ntotal in H. rewrite Hxb in H. simpl in H. lia.
Qed.

(** C4: for every query, every [k >= 1] and every threshold, [search]
    returns at most [k] pairs, each with similarity at least
    [1 - threshold], by non-increasing similarity; on an index without
    vectors, and on a service without labels, it returns the empty list. *)
Theorem search_at_most_k_above_floor_descending
  (embedding : vec) (k : Z) (threshold : R) (self : Service) :
  (1 <= k)%Z ->
  let results := search scan embedding k threshold self in
  (Z.of_nat (length results) <= k)%Z /\
  Forall (fun r => (1 - threshold <= snd r)%R) results /\
  StronglySorted (fun a b => (snd b <= snd a)%R) results /\
  (vectors self = [] -> results = []) /\
  (person_ids self = [] -> results = []).
Proof.
  intros Hk results. subst results.
  destruct (search_results embedding k threshold self) as [E|(ix & rs & Hix & Hrs & Hc)].
  - rewrite E. simpl. repeat split; try constructor; lia.
  - split.
    { pose proof (collect_length _ _ _ _ Hc) as Hlen.
      rewrite Hrs, (scan_length scan contract) in Hlen. lia. }
    split.
    { apply Forall_forall. intros [pid c] Hin.
      destruct (collect_In _ _ _ _ _ _ Hc Hin) as (Hf & _). exact Hf. }
    split.
    { apply (collect_sorted (person_ids self) threshold rs); [|exact Hc].
      rewrite Hrs. apply (scan_sorted scan contract). }
    split.
    { intros Hv. unfold vectors in Hv. rewrite Hix in Hv.
      rewrite (collect_unused (person_ids self) threshold rs) in Hc.
      - now injection Hc as <-.
      - rewrite Hrs. apply empty_index_scan_unused. exact Hv. }
    intros Hids. unfold search. rewrite Hix, Hids. reflexivity.
Qed.

End Contract.

End SearchFacts.

(* ------------------------------------------------------------------ *)
(** ** The exhaustive scans meet the library contract *)

Module ScanFacts.
Import Faiss FlatScan FAISSService NumericFacts Samples.

Lemma In_firstn {A : Type} (n : nat) (l : list A) (x : A) :
  In x (firstn n l) -> In x l.
Proof.
  revert l. induction n as [|n IH]; intros [|y l] H; simpl in H; try destruct H.
  - left. assumption.
  - right. apply IH. assumption.
Qed.

Lemma insert_In (low_first : bool) (x y : R * Z) (l : list (R * Z)) :
  In x (insert low_first y l) <-> x = y \/ In x l.
Proof.
  induction l as [|z l IH]; simpl.
  - intuition.
  - destruct (if low_first then _ else _); simpl; rewrite ?IH; intuition.
Qed.

Lemma insert_sorted (low_first : bool) (y : R * Z) (l : list (R * Z)) :
  StronglySorted (fun a b => (fst b <= fst a)%R) l ->
  StronglySorted (fun a b => (fst b <= fst a)%R) (insert low_first y l).
Proof.
  induction 1 as [|z l Hs IH Hall]; simpl.
  - repeat constructor.
  - rewrite Forall_forall in Hall.
    destruct (if low_first
              then if Rle_dec (fst y) (fst z) then true else false
              else if Rlt_dec (fst y) (fst z) then true else false) eqn:E.
    + constructor; [exact IH|]. apply Forall_forall. intros x Hx.
      apply insert_In in Hx. destruct Hx as [->|Hx]; [|apply Hall; exact Hx].
      destruct low_first.
      * destruct (Rle_dec (fst y) (fst z)); [assumption|discriminate].
      * destruct (Rlt_dec (fst y) (fst z)); [lra|discriminate].
    + assert (Hzy : (fst z <= fst y)%R).
      { destruct low_first.
        - destruct (Rle_dec (fst y) (fst z)); [discriminate|lra].
        - destruct (Rlt_dec (fst y) (fst z)); [discriminate|lra]. }
      constructor; [constructor; [exact Hs|apply Forall_forall; exact Hall]|].
      constructor; [exact Hzy|]. apply Forall_forall. intros x Hx.
      specialize (Hall _ Hx). simpl in Hall. lra.
Qed.

Lemma ranked_sorted (low_first : bool) (rows : list (fl * Z)) (acc : list (R * Z)) :
  StronglySorted (fun a b => (fst b <= fst a)%R) acc ->
  StronglySorted (fun a b => (fst b <= fst a)%R) (ranked low_first rows acc).
Proof.
  revert acc. induction rows as [|[[s|] i] rows IH]; intros acc Hs; simpl.
  - exact Hs.
  - apply IH. apply insert_sorted. exact Hs.
  - apply IH. exact Hs.
Qed.

Lemma ranked_In (low_first : bool) (rows : list (fl * Z)) (acc : list (R * Z))
  (s : R) (i : Z) :
  In (s, i) (ranked low_first rows acc) <-> In (s, i) acc \/ In (Some s, i) rows.
Proof.
  revert acc. induction rows as [|[[s0|] i0] rows IH]; intros acc; simpl.
  - intuition.
  - rewrite IH, insert_In. split.
    + intros [[H|H]|H];
        [right; left; injection H as -> ->; reflexivity|left; exact H|right; right; exact H].
    + intros [H|[H|H]];
        [left; right; exact H|left; left; injection H as -> ->; reflexivity|right; exact H].
  - rewrite IH. split.
    + intros [H|H]; [left; exact H|right; right; exact H].
    + intros [H|[H|H]]; [left; exact H|discriminate H|right; exact H].
Qed.

Lemma combine_seq_In (q : vec) (rows : list vec) (start : nat) (dist : fl) (i : Z) :
  In (dist, i) (combine (map (vdot q) rows) (map Z.of_nat (seq start (length rows)))) ->
  exists j, (j < length rows)%nat /\ i = Z.of_nat (start + j) /\
            dist = vdot q (nth j rows []).
Proof.
  revert start. induction rows as [|row rows IH]; intros start H; simpl in H.
  - destruct H.
  - destruct H as [H|H].
    + injection H as <- <-. exists 0%nat. simpl. rewrite Nat.add_0_r.
      repeat split. lia.
    + destruct (IH _ H) as (j & Hj & Hi & Hd). exists (S j). simpl.
      split; [lia|]. split; [rewrite Hi; f_equal; lia|exact Hd].
Qed.

Lemma scored_In (ix : IndexFlatIP) (q : vec) (dist : fl) (i : Z) :
  In (dist, i) (scored ix q) ->
  (0 <= i < Z.of_nat (ntotal ix))%Z /\ dist = vdot q (nth (Z.to_nat i) (xb ix) []).
Proof.
  unfold scored, ntotal. intros H.
  destruct (combine_seq_In q (xb ix) 0 dist i H) as (j & Hj & -> & ->).
  simpl. rewrite Nat2Z.id. split; [lia|reflexivity].
Qed.

(** Both tie orders give a scan that meets the documented contract. *)
Lemma exhaustive_contract (low_first : bool) : scan_contract (exhaustive low_first).
Proof.
  constructor.
  - intros ix q k. unfold exhaustive, pad.
    rewrite length_app, repeat_length, length_firstn. lia.
  - intros ix q k dist idx H. unfold exhaustive, pad in H.
    apply in_app_or in H. destruct H as [H|H].
    + apply In_firstn in H. apply in_map_iff in H.
      destruct H as ([s i] & Heq & H). simpl in Heq. injection Heq as <- <-.
      apply ranked_In in H. destruct H as [[]|H].
      right. apply scored_In. exact H.
    + apply repeat_spec in H. injection H as _ ->. left. reflexivity.
  - intros ix q k. unfold exhaustive, pad.
    set (l := ranked low_first (scored ix q) []).
    assert (Hl : StronglySorted (fun a b => (fst b <= fst a)%R) l)
      by (apply ranked_sorted; constructor).
    assert (Hm : StronglySorted
                   (fun a b : fl * Z => snd a <> no_label -> snd b <> no_label ->
                                        finite_ge (fst a) (fst b))
                   (firstn k (map (fun p : R * Z => (Some (fst p), snd p)) l))).
    { clear -Hl. revert k. induction Hl as [|x l Hs IH Hall]; intros k.
      - rewrite firstn_nil. constructor.
      - destruct k as [|k]; [constructor|]. simpl. constructor; [apply IH|].
        apply Forall_forall. intros y Hy. apply In_firstn in Hy.
        apply in_map_iff in Hy. destruct Hy as (z & <- & Hz).
        rewrite Forall_forall in Hall. specialize (Hall _ Hz).
        intros _ _. simpl. exact Hall. }
    revert Hm. generalize (firstn k (map (fun p : R * Z => (Some (fst p), snd p)) l)).
    intros l0 Hm.
    match goal with |- context [repeat _ ?m] => generalize m end. intros n.
    induction Hm as [|x l1 Hs IH Hall].
    + simpl. induction n as [|n IHn]; simpl; constructor; [exact IHn|].
      apply Forall_forall. intros y Hy. intros Hx. exfalso. apply Hx. reflexivity.
    + simpl. constructor; [exact IH|].
      apply Forall_forall. intros y Hy. apply in_app_or in Hy.
      destruct Hy as [Hy|Hy].
      * rewrite Forall_forall in Hall. exact (Hall _ Hy).
      * apply repeat_spec in Hy. subst y. intros _ Hn. exfalso. apply Hn. reflexivity.
Qed.

Lemma scored_complete (ix : IndexFlatIP) (q : vec) (j : nat) :
  (j < ntotal ix)%nat ->
  In (vdot q (nth j (xb ix) []), Z.of_nat j) (scored ix q).
Proof.
  unfold scored, ntotal. generalize (xb ix). intros rows Hj.
  assert (H : forall start,
             In (vdot q (nth j rows []), Z.of_nat (start + j))
                (combine (map (vdot q) rows) (map Z.of_nat (seq start (length rows))))).
  { revert j Hj. induction rows as [|row rows IH]; intros j Hj start; simpl in Hj; [lia|].
    destruct j as [|j]; simpl.
    - left. rewrite Nat.add_0_r. reflexivity.
    - right. replace (start + S j)%nat with (S start + j)%nat by lia.
      apply IH. lia. }
  exact (H 0%nat).
Qed.

Lemma sorted_app_dominates {A : Type} (rel : A -> A -> Prop) (l1 l2 : list A) (x y : A) :
  StronglySorted rel (l1 ++ l2) -> In x l1 -> In y l2 -> rel x y.
Proof.
  induction l1 as [|a l1 IH]; intros Hs Hx Hy; [destruct Hx|].
  simpl in Hs. inversion Hs as [|? ? Hs' Hall]; subst.
  destruct Hx as [->|Hx].
  - rewrite Forall_forall in Hall. apply Hall. apply in_or_app. right. exact Hy.
  - apply IH; assumption.
Qed.

(** Both tie orders give an exact top-[k] scan. *)
Lemma exhaustive_exact (low_first : bool) : exact_top_k (exhaustive low_first).
Proof.
  intros ix q k j s Hj Hdot. unfold exhaustive.
  set (l := ranked low_first (scored ix q) []).
  assert (Hin : In (s, Z.of_nat j) l).
  { apply ranked_In. right. rewrite <- Hdot. apply scored_complete. exact Hj. }
  assert (Hl : StronglySorted (fun a b => (fst b <= fst a)%R) l)
    by (apply ranked_sorted; constructor).
  assert (Hlab : forall y, In y l -> snd y <> no_label).
  { intros [sy iy] Hy. apply ranked_In in Hy. destruct Hy as [[]|Hy].
    apply scored_In in Hy. destruct Hy as [Hy _]. unfold no_label. simpl. lia. }
  rewrite <- (firstn_skipn k l) in Hin, Hl.
  apply in_app_or in Hin. destruct Hin as [Hin|Hin].
  - left. unfold pad. apply in_or_app. left.
    rewrite firstn_map. apply in_map_iff. exists (s, Z.of_nat j).
    split; [reflexivity|exact Hin].
  - right.
    assert (Hk : (k <= length l)%nat).
    { destruct (Nat.le_gt_cases k (length l)) as [H|H]; [exact H|].
      rewrite skipn_all2 in Hin by lia. destruct Hin. }
    unfold pad. rewrite length_firstn, length_map, Nat.min_l by exact Hk.
    rewrite Nat.sub_diag. cbn [repeat]. rewrite app_nil_r, firstn_map.
    apply Forall_forall. intros y Hy.
    apply in_map_iff in Hy. destruct Hy as (x & <- & Hx).
    split; [apply Hlab; apply (In_firstn k); exact Hx|].
    exact (sorted_app_dominates _ _ _ x (s, Z.of_nat j) Hl Hx Hin).
Qed.

End ScanFacts.

(* ------------------------------------------------------------------ *)
(** ** [search] on concrete indexes; the order of tied candidates *)

Module SearchExamples.
Import Faiss FlatScan FAISSService NumericFacts Samples AddFacts SearchFacts ScanFacts.

(** C4 at the one-person index, queried with that person's embedding. *)
Lemma search_at_most_k_above_floor_descending_witness :
  let results :=
    search (exhaustive true) (axis_embedding 1) 1 0.6 (svc one_person_world) in
  (Z.of_nat (length results) <= 1)%Z /\
  Forall (fun r => (1 - 0.6 <= snd r)%R) results /\
  StronglySorted (fun a b => (snd b <= snd a)%R) results /\
  (vectors (svc one_person_world) = [] -> results = []) /\
  (person_ids (svc one_person_world) = [] -> results = []).
Proof.
  apply (search_at_most_k_above_floor_descending
           (exhaustive true) (exhaustive_contract true)).
  lia.
Defined.

(** With one row stored twice under the labels 1 and 2, the order of the two
    equal results is the order in which the scan hands them over. *)
Lemma tied_rows_order (low_first : bool) (row q : vec) (s threshold : R) (dim : nat) :
  length q = dim ->
  vdot (l2_normalize q) row = Some s ->
  (1 - threshold <= s)%R ->
  search (exhaustive low_first) q 5 threshold
         (mkService (Some (mkIndex dim [row; row])) [1%Z; 2%Z] dim true) =
  if low_first then [(1%Z, s); (2%Z, s)] else [(2%Z, s); (1%Z, s)].
Proof.
  intros Hlen Hdot Hfloor. unfold search. cbn [index person_ids length Nat.eqb].
  unfold Faiss.search. cbn [d]. rewrite length_l2_normalize, Hlen, Nat.eqb_refl.
  change (Z.min 5 (Z.of_nat 2)) with 2%Z. cbn [Z.ltb Z.compare andb].
  change (Z.to_nat 2) with 2%nat.
  unfold exhaustive, scored, ntotal. cbn [xb length seq map combine].
  rewrite Hdot. cbn [ranked insert fst snd].
  destruct low_first.
  - destruct (Rle_dec s s) as [_|Hn]; [|exfalso; apply Hn; lra].
    cbn [map firstn fst snd]. unfold pad. cbn [length Nat.sub repeat app].
    cbn [collect Z.eqb Z.of_nat Pos.of_succ_nat Pos.succ].
    destruct (Rge_dec s (1 - threshold)) as [_|Hn]; [|exfalso; apply Hn; lra].
    reflexivity.
  - destruct (Rlt_dec s s) as [Hn|_]; [exfalso; lra|].
    cbn [map firstn fst snd]. unfold pad. cbn [length Nat.sub repeat app].
    cbn [collect Z.eqb Z.of_nat Pos.of_succ_nat Pos.succ].
    destruct (Rge_dec s (1 - threshold)) as [_|Hn]; [|exfalso; apply Hn; lra].
    reflexivity.
Qed.

Lemma vdot_zero_rows (a : R) (n : nat) :
  vdot (repeat (Some a) n) (repeat (Some 0%R) n) = Some 0%R.
Proof.
  induction n as [|n IH]; [reflexivity|].
  cbn [repeat vdot]. rewrite IH. simpl. f_equal. ring.
Qed.

(** A scaled axis vector normalizes to a row whose inner product with the
    unit axis vector is 1. *)
Lemma vdot_normalized_axis (c : R) :
  (0 < c)%R -> vdot (l2_normalize (axis_embedding c)) (axis_embedding 1) = Some 1%R.
Proof.
  intros Hc. unfold l2_normalize. rewrite (vnorm_axis c) by lra.
  unfold axis_embedding. rewrite map_cons, map_repeat.
  unfold fdiv_norm. destruct (Req_EM_T c 0) as [H0|_]; [lra|].
  cbn [fdivr vdot]. rewrite vdot_zero_rows. simpl. f_equal. field. lra.
Qed.

Lemma vnorm_axis_abs (c : R) : vnorm (axis_embedding c) = Some (Rabs c).
Proof.
  unfold vnorm, axis_embedding.
  change (sumsq (Some c :: repeat (Some 0%R) 511))
    with (fadd (fmul (Some c) (Some c)) (sumsq (repeat (Some 0%R) 511))).
  rewrite sumsq_zeros. simpl. f_equal.
  replace (c * c + 0)%R with (Rsqr c) by (unfold Rsqr; ring).
  apply sqrt_Rsqr_abs.
Qed.

Lemma vdot_normalized_axis_signed (c : R) :
  c <> 0%R ->
  vdot (l2_normalize (axis_embedding c)) (axis_embedding 1) = Some (c / Rabs c)%R.
Proof.
  intros Hc. unfold l2_normalize. rewrite vnorm_axis_abs.
  unfold axis_embedding. rewrite map_cons, map_repeat.
  unfold fdiv_norm. pose proof (Rabs_no_R0 c Hc) as Ha.
  destruct (Req_EM_T (Rabs c) 0) as [H0|_]; [contradiction|].
  cbn [fdivr vdot]. rewrite vdot_zero_rows. simpl. f_equal. field. exact Ha.
Qed.

(** An index with one row, searched for one neighbour. *)
Lemma single_row_search (low_first : bool) (row q : vec) (s threshold : R)
  (dim : nat) (person_id : Z) :
  length q = dim ->
  vdot (l2_normalize q) row = Some s ->
  search (exhaustive low_first) q 1 threshold
         (mkService (Some (mkIndex dim [row])) [person_id] dim true) =
  if Rge_dec s (1 - threshold) then [(person_id, s)] else [].
Proof.
  intros Hlen Hdot. unfold search. cbn [index person_ids length Nat.eqb].
  unfold Faiss.search. cbn [d]. rewrite length_l2_normalize, Hlen, Nat.eqb_refl.
  change (Z.min 1 (Z.of_nat 1)) with 1%Z. cbn [Z.ltb Z.compare andb].
  change (Z.to_nat 1) with 1%nat.
  unfold exhaustive, scored, ntotal. cbn [xb length seq map combine].
  rewrite Hdot. cbn [ranked insert map firstn fst snd].
  unfold pad. cbn [length Nat.sub repeat app collect Z.eqb Z.of_nat].
  destruct (Rge_dec s (1 - threshold)); reflexivity.
Qed.

(** The scenario of the specification: the empty index gives no result; the
    index with the single entry (7, e) gives [(7, 1)] for the query [e] (here
    scaled by 3, the search normalizes it) and nothing for the antipodal
    query, whose similarity -1 is below the floor 0.4. *)
Example search_empty_index (scan : scan_fn) (q : vec) (k : Z) (threshold : R) :
  search scan q k threshold (svc fresh_world) = [].
Proof. reflexivity. Qed.

Example search_enrolled_embedding :
  search (exhaustive true) (axis_embedding 3) 1 0.6 (svc one_person_world)
    = [(7%Z, 1%R)].
Proof.
  unfold one_person_world. cbn [svc].
  rewrite (single_row_search true (axis_embedding 1) (axis_embedding 3) 1 0.6 512 7).
  - destruct (Rge_dec 1 (1 - 0.6)) as [_|H]; [reflexivity|exfalso; apply H; lra].
  - reflexivity.
  - apply vdot_normalized_axis. lra.
Qed.

Example search_antipodal_embedding :
  search (exhaustive true) (axis_embedding (-3)) 1 0.6 (svc one_person_world) = [].
Proof.
  unfold one_person_world. cbn [svc].
  rewrite (single_row_search true (axis_embedding 1) (axis_embedding (-3)) (-1) 0.6 512 7).
  - destruct (Rge_dec (-1) (1 - 0.6)) as [H|_]; [exfalso; lra|reflexivity].
  - reflexivity.
  - rewrite vdot_normalized_axis_signed by lra. f_equal.
    rewrite Rabs_left by lra. field.
Qed.

(** The documented contract of the library scan leaves the order of tied
    candidates open, also for an exact exhaustive scan: two scans that both
    meet it return the two enrolled twins in opposite orders. *)
Lemma tie_order_not_fixed_by_contract :
  exists scan_low scan_high : scan_fn,
    (scan_contract scan_low /\ exact_top_k scan_low) /\
    (scan_contract scan_high /\ exact_top_k scan_high) /\
    search scan_low (axis_embedding 3) 5 0.6 twin_service = [(1%Z, 1%R); (2%Z, 1%R)] /\
    search scan_high (axis_embedding 3) 5 0.6 twin_service = [(2%Z, 1%R); (1%Z, 1%R)].
Proof.
  exists (exhaustive true), (exhaustive false).
  split; [split; [apply exhaustive_contract|apply exhaustive_exact]|].
  split; [split; [apply exhaustive_contract|apply exhaustive_exact]|].
  split.
  - apply (tied_rows_order true (axis_embedding 1) (axis_embedding 3) 1 0.6 512).
    + reflexivity.
    + apply vdot_normalized_axis. lra.
    + lra.
  - apply (tied_rows_order false (axis_embedding 1) (axis_embedding 3) 1 0.6 512).
    + reflexivity.
    + apply vdot_normalized_axis. lra.
    + lra.
Qed.

End SearchExamples.

(* ------------------------------------------------------------------ *)
(** ** Quality assessment *)

Module QualityFacts.
Import FaceRecognitionService Samples.

Lemma Int_part_between (x : R) (z : Z) :
  (IZR z <= x < IZR z + 1)%R -> Int_part x = z.
Proof.
  intros [Hlo Hhi]. unfold Int_part.
  assert (H : (z + 1)%Z = up x).
  { apply up_tech; [exact Hlo|]. rewrite plus_IZR. exact Hhi. }
  lia.
Qed.

Lemma Int_part_bounds (x : R) : (IZR (Int_part x) <= x < IZR (Int_part x) + 1)%R.
Proof. destruct (base_Int_part x) as [H1 H2]. lra. Qed.

(** [rint] gives an integer within 1/2 of its argument. *)
Lemma rint_near (x : R) : (- (1 / 2) <= IZR (rint x) - x <= 1 / 2)%R.
Proof.
  unfold rint, frac_part. pose proof (Int_part_bounds x) as [Hlo Hhi].
  destruct (Rlt_dec (x - IZR (Int_part x)) (1 / 2)) as [H1|H1].
  - lra.
  - destruct (Rlt_dec (1 / 2) (x - IZR (Int_part x))) as [H2|H2].
    + rewrite plus_IZR. lra.
    + destruct (Z.even (Int_part x)); [|rewrite plus_IZR]; lra.
Qed.

Lemma rint_IZR (z : Z) : rint (IZR z) = z.
Proof.
  unfold rint, frac_part.
  rewrite (Int_part_between (IZR z) z) by lra.
  destruct (Rlt_dec (IZR z - IZR z) (1 / 2)) as [_|H]; [reflexivity|lra].
Qed.

Lemma rint_range (x : R) (lo hi : Z) :
  (IZR lo <= x <= IZR hi)%R -> (lo <= rint x <= hi)%Z.
Proof.
  intros [Hlo Hhi]. pose proof (rint_near x) as H. split.
  - destruct (Z_le_gt_dec lo (rint x)) as [H1|H1]; [exact H1|].
    assert (H2 : (rint x <= lo - 1)%Z) by lia.
    apply IZR_le in H2. rewrite minus_IZR in H2. lra.
  - destruct (Z_le_gt_dec (rint x) hi) as [H1|H1]; [exact H1|].
    assert (H2 : (hi + 1 <= rint x)%Z) by lia.
    apply IZR_le in H2. rewrite plus_IZR in H2. lra.
Qed.

Lemma round3_unit (x : R) : (0 <= x <= 1)%R -> (0 <= round3 x <= 1)%R.
Proof.
  intros Hx. unfold round3.
  assert (H : (0 <= rint (x * 1000) <= 1000)%Z) by (apply rint_range; lra).
  destruct H as [H0 H1]. apply IZR_le in H0, H1. lra.
Qed.

Lemma round3_thousandths (z : Z) : round3 (IZR z / 1000) = (IZR z / 1000)%R.
Proof.
  unfold round3. replace (IZR z / 1000 * 1000)%R with (IZR z) by field.
  rewrite rint_IZR. reflexivity.
Qed.

Lemma rsum_nonneg (l : list R) : Forall (fun x => (0 <= x)%R) l -> (0 <= rsum l)%R.
Proof. induction 1; simpl; lra. Qed.

Lemma rmean_nonneg (l : list R) : Forall (fun x => (0 <= x)%R) l -> (0 <= rmean l)%R.
Proof.
  intros H. unfold rmean. apply rsum_nonneg in H.
  destruct l as [|x l].
  - simpl. unfold Rdiv. rewrite Rmult_0_l. lra.
  - apply Rmult_le_pos; [exact H|]. apply Rlt_le, Rinv_0_lt_compat, lt_0_INR. simpl. lia.
Qed.

Lemma rvar_nonneg (l : list R) : (0 <= rvar l)%R.
Proof.
  unfold rvar. cbv zeta. apply rmean_nonneg. apply Forall_forall. intros y Hy.
  apply in_map_iff in Hy. destruct Hy as (x & <- & _).
  generalize (x - rmean l)%R. intros t. nra.
Qed.

Lemma rsum_bounds (l : list R) (lo hi : R) :
  Forall (fun x => (lo <= x <= hi)%R) l ->
  (INR (length l) * lo <= rsum l <= INR (length l) * hi)%R.
Proof.
  induction 1 as [|x l Hx Hl IH].
  - simpl. lra.
  - change (length (x :: l)) with (S (length l)). rewrite S_INR. simpl. lra.
Qed.

Lemma rmean_bounds (l : list R) (lo hi : R) :
  l <> [] -> Forall (fun x => (lo <= x <= hi)%R) l -> (lo <= rmean l <= hi)%R.
Proof.
  intros Hne H. pose proof (rsum_bounds l lo hi H) as [H1 H2].
  assert (Hn : (0 < INR (length l))%R).
  { apply lt_0_INR. destruct l; [contradiction|simpl; lia]. }
  unfold rmean. split.
  - apply Rmult_le_reg_r with (r := INR (length l)); [exact Hn|].
    unfold Rdiv. rewrite Rmult_assoc, Rinv_l by lra. lra.
  - apply Rmult_le_reg_r with (r := INR (length l)); [exact Hn|].
    unfold Rdiv. rewrite Rmult_assoc, Rinv_l by lra. lra.
Qed.

(** Sum of squared deviations, re-centred at [c]. *)
Lemma squared_deviations_shift (l : list R) (m c : R) :
  rsum (map (fun x => ((x - m) * (x - m))%R) l) =
  (rsum (map (fun x => ((x - c) * (x - c))%R) l)
   - 2 * (m - c) * (rsum l - INR (length l) * c)
   + INR (length l) * ((m - c) * (m - c)))%R.
Proof.
  induction l as [|x l IH].
  - simpl. ring.
  - change (length (x :: l)) with (S (length l)). rewrite S_INR. simpl.
    rewrite IH. ring.
Qed.

(** The variance of values in [[0, 2c]] is at most [c^2]. *)
Lemma rvar_bounded (l : list R) (c : R) :
  l <> [] -> Forall (fun x => (0 <= x <= 2 * c)%R) l -> (rvar l <= c * c)%R.
Proof.
  intros Hne H.
  assert (Hn : (0 < INR (length l))%R).
  { apply lt_0_INR. destruct l; [contradiction|simpl; lia]. }
  unfold rvar. set (m := rmean l).
  assert (Hsum : rsum l = (INR (length l) * m)%R).
  { unfold m, rmean. field. lra. }
  assert (Hc : (rsum (map (fun x => (x - c) * (x - c)) l) <= INR (length l) * (c * c))%R).
  { clear -H. induction H as [|x l Hx Hl IH].
    - simpl. lra.
    - change (length (x :: l)) with (S (length l)). rewrite S_INR. simpl. nra. }
  unfold rmean at 1. rewrite length_map.
  rewrite (squared_deviations_shift l m c), Hsum.
  apply Rmult_le_reg_r with (r := INR (length l)); [exact Hn|].
  unfold Rdiv. rewrite Rmult_assoc, Rinv_l by lra.
  assert (Hsq : (0 <= INR (length l) * ((m - c) * (m - c)))%R).
  { apply Rmult_le_pos; [lra|]. generalize (m - c)%R. intros t. nra. }
  clearbody m. revert Hc Hsq.
  generalize (rsum (map (fun x : R => ((x - c) * (x - c))%R) l)).
  generalize (INR (length l)). intros n s Hc Hsq.
  replace ((s - 2 * (m - c) * (n * m - n * c) + n * ((m - c) * (m - c))) * 1)%R
    with (s - n * ((m - c) * (m - c)))%R by ring.
  lra.
Qed.

Lemma rstd_bounded (l : list R) (c : R) :
  (0 <= c)%R -> l <> [] -> Forall (fun x => (0 <= x <= 2 * c)%R) l ->
  (0 <= rstd l <= c)%R.
Proof.
  intros Hc Hne H. unfold rstd. split; [apply sqrt_pos|].
  rewrite <- (sqrt_square c) by exact Hc.
  apply sqrt_le_1_alt. apply rvar_bounded; assumption.
Qed.

Lemma quality_formula_unit (s b c : R) :
  (0 <= s <= 1)%R -> (0 <= c)%R -> (0 <= quality_formula s b c <= 1)%R.
Proof.
  intros Hs Hc. unfold quality_formula.
  assert (Hb : (0 <= Rmin (Rabs (b - 0.5) * 2) 1 <= 1)%R).
  { split; [|apply Rmin_r]. apply Rmin_glb; [|lra].
    pose proof (Rabs_pos (b - 0.5)). lra. }
  assert (Hc' : (0 <= Rmin c 1 <= 1)%R).
  { split; [apply Rmin_glb; lra|apply Rmin_r]. }
  lra.
Qed.

(** The score of the source and the score of the specification differ by
    the brightness term alone: they agree only where twice the distance of
    the brightness from 0.5 is exactly 1/2. *)
Lemma quality_formula_vs_spec (s b c : R) :
  (0 <= c <= 1)%R ->
  (quality_formula s b c - spec_quality_formula s b c =
   0.3 * (2 * Rmin (Rabs (b - 0.5) * 2) 1 - 1))%R.
Proof.
  intros Hc. unfold quality_formula, spec_quality_formula.
  pose proof (Rabs_pos (b - 0.5)) as Ht.
  set (t := (Rabs (b - 0.5) * 2)%R).
  replace (2 * Rabs (b - 0.5))%R with t by (unfold t; ring).
  assert (Ht0 : (0 <= t)%R) by (unfold t; lra). clearbody t.
  rewrite (Rmin_left c 1) by lra.
  rewrite (Rmin_right 1 (1 - t)) by lra.
  destruct (Rle_dec t 1) as [H|H].
  - rewrite (Rmin_left t 1), Rmax_right by lra. lra.
  - rewrite (Rmin_right t 1), Rmax_left by lra. lra.
Qed.

(** On every image the four metrics returned by [assess_image_quality] lie
    in [[0, 1]]. *)
Lemma assess_metrics_unit_interval (view : option GrayImage) :
  (forall g, view = Some g -> well_formed g) ->
  let m := assess_image_quality view in
  (0 <= quality_score m <= 1)%R /\ (0 <= sharpness m <= 1)%R /\
  (0 <= brightness m <= 1)%R /\ (0 <= contrast m <= 1)%R.
Proof.
  intros Hwf. destruct view as [g|]; [|simpl; lra].
  destruct (Hwf g eq_refl) as (Hne & Hpix & _).
  unfold assess_image_quality. destruct (pixels g) as [|p ps]; [contradiction|].
  cbn [quality_score sharpness brightness contrast].
  set (px := p :: ps) in *. clearbody px.
  assert (Hgray : Forall (fun x => (0 <= x <= 2 * 127.5)%R) (map IZR px)).
  { apply Forall_forall. intros x Hx.
    apply in_map_iff in Hx. destruct Hx as (z & <- & Hz).
    rewrite Forall_forall in Hpix. specialize (Hpix _ Hz). destruct Hpix as [H0 H1].
    apply IZR_le in H0, H1. lra. }
  assert (Hne' : map IZR px <> []).
  { destruct px; [contradiction|discriminate]. }
  assert (Hs : (0 <= Rmin (rvar (laplacian g) / 100) 1 <= 1)%R).
  { split; [|apply Rmin_r]. apply Rmin_glb; [|lra].
    pose proof (rvar_nonneg (laplacian g)). lra. }
  assert (Hb : (0 <= rmean (map IZR px) / 255 <= 1)%R).
  { pose proof (rmean_bounds _ _ _ Hne' Hgray). lra. }
  assert (Hc : (0 <= rstd (map IZR px) / 128 <= 1)%R).
  { assert (0 <= 127.5)%R by lra.
    pose proof (rstd_bounded _ 127.5%R H Hne' Hgray). lra. }
  repeat split; try (apply round3_unit; assumption);
    apply round3_unit, quality_formula_unit; lra.
Qed.

Lemma black_image_measurements :
  rvar (laplacian black_image) = 0%R /\
  rmean (map IZR (pixels black_image)) = 0%R /\
  rstd (map IZR (pixels black_image)) = 0%R.
Proof.
  assert (Hm : rmean [0; 0; 0; 0]%R = 0%R) by (unfold rmean; simpl; field).
  assert (Hv : rvar [0; 0; 0; 0]%R = 0%R).
  { unfold rvar. cbv zeta. rewrite Hm. unfold rmean. simpl. field. }
  simpl. unfold rstd. rewrite Hv, sqrt_0. repeat split; assumption.
Qed.

(** C2 fails on the code at an all-black image: the measurements are
    sharpness 0, brightness 0 and contrast 0, for which the score described
    in the specification is 0, and the code returns 0.3, full credit for the
    brightness term, which is not below the enrollment gate of 0.3. *)
Theorem assess_black_image_gets_full_brightness_credit :
  assess_image_quality (Some black_image) = mkQuality 0.3 0 0 0 /\
  spec_quality_formula 0 0 0 = 0%R /\
  ~ (quality_score (assess_image_quality (Some black_image)) < 0.3)%R.
Proof.
  destruct black_image_measurements as (Hv & Hm & Hs).
  assert (Hsharp : Rmin (0 / 100) 1 = 0%R)
    by (rewrite Rmin_left; [field|lra]).
  assert (Hq : quality_formula 0 0 0 = (IZR 300 / 1000)%R).
  { unfold quality_formula.
    replace (Rabs (0 - 0.5) * 2)%R with 1%R.
    - rewrite Rmin_left by lra. rewrite Rmin_left by lra. lra.
    - rewrite Rabs_left by lra. lra. }
  assert (Hr0 : round3 0 = 0%R).
  { replace 0%R with (IZR 0 / 1000)%R at 1 by field.
    rewrite round3_thousandths. field. }
  assert (E : assess_image_quality (Some black_image) = mkQuality 0.3 0 0 0).
  { unfold assess_image_quality.
    change (pixels black_image) with [0; 0; 0; 0]%Z at 1. cbv iota.
    rewrite Hv, Hm, Hs, Hsharp.
    replace (0 / 255)%R with 0%R by field.
    replace (0 / 128)%R with 0%R by field.
    rewrite Hq, round3_thousandths, Hr0. f_equal. lra. }
  split; [exact E|]. split.
  - unfold spec_quality_formula.
    replace (1 - 2 * Rabs (0 - 0.5))%R with 0%R.
    + rewrite Rmin_right by lra. rewrite Rmax_left by lra. lra.
    + rewrite Rabs_left by lra. lra.
  - rewrite E. simpl. lra.
Qed.

(** [round(x, 3)] moves its argument by at most half a thousandth. *)
Lemma round3_near (x : R) : (x - 1 / 2000 <= round3 x <= x + 1 / 2000)%R.
Proof. unfold round3. pose proof (rint_near (x * 1000)) as H. lra. Qed.

(** The black image passes the enrollment gate: its score is 0.3. *)
Lemma black_image_passes_gate :
  ~ (quality_score (assess_image_quality (Some black_image)) < 0.3)%R.
Proof.
  destruct black_image_measurements as (Hv & Hm & Hs).
  unfold assess_image_quality.
  change (pixels black_image) with [0; 0; 0; 0]%Z at 1. cbv iota.
  rewrite Hv, Hm, Hs. cbn [quality_score].
  assert (Hq : quality_formula (Rmin (0 / 100) 1) (0 / 255) (0 / 128) = (IZR 300 / 1000)%R).
  { unfold quality_formula.
    replace (Rmin (0 / 100) 1) with 0%R by (rewrite Rmin_left; lra).
    replace (Rabs (0 / 255 - 0.5) * 2)%R with 1%R by (rewrite Rabs_left; lra).
    rewrite Rmin_left by lra. rewrite Rmin_left by lra. lra. }
  rewrite Hq, round3_thousandths. lra.
Qed.

(** The medium gray image does not: it has no sharpness and no contrast,
    and its brightness, close to one half, earns next to nothing. *)
Lemma gray_image_fails_gate :
  (quality_score (assess_image_quality (Some gray_image)) < 0.3)%R.
Proof.
  assert (Hl : rvar [0]%R = 0%R) by (unfold rvar, rmean; simpl; field).
  assert (Hm : rmean [128]%R = 128%R) by (unfold rmean; simpl; field).
  assert (Hs : rstd [128]%R = 0%R).
  { unfold rstd. replace (rvar [128]%R) with 0%R; [apply sqrt_0|].
    unfold rvar, rmean. simpl. field. }
  unfold assess_image_quality, gray_image. cbn [pixels laplacian map quality_score].
  rewrite Hl, Hm, Hs.
  pose proof (round3_near (quality_formula (Rmin (0 / 100) 1) (128 / 255) (0 / 128))) as Hr.
  assert (Hq : (quality_formula (Rmin (0 / 100) 1) (128 / 255) (0 / 128) <= 0.01)%R).
  { unfold quality_formula.
    replace (Rmin (0 / 100) 1) with 0%R by (rewrite Rmin_left; lra).
    rewrite Rabs_right by lra. rewrite Rmin_left by lra. rewrite Rmin_left by lra. lra. }
  lra.
Qed.

End QualityFacts.

(* ------------------------------------------------------------------ *)
(** ** Enrollment: aggregation of a batch *)

Module EnrollmentFacts.
Import FaceRecognitionService NumericFacts Samples QualityFacts.

Lemma fadd_assoc (a b c : fl) : fadd (fadd a b) c = fadd a (fadd b c).
Proof.
  destruct a, b, c; simpl; try reflexivity. f_equal. ring.
Qed.

Lemma length_vadd (a b : vec) :
  length a = length b -> length (vadd a b) = length a.
Proof.
  revert b. induction a as [|x a IH]; intros [|y b] H; simpl in *; try lia.
  f_equal. apply IH. lia.
Qed.

Lemma nth_vadd (a b : vec) (j : nat) :
  length a = length b -> (j < length a)%nat ->
  nth j (vadd a b) NaN = fadd (nth j a NaN) (nth j b NaN).
Proof.
  revert b j. induction a as [|x a IH]; intros [|y b] j H Hj; simpl in *; try lia.
  destruct j as [|j]; [reflexivity|]. apply IH; lia.
Qed.

Lemma column_sums (e : vec) (es : list vec) (j : nat) :
  Forall (fun e' => length e' = length e) es -> (j < length e)%nat ->
  length (fold_left vadd es e) = length e /\
  nth j (fold_left vadd es e) NaN = fsum (map (fun v => nth j v NaN) (e :: es)).
Proof.
  revert e. induction es as [|e1 es IH]; intros e Hall Hj.
  - simpl. split; [reflexivity|]. destruct (nth j e NaN); simpl; [f_equal; ring|reflexivity].
  - inversion Hall as [|? ? H1 Hrest]; subst.
    assert (Hl : length (vadd e e1) = length e) by (apply length_vadd; lia).
    destruct (IH (vadd e e1)) as (Hlen & Hnth).
    + apply Forall_forall. intros v Hv. rewrite Forall_forall in Hrest.
      rewrite Hl. apply Hrest. exact Hv.
    + lia.
    + cbn [fold_left]. split; [lia|].
      rewrite Hnth. cbn [map fsum]. rewrite nth_vadd by lia. apply fadd_assoc.
Qed.

(** [np_mean_axis0] succeeds on rows of one length, and its [j]-th
    component is the arithmetic mean of the [j]-th components. *)
Lemma np_mean_axis0_mean (e : vec) (es : list vec) :
  Forall (fun e' => length e' = length e) es ->
  exists m, np_mean_axis0 e es = Some m /\
            length m = length e /\
            forall j, (j < length e)%nat ->
              nth j m NaN =
              fdivr (fsum (map (fun v => nth j v NaN) (e :: es)))
                    (INR (length (e :: es))).
Proof.
  intros Hall. unfold np_mean_axis0.
  assert (Hb : forallb (fun e' => Nat.eqb (length e') (length e)) es = true).
  { apply forallb_forall. intros v Hv. rewrite Forall_forall in Hall.
    apply Nat.eqb_eq. apply Hall. exact Hv. }
  rewrite Hb. eexists. split; [reflexivity|].
  assert (Hlen : length (fold_left vadd es e) = length e).
  { destruct e as [|x e'].
    - clear Hb. induction es as [|e1 es IH]; [reflexivity|].
      inversion Hall as [|? ? H1 Hrest]; subst. simpl in H1.
      apply length_zero_iff_nil in H1. subst e1. simpl. apply IH. exact Hrest.
    - apply (column_sums (x :: e') es 0 Hall). simpl. lia. }
  split; [rewrite length_map; exact Hlen|].
  intros j Hj.
  destruct (column_sums e es j Hall Hj) as (_ & Hnth).
  rewrite <- Hnth.
  change NaN with ((fun s => fdivr s (INR (S (length es)))) NaN) at 1.
  rewrite map_nth. reflexivity.
Qed.

Section Capabilities.

Variable payload : Type.
Variable image : Type.
Variable base64_to_image : payload -> image + nat.
Variable gray_of : image -> option GrayImage.
Variable represent : image -> option (list vec).

(** The embedding model has a fixed output dimension. *)
Variable model_dimension : nat.
Hypothesis represent_dimension :
  forall img e es, represent img = Some (e :: es) -> length e = model_dimension.

(** The loop adds one report per image, numbered from [idx + 1], tagged as
    the policy says, and collects the embeddings of the accepted images in
    order; no image stops the loop. *)
Lemma enrollment_loop_reports (imgs : list payload) (idx : nat)
  (embeddings : list vec) (reports : list report) :
  exists added,
    enrollment_loop base64_to_image gray_of represent idx imgs embeddings reports =
      (embeddings ++ accepted_embeddings base64_to_image gray_of represent imgs, reports ++ added) /\
    length added = length imgs /\
    map report_status added = map (fun b => fst (image_status base64_to_image gray_of represent b)) imgs /\
    map image_index added = seq (idx + 1) (length imgs).
Proof.
  revert idx embeddings reports.
  induction imgs as [|b imgs IH]; intros idx embeddings reports.
  - exists []. simpl. rewrite !app_nil_r. repeat split.
  - cbn [enrollment_loop map]. unfold accepted_embeddings. cbn [flat_map].
    fold (accepted_embeddings base64_to_image gray_of represent imgs).
    unfold image_status at 1 2.
    destruct (base64_to_image b) as [img|msg].
    + destruct (Rlt_dec _ 0.3) as [Hlow|Hok].
      * destruct (IH (S idx) embeddings
                    (reports ++ [mkReport (idx + 1) rejected (Some LowQuality)
                                   (Some (assess_image_quality (gray_of img)))]))
          as (added & -> & Hlen & Hst & Hix).
        eexists (_ :: added). rewrite <- app_assoc. split; [reflexivity|].
        simpl. rewrite Hlen, Hst, Hix.
        replace (S idx + 1)%nat with (S (idx + 1)) by lia. repeat split.
      * destruct (extract_embedding represent img) as [e|].
        -- destruct (IH (S idx) (embeddings ++ [e])
                      (reports ++ [mkReport (idx + 1) accepted None
                                     (Some (assess_image_quality (gray_of img)))]))
             as (added & -> & Hlen & Hst & Hix).
           eexists (_ :: added). rewrite <- !app_assoc. split; [reflexivity|].
           simpl. rewrite Hlen, Hst, Hix.
           replace (S idx + 1)%nat with (S (idx + 1)) by lia. repeat split.
        -- destruct (IH (S idx) embeddings
                      (reports ++ [mkReport (idx + 1) rejected (Some NoFaceDetected)
                                     (Some (assess_image_quality (gray_of img)))]))
             as (added & -> & Hlen & Hst & Hix).
           eexists (_ :: added). rewrite <- app_assoc. split; [reflexivity|].
           simpl. rewrite Hlen, Hst, Hix.
           replace (S idx + 1)%nat with (S (idx + 1)) by lia. repeat split.
    + destruct (IH (S idx) embeddings
                  (reports ++ [mkReport (idx + 1) error (Some (ErrorText msg)) None]))
        as (added & -> & Hlen & Hst & Hix).
      eexists (_ :: added). rewrite <- app_assoc. split; [reflexivity|].
      simpl. rewrite Hlen, Hst, Hix.
      replace (S idx + 1)%nat with (S (idx + 1)) by lia. repeat split.
Qed.

Lemma accepted_dimension (imgs : list payload) :
  Forall (fun e => length e = model_dimension) (accepted_embeddings base64_to_image gray_of represent imgs).
Proof.
  unfold accepted_embeddings. apply Forall_forall. intros e He.
  apply in_flat_map in He. destruct He as (b & _ & He).
  unfold image_status in He.
  destruct (base64_to_image b) as [img|msg]; [|destruct He].
  destruct (Rlt_dec _ 0.3); [destruct He|].
  unfold extract_embedding in He.
  destruct (represent img) as [[|e0 es]|] eqn:Er.
  - destruct He.
  - destruct He as [He|[]]. rewrite <- He, length_l2_normalize.
    exact (represent_dimension img e0 es Er).
  - destruct He.
Qed.

(** The embeddings that are averaged are those of the images tagged
    accepted, one each. *)
Lemma accepted_count (imgs : list payload) :
  length (accepted_embeddings base64_to_image gray_of represent imgs) =
  length (filter is_accepted
            (map (fun b => fst (image_status base64_to_image gray_of represent b)) imgs)).
Proof.
  unfold accepted_embeddings. induction imgs as [|b imgs IH]; [reflexivity|].
  cbn [flat_map map filter]. rewrite length_app, IH.
  unfold image_status at 1 3.
  destruct (base64_to_image b) as [img|msg]; [|reflexivity].
  destruct (Rlt_dec _ 0.3); [reflexivity|].
  destruct (extract_embedding represent img); reflexivity.
Qed.

(** C5, amended: a batch of [n] images gives exactly [n] reports, numbered
    1 to [n] and tagged accepted, rejected or error image by image; no
    embedding is returned exactly when no image is accepted; otherwise the
    embedding returned is the component-wise arithmetic mean of the
    embeddings of exactly the accepted images (as many as there are reports
    tagged accepted), divided by its norm.  That quotient has norm 1 when
    the sum of squares of the mean lies in the normal range of binary64
    (exactly in real arithmetic, so within 1e-5 with rounding); the source
    has no guard for a mean without a direction, which is returned as an
    embedding all the same. *)
Theorem process_enrollment_images_aggregates (imgs : list payload) :
  exists embedding reports,
    process_enrollment_images base64_to_image gray_of represent imgs
      = EnrollReturns embedding reports /\
    length reports = length imgs /\
    map report_status reports = map (fun b => fst (image_status base64_to_image gray_of represent b)) imgs /\
    map image_index reports = seq 1 (length imgs) /\
    length (filter (fun r => is_accepted (report_status r)) reports) =
      length (accepted_embeddings base64_to_image gray_of represent imgs) /\
    (embedding = None <-> accepted_embeddings base64_to_image gray_of represent imgs = []) /\
    (forall e es, accepted_embeddings base64_to_image gray_of represent imgs = e :: es ->
       exists m,
         embedding = Some (l2_normalize m) /\
         length m = model_dimension /\
         (forall j, (j < model_dimension)%nat ->
            nth j m NaN =
            fdivr (fsum (map (fun v => nth j v NaN) (accepted_embeddings base64_to_image gray_of represent imgs)))
                  (INR (length (accepted_embeddings base64_to_image gray_of represent imgs)))) /\
         (float64_range m ->
            vnorm (l2_normalize m) = Some 1%R /\
            unit_norm_within (1 / 100000) (l2_normalize m))).
Proof.
  unfold process_enrollment_images.
  destruct (enrollment_loop_reports imgs 0 [] []) as (added & E & Hlen & Hst & Hix).
  rewrite E. cbn [app].
  assert (Hcount : length (filter (fun r => is_accepted (report_status r)) added) =
                   length (accepted_embeddings base64_to_image gray_of represent imgs)).
  { rewrite accepted_count, <- Hst. clear.
    induction added as [|r added IH]; [reflexivity|].
    cbn [filter map]. destruct (is_accepted (report_status r)); simpl; rewrite IH; reflexivity. }
  pose proof (accepted_dimension imgs) as Hdim.
  destruct (accepted_embeddings base64_to_image gray_of represent imgs) as [|e es] eqn:Ea.
  - exists None, added. repeat split; try assumption. intros e es H. discriminate H.
  - apply Forall_cons_iff in Hdim. destruct Hdim as [He Hes].
    assert (Hall : Forall (fun e' => length e' = length e) es).
    { apply Forall_forall. intros v Hv. rewrite Forall_forall in Hes.
      rewrite (Hes _ Hv). symmetry. exact He. }
    destruct (np_mean_axis0_mean e es Hall) as (m & Hm & Hml & Hmj).
    rewrite Hm. exists (Some (l2_normalize m)), added.
    split; [reflexivity|]. split; [exact Hlen|]. split; [exact Hst|].
    split; [exact Hix|]. split; [exact Hcount|].
    split; [split; intros H; discriminate H|].
    intros e' es' H. injection H as <- <-.
    exists m. split; [reflexivity|]. split; [lia|]. split.
    + intros j Hj. apply Hmj. lia.
    + intros Hrange. destruct (float64_range_norm m Hrange) as (n & Hn & Hn0).
      pose proof (l2_normalize_unit m n Hn Hn0) as Hu.
      split; [exact Hu|]. apply unit_norm_exact; [lra|exact Hu].
Qed.

End Capabilities.

Lemma sample_represent_dimension (img : nat) (e : vec) (es : list vec) :
  sample_represent img = Some (e :: es) -> length e = 512%nat.
Proof.
  unfold sample_represent. destruct (Nat.eqb img 1); [discriminate|].
  intros H. injection H as <- _. reflexivity.
Qed.

(** *** A batch that meets the quality gate *)

Lemma batch_represent_dimension (img : nat) (e : vec) (es : list vec) :
  batch_represent img = Some (e :: es) -> length e = 512%nat.
Proof.
  unfold batch_represent.
  destruct (Nat.eqb img 2); [discriminate|].
  destruct (Nat.eqb img 4); [|destruct (Nat.eqb img 5)];
    intros H; injection H as <- _; reflexivity.
Qed.

(** What the policy says of the images of the batch: the gray image is
    rejected for its quality, and a black image is judged by the model. *)
Lemma batch_image_status (n : nat) :
  image_status batch_decode batch_gray batch_represent n =
  if Nat.eqb n 1 then (rejected, None)
  else match extract_embedding batch_represent n with
       | Some e => (accepted, Some e)
       | None => (rejected, None)
       end.
Proof.
  unfold image_status, batch_decode, batch_gray.
  destruct (Nat.eqb n 1).
  - destruct (Rlt_dec _ 0.3) as [_|H]; [reflexivity|].
    exfalso. apply H. exact gray_image_fails_gate.
  - destruct (Rlt_dec _ 0.3) as [H|_]; [|reflexivity].
    exfalso. exact (black_image_passes_gate H).
Qed.

Lemma l2_normalize_axis (c : R) :
  c <> 0%R ->
  l2_normalize (Some c :: repeat (Some 0%R) 511) =
  Some (c / Rabs c)%R :: repeat (Some (0 / Rabs c)%R) 511.
Proof.
  intros Hc. unfold l2_normalize.
  assert (Hn : vnorm (Some c :: repeat (Some 0%R) 511) = Some (Rabs c)).
  { unfold vnorm.
    change (sumsq (Some c :: repeat (Some 0%R) 511))
      with (fadd (fmul (Some c) (Some c)) (sumsq (repeat (Some 0%R) 511))).
    rewrite sumsq_zeros. simpl. f_equal.
    replace (c * c + 0)%R with (Rsqr c) by (unfold Rsqr; ring).
    apply sqrt_Rsqr_abs. }
  rewrite Hn, map_cons, map_repeat. unfold fdiv_norm.
  pose proof (Rabs_no_R0 c Hc) as Ha.
  destruct (Req_EM_T (Rabs c) 0) as [H0|_]; [contradiction|]. reflexivity.
Qed.

Lemma vadd_repeat (x y : fl) (n : nat) :
  vadd (repeat x n) (repeat y n) = repeat (fadd x y) n.
Proof. induction n as [|n IH]; [reflexivity|]. cbn [repeat vadd]. now rewrite IH. Qed.

(** The mean of a unit vector and its opposite is the zero vector. *)
Lemma antipodal_mean :
  np_mean_axis0 (l2_normalize (Some 2%R :: repeat (Some 0%R) 511))
                [l2_normalize (Some (-2)%R :: repeat (Some 0%R) 511)]
  = Some zero_embedding.
Proof.
  rewrite !l2_normalize_axis by lra. unfold np_mean_axis0.
  replace (forallb _ _) with true by (vm_compute; reflexivity).
  cbn [fold_left vadd length]. rewrite vadd_repeat, map_cons, map_repeat.
  cbn [fadd fdivr]. unfold zero_embedding.
  change 512%nat with (S 511). cbn [repeat].
  rewrite (Rabs_right 2) by lra. rewrite (Rabs_left (-2)) by lra.
  replace (INR 2) with 2%R by (simpl; lra).
  replace ((2 / 2 + -2 / - -2) / 2)%R with 0%R by field.
  replace ((0 / 2 + 0 / - -2) / 2)%R with 0%R by field.
  reflexivity.
Qed.

(** C5, as stated, fails: two accepted images whose embeddings are opposite
    average to the zero vector, whose quotient by its norm is 0/0 in every
    component.  The call returns that row as the embedding of the person;
    its norm is not 1. *)
Lemma antipodal_embeddings_aggregate_to_nan :
  exists reports,
    process_enrollment_images batch_decode batch_gray batch_represent [3; 4]%nat
      = EnrollReturns (Some (repeat NaN 512)) reports /\
    map report_status reports = [accepted; accepted] /\
    ~ unit_norm_within (1 / 100000) (repeat NaN 512).
Proof.
  unfold process_enrollment_images.
  destruct (enrollment_loop_reports nat nat batch_decode batch_gray batch_represent
              [3; 4]%nat 0 [] []) as (added & E & _ & Hst & _).
  rewrite E. unfold accepted_embeddings in *. cbn [flat_map map app] in *.
  rewrite !batch_image_status in *.
  cbn [Nat.eqb extract_embedding batch_represent snd fst app] in *.
  rewrite antipodal_mean. exists added. split; [|split].
  - unfold zero_embedding. now rewrite l2_normalize_zeros.
  - exact Hst.
  - intros (n & Hn & _). discriminate Hn.
Qed.

(** The amended C5 on a batch of five images: two fail the quality gate,
    the model finds no face on one, two are accepted. *)
Lemma process_enrollment_images_aggregates_witness :
  exists embedding reports,
    process_enrollment_images batch_decode batch_gray batch_represent
        [1; 1; 2; 3; 5]%nat
      = EnrollReturns embedding reports /\
    length reports = 5%nat /\
    map report_status reports = [rejected; rejected; rejected; accepted; accepted] /\
    map image_index reports = [1; 2; 3; 4; 5]%nat /\
    length (filter (fun r => is_accepted (report_status r)) reports) =
      length (accepted_embeddings batch_decode batch_gray batch_represent
                [1; 1; 2; 3; 5]%nat) /\
    (embedding = None <->
     accepted_embeddings batch_decode batch_gray batch_represent
       [1; 1; 2; 3; 5]%nat = []) /\
    (forall e es,
       accepted_embeddings batch_decode batch_gray batch_represent
         [1; 1; 2; 3; 5]%nat = e :: es ->
       exists m,
         embedding = Some (l2_normalize m) /\
         length m = 512%nat /\
         (forall j, (j < 512)%nat ->
            nth j m NaN =
            fdivr (fsum (map (fun v => nth j v NaN)
                           (accepted_embeddings batch_decode batch_gray
                              batch_represent [1; 1; 2; 3; 5]%nat)))
                  (INR (length (accepted_embeddings batch_decode batch_gray
                                  batch_represent [1; 1; 2; 3; 5]%nat)))) /\
         (float64_range m ->
            vnorm (l2_normalize m) = Some 1%R /\
            unit_norm_within (1 / 100000) (l2_normalize m))).
Proof.
  destruct (process_enrollment_images_aggregates
              nat nat batch_decode batch_gray batch_represent 512
              batch_represent_dimension [1; 1; 2; 3; 5]%nat)
    as (embedding & reports & E & Hlen & Hst & Hrest).
  exists embedding, reports. split; [exact E|]. split; [exact Hlen|].
  split; [|exact Hrest].
  rewrite Hst. cbn [map]. rewrite !batch_image_status. reflexivity.
Defined.

End EnrollmentFacts.

(* ------------------------------------------------------------------ *)
(** ** Further properties of the index: persistence, rebuild, clearing *)

Module PersistFacts.
Import Faiss FAISSService NumericFacts Samples AddFacts LifecycleFacts.

(** What [save_index] wrote is what a later [initialize] loads, whatever
    the service object held before: the same index and the same labels, in
    the same order. *)
Theorem save_then_initialize_restores (w : World) (before : Service) (ix : IndexFlatIP) :
  index (svc w) = Some ix ->
  let w' := initialize (mkWorld before (disk (save_index w))) in
  index (svc w') = Some ix /\
  person_ids (svc w') = person_ids (svc w) /\
  observable w' = observable w /\
  is_initialized (svc w') = true /\
  disk w' = disk (save_index w).
Proof.
  intros Hix. unfold save_index. rewrite Hix. cbn.
  unfold observable, vectors. cbn. rewrite Hix. repeat split.
Qed.

Lemma save_then_initialize_restores_witness :
  let w' := initialize (mkWorld init (disk (save_index one_person_world))) in
  index (svc w') = Some (mkIndex 512 [axis_embedding 1]) /\
  person_ids (svc w') = person_ids (svc one_person_world) /\
  observable w' = observable one_person_world /\
  is_initialized (svc w') = true /\
  disk w' = disk (save_index one_person_world).
Proof.
  apply (save_then_initialize_restores one_person_world init
           (mkIndex 512 [axis_embedding 1])).
  reflexivity.
Defined.

(** [save_index] on a service that has no index writes nothing: the
    artifacts stay as they were. *)
Lemma save_without_index (w : World) :
  index (svc w) = None -> save_index w = w.
Proof. intros H. unfold save_index. now rewrite H. Qed.


(** The result of a rebuild depends on the store rows and the configured
    dimension only, not on what the index held before: two services of one
    dimension end with the same rows, labels and artifacts, and the number
    of persons reported is the number of indexable rows. *)
Theorem rebuild_forgets_prior_state (persons : list person_row) (w1 w2 : World) :
  dimension (svc w1) = dimension (svc w2) ->
  let r1 := snd (rebuild_from_database (ActivePersons persons) w1) in
  let r2 := snd (rebuild_from_database (ActivePersons persons) w2) in
  observable r1 = observable r2 /\
  index_file (disk r1) = index_file (disk r2) /\
  mapping_file (disk r1) = mapping_file (disk r2) /\
  get_total_persons (svc r1) =
    length (filter (indexable (dimension (svc w1))) persons) /\
  (get_total_persons (svc r1) <= length persons)%nat.
Proof.
  intros Hdim r1 r2.
  pose proof (rebuild_returns persons w1) as H1.
  pose proof (rebuild_returns persons w2) as H2.
  cbv zeta in H1, H2. fold r1 in H1. fold r2 in H2.
  destruct H1 as (Ho1 & _ & Hi1 & Hm1). destruct H2 as (Ho2 & _ & Hi2 & Hm2).
  rewrite <- Hdim in Ho2, Hi2.
  assert (Hobs : observable r1 = observable r2) by (rewrite Ho1, Ho2; reflexivity).
  unfold observable in Hobs, Ho1. injection Hobs as Hv Hids. injection Ho1 as Hv1 Hids1.
  split; [unfold observable; rewrite Hv, Hids; reflexivity|].
  split; [rewrite Hi1, Hi2, Hv; reflexivity|].
  split; [rewrite Hm1, Hm2, Hids; reflexivity|].
  unfold get_total_persons. rewrite Hids1, length_map.
  split; [reflexivity|apply filter_length_le].
Qed.

Lemma rebuild_forgets_prior_state_witness :
  let persons := [mkRow 3 (Some (axis_embedding 2)); mkRow 4 None;
                  mkRow 5 (Some [Some 1%R])] in
  let r1 := snd (rebuild_from_database (ActivePersons persons) fresh_world) in
  let r2 := snd (rebuild_from_database (ActivePersons persons) one_person_world) in
  observable r1 = observable r2 /\
  index_file (disk r1) = index_file (disk r2) /\
  mapping_file (disk r1) = mapping_file (disk r2) /\
  get_total_persons (svc r1) =
    length (filter (indexable (dimension (svc fresh_world))) persons) /\
  (get_total_persons (svc r1) <= length persons)%nat.
Proof.
  apply (rebuild_forgets_prior_state
           [mkRow 3 (Some (axis_embedding 2)); mkRow 4 None; mkRow 5 (Some [Some 1%R])]
           fresh_world one_person_world).
  reflexivity.
Defined.


End PersistFacts.

(* ------------------------------------------------------------------ *)
(** ** Further properties of the index: acceptance and lookup *)

Module LookupFacts.
Import Faiss FAISSService NumericFacts Samples AddFacts LifecycleFacts InvariantFacts.

(** [add_person] returns true exactly when the embedding has the configured
    dimension and the live index, if there is one, has that dimension too;
    when it returns false the rows, the labels and the artifacts are those
    of before. *)
Theorem add_person_accepts_iff (person_id : Z) (e : vec) (w : World) :
  consistent (svc w) ->
  (fst (add_person person_id e w) = true <->
   length e = dimension (svc w) /\
   (forall ix, index (svc w) = Some ix -> d ix = dimension (svc w))) /\
  (fst (add_person person_id e w) = false ->
   observable (snd (add_person person_id e w)) = observable w /\
   disk (snd (add_person person_id e w)) = disk w).
Proof.
  intros Hc. split.
  - split.
    + intros Hok. destruct (add_person person_id e w) as [b w'] eqn:E.
      simpl in Hok. subst b.
      destruct (add_person_true _ _ _ _ E) as (ix & Hix & Hlen & Hd & _).
      split; [exact Hlen|]. intros ix0 H0.
      assert (He : ensure_index (svc w) = svc w)
        by (unfold ensure_index; now rewrite H0).
      rewrite He, H0 in Hix. injection Hix as <-. exact Hd.
    + intros (Hlen & Hd).
      destruct (ensure_index_some (svc w)) as (ix & Hix & _).
      apply add_person_accepts with (ix := ix); [exact Hix|exact Hlen|].
      unfold ensure_index in Hix. destruct (index (svc w)) as [ix0|] eqn:E0.
      * rewrite E0 in Hix. injection Hix as <-. apply Hd. reflexivity.
      * simpl in Hix. injection Hix as <-. reflexivity.
  - intros Hf. destruct (add_person person_id e w) as [b w'] eqn:E.
    simpl in Hf. subst b. apply add_person_false in E. subst w'.
    unfold observable. cbn [snd svc disk].
    rewrite ensure_index_vectors, (ensure_index_consistent _ Hc). split; reflexivity.
Qed.

Lemma add_person_accepts_iff_witness :
  (fst (add_person 1 [Some 1%R] one_person_world) = true <->
   length [Some 1%R] = dimension (svc one_person_world) /\
   (forall ix, index (svc one_person_world) = Some ix ->
               d ix = dimension (svc one_person_world))) /\
  (fst (add_person 1 [Some 1%R] one_person_world) = false ->
   observable (snd (add_person 1 [Some 1%R] one_person_world))
     = observable one_person_world /\
   disk (snd (add_person 1 [Some 1%R] one_person_world)) = disk one_person_world).
Proof.
  apply add_person_accepts_iff. reflexivity.
Defined.

Lemma list_index_absent (x : Z) (l : list Z) :
  existsb (Z.eqb x) l = false -> list_index x l = None.
Proof.
  induction l as [|y l IH]; [reflexivity|]. simpl. intros H.
  apply orb_false_iff in H. destruct H as [Hxy Hl].
  rewrite Z.eqb_sym, Hxy, (IH Hl). reflexivity.
Qed.

Lemma list_index_present (x : Z) (l : list Z) :
  existsb (Z.eqb x) l = true ->
  exists i, list_index x l = Some i /\ (i < length l)%nat.
Proof.
  induction l as [|y l IH]; [discriminate|]. simpl. intros H.
  destruct (Z.eqb y x) eqn:E.
  - exists 0%nat. split; [reflexivity|lia].
  - rewrite Z.eqb_sym, E in H. simpl in H.
    destruct (IH H) as (i & -> & Hi). exists (S i). split; [reflexivity|lia].
Qed.

Lemma list_index_app (x y : Z) (l : list Z) :
  list_index x (l ++ [y]) =
  match list_index x l with
  | Some i => Some i
  | None => if Z.eqb y x then Some (length l) else None
  end.
Proof.
  induction l as [|z l IH]; simpl.
  - destruct (Z.eqb y x); reflexivity.
  - destruct (Z.eqb z x); [reflexivity|]. rewrite IH.
    destruct (list_index x l); [reflexivity|]. destruct (Z.eqb y x); reflexivity.
Qed.

Lemma get_person_embedding_rows (person_id : Z) (self : Service) :
  get_person_embedding person_id self =
  match list_index person_id (person_ids self) with
  | Some idx => nth_error (vectors self) idx
  | None => None
  end.
Proof.
  unfold get_person_embedding, vectors.
  destruct (existsb (Z.eqb person_id) (person_ids self)) eqn:E; simpl.
  - destruct (list_index person_id (person_ids self)) as [i|]; [|reflexivity].
    destruct (index self); [reflexivity|]. destruct i; reflexivity.
  - now rewrite (list_index_absent _ _ E).
Qed.

(** Lookup after add.  On a consistent service, a successful [add_person]
    of an id that is not enrolled makes [get_person_embedding] return the
    normalized embedding for that id; for an id that is enrolled already
    the lookup keeps returning the row of the earlier enrollment; and the
    lookup of every other id is unchanged. *)
Theorem get_person_embedding_after_add (person_id : Z) (e : vec) (w : World) :
  consistent (svc w) ->
  fst (add_person person_id e w) = true ->
  let w' := snd (add_person person_id e w) in
  (~ In person_id (person_ids (svc w)) ->
   get_person_embedding person_id (svc w') = Some (l2_normalize e)) /\
  (In person_id (person_ids (svc w)) ->
   get_person_embedding person_id (svc w') = get_person_embedding person_id (svc w) /\
   get_person_embedding person_id (svc w') <> None) /\
  (forall other, other <> person_id ->
   get_person_embedding other (svc w') = get_person_embedding other (svc w)).
Proof.
  intros Hc Hok w'. subst w'.
  destruct (add_person person_id e w) as [b w'] eqn:E. simpl in Hok. subst b.
  cbn [snd].
  pose proof (add_person_true_vectors _ _ _ _ E) as Hv.
  destruct (add_person_true _ _ _ _ E) as (ix & _ & _ & _ & Hs & _).
  assert (Hids : person_ids (svc w') = person_ids (svc w) ++ [person_id]).
  { rewrite Hs. simpl. now rewrite ensure_index_consistent. }
  assert (Hget : forall p, get_person_embedding p (svc w') =
            match list_index p (person_ids (svc w)) with
            | Some i => nth_error (vectors (svc w) ++ [l2_normalize e]) i
            | None => if Z.eqb person_id p
                      then nth_error (vectors (svc w) ++ [l2_normalize e])
                                     (length (person_ids (svc w)))
                      else None
            end).
  { intros p. rewrite get_person_embedding_rows, Hids, Hv, list_index_app.
    destruct (list_index p (person_ids (svc w))); [reflexivity|].
    destruct (Z.eqb person_id p); reflexivity. }
  unfold consistent in Hc.
  split; [|split].
  - intros Hnot. rewrite Hget.
    rewrite (list_index_absent _ _ (existsb_absent _ _ Hnot)), Z.eqb_refl.
    rewrite <- Hc, nth_error_app2, Nat.sub_diag by lia. reflexivity.
  - intros Hin.
    assert (Hex : existsb (Z.eqb person_id) (person_ids (svc w)) = true).
    { apply existsb_exists. exists person_id. split; [exact Hin|apply Z.eqb_refl]. }
    destruct (list_index_present _ _ Hex) as (i & Hi & Hlt).
    rewrite Hget, get_person_embedding_rows, Hi.
    rewrite nth_error_app1 by lia. split; [reflexivity|].
    apply nth_error_Some. lia.
  - intros other Hne. rewrite Hget, get_person_embedding_rows.
    destruct (list_index other (person_ids (svc w))) as [i|] eqn:Hi.
    + destruct (existsb (Z.eqb other) (person_ids (svc w))) eqn:Hex.
      * destruct (list_index_present _ _ Hex) as (j & Hj & Hlt).
        rewrite Hi in Hj. injection Hj as <-.
        apply nth_error_app1. lia.
      * rewrite (list_index_absent _ _ Hex) in Hi. discriminate Hi.
    + assert (Z.eqb person_id other = false) by (apply Z.eqb_neq; congruence).
      now rewrite H.
Qed.

Lemma get_person_embedding_after_add_witness :
  let w' := snd (add_person 7 (axis_embedding 5) one_person_world) in
  (~ In 7%Z (person_ids (svc one_person_world)) ->
   get_person_embedding 7 (svc w') = Some (l2_normalize (axis_embedding 5))) /\
  (In 7%Z (person_ids (svc one_person_world)) ->
   get_person_embedding 7 (svc w') = get_person_embedding 7 (svc one_person_world) /\
   get_person_embedding 7 (svc w') <> None) /\
  (forall other, other <> 7%Z ->
   get_person_embedding other (svc w') =
   get_person_embedding other (svc one_person_world)).
Proof.
  apply get_person_embedding_after_add.
  - reflexivity.
  - apply add_person_accepts with (ix := mkIndex 512 [axis_embedding 1]); reflexivity.
Defined.

(** An id that is not among the labels has no embedding to return. *)
Lemma get_person_embedding_absent (person_id : Z) (self : Service) :
  ~ In person_id (person_ids self) -> get_person_embedding person_id self = None.
Proof.
  intros H. unfold get_person_embedding. now rewrite (existsb_absent _ _ H).
Qed.

End LookupFacts.

(* ------------------------------------------------------------------ *)
(** ** Further properties of [search] *)

Module SearchMoreFacts.
Import Faiss FlatScan FAISSService NumericFacts Samples AddFacts LifecycleFacts
       InvariantFacts SearchFacts ScanFacts.

Lemma py_index_in_range {A : Type} (l : list A) (i : Z) :
  (0 <= i)%Z -> py_index l i = nth_error l (Z.to_nat i).
Proof.
  intros Hi. unfold py_index. apply Z.leb_le in Hi. now rewrite Hi.
Qed.

(** Where a result of [search] comes from. *)
Lemma search_origin (scan : scan_fn) (contract : scan_contract scan)
  (q : vec) (k : Z) (threshold : R) (self : Service) (person_id : Z) (c : R) :
  In (person_id, c) (search scan q k threshold self) ->
  exists ix j row,
    index self = Some ix /\
    length (l2_normalize q) = d ix /\
    nth_error (xb ix) j = Some row /\
    nth_error (person_ids self) j = Some person_id /\
    vdot (l2_normalize q) row = Some c /\
    (1 - threshold <= c)%R.
Proof.
  unfold search. destruct (index self) as [ix|]; [|intros []].
  destruct (Nat.eqb _ 0); [intros []|].
  unfold Faiss.search.
  destruct (Nat.eqb (length (l2_normalize q)) (d ix)) eqn:Hd; [|intros []].
  destruct (0 <? _)%Z; [|intros []]. cbn [andb].
  destruct (collect _ _ _) as [r|] eqn:Hc; [|intros []].
  intros Hin.
  destruct (collect_In _ _ _ _ _ _ Hc Hin) as (Hf & idx & Hi & Hn & Hp).
  destruct (scan_labels scan contract _ _ _ _ _ Hi) as [H|((H0 & H1) & Hdist)];
    [contradiction|].
  rewrite py_index_in_range in Hp by exact H0.
  exists ix, (Z.to_nat idx), (nth (Z.to_nat idx) (xb ix) []).
  split; [reflexivity|]. split; [apply Nat.eqb_eq; exact Hd|].
  split; [apply nth_error_nth'; unfold ntotal in H1; lia|].
  split; [exact Hp|]. split; [symmetry; exact Hdist|exact Hf].
Qed.

Lemma collect_thresholds (ids : list Z) (t1 t2 : R) (rs : list (fl * Z)) :
  (t1 <= t2)%R ->
  (forall dist idx, In (dist, idx) rs ->
     idx = no_label \/ (0 <= idx < Z.of_nat (length ids))%Z) ->
  exists r1 r2,
    collect ids t1 rs = Some r1 /\ collect ids t2 rs = Some r2 /\
    r1 = filter (fun r => if Rge_dec (snd r) (1 - t1) then true else false) r2.
Proof.
  intros Ht. induction rs as [|[dist idx] rs IH]; intros Hlab.
  - exists [], []. repeat split.
  - destruct IH as (r1 & r2 & H1 & H2 & Hf).
    { intros dist' idx' H. apply (Hlab dist' idx'). right. exact H. }
    cbn [collect]. rewrite H1, H2.
    destruct (idx =? -1)%Z eqn:Ei; [exists r1, r2; repeat split; exact Hf|].
    destruct dist as [c|]; [|exists r1, r2; repeat split; exact Hf].
    destruct (Hlab (Some c) idx (or_introl eq_refl)) as [Hn|Hr].
    { apply Z.eqb_neq in Ei. contradiction. }
    rewrite py_index_in_range by lia.
    destruct (nth_error ids (Z.to_nat idx)) as [pid|] eqn:Hp.
    2:{ apply nth_error_None in Hp. lia. }
    destruct (Rge_dec c (1 - t2)) as [G2|G2];
      destruct (Rge_dec c (1 - t1)) as [G1|G1].
    + exists ((pid, c) :: r1), ((pid, c) :: r2). repeat split.
      cbn [filter snd]. destruct (Rge_dec c (1 - t1)); [now rewrite Hf|contradiction].
    + exists r1, ((pid, c) :: r2). repeat split.
      cbn [filter snd]. destruct (Rge_dec c (1 - t1)); [contradiction|exact Hf].
    + exfalso. apply G2. lra.
    + exists r1, r2. repeat split. exact Hf.
Qed.

Section Contract.

Variable scan : scan_fn.
Hypothesis contract : scan_contract scan.

(** [search] never returns an id that is not enrolled: every result names
    a slot whose label is the returned id and whose stored row has, with the
    normalized query, exactly the returned similarity. *)
Theorem search_results_are_enrolled
  (q : vec) (k : Z) (threshold : R) (self : Service) (person_id : Z) (c : R) :
  In (person_id, c) (search scan q k threshold self) ->
  In person_id (person_ids self) /\
  exists j row,
    nth_error (person_ids self) j = Some person_id /\
    nth_error (vectors self) j = Some row /\
    vdot (l2_normalize q) row = Some c.
Proof.
  intros Hin.
  destruct (search_origin scan contract _ _ _ _ _ _ Hin)
    as (ix & j & row & Hix & _ & Hrow & Hid & Hdot & _).
  split; [apply (nth_error_In _ _ Hid)|].
  exists j, row. unfold vectors. rewrite Hix. repeat split; assumption.
Qed.

(** Lowering the threshold keeps exactly the results that pass the higher
    floor, in the same order; raising it never removes a result. *)
Theorem search_threshold_monotone
  (q : vec) (k : Z) (t1 t2 : R) (self : Service) :
  consistent self -> (t1 <= t2)%R ->
  search scan q k t1 self =
  filter (fun r => if Rge_dec (snd r) (1 - t1) then true else false)
         (search scan q k t2 self).
Proof.
  intros Hc Ht. unfold search. destruct (index self) as [ix|] eqn:Hix; [|reflexivity].
  destruct (Nat.eqb _ 0); [reflexivity|].
  destruct (Faiss.search scan ix (l2_normalize q) _) as [rs|] eqn:Hs; [|reflexivity].
  destruct (collect_thresholds (person_ids self) t1 t2 rs Ht) as (r1 & r2 & H1 & H2 & Hf).
  - intros dist idx Hin. unfold Faiss.search in Hs.
    destruct (_ && _); [|discriminate]. injection Hs as <-.
    destruct (scan_labels scan contract _ _ _ _ _ Hin) as [H|(H & _)]; [now left|].
    right. unfold consistent, vectors in Hc. rewrite Hix in Hc.
    unfold ntotal in H. lia.
  - rewrite H1, H2. exact Hf.
Qed.

End Contract.

(** No result for a request of no neighbours or for a query that does not
    have the dimension of the index, whatever the library scan does. *)
Theorem search_rejects_bad_request
  (scan : scan_fn) (q : vec) (k : Z) (threshold : R) (self : Service) :
  (k <= 0)%Z \/ (forall ix, index self = Some ix -> length q <> d ix) ->
  search scan q k threshold self = [].
Proof.
  intros H. unfold search. destruct (index self) as [ix|]; [|reflexivity].
  destruct (Nat.eqb _ 0); [reflexivity|]. unfold Faiss.search.
  rewrite length_l2_normalize.
  destruct H as [Hk|Hd].
  - assert (E : (0 <? Z.min k (Z.of_nat (length (person_ids self))))%Z = false)
      by (apply Z.ltb_ge; lia).
    rewrite E, andb_false_r. reflexivity.
  - assert (E : Nat.eqb (length q) (d ix) = false)
      by (apply Nat.eqb_neq; apply Hd; reflexivity).
    rewrite E. reflexivity.
Qed.

Lemma search_rejects_bad_request_witness :
  search (exhaustive true) (axis_embedding 1) 0 0.6 (svc one_person_world) = [] /\
  search (exhaustive true) [Some 1%R] 5 0.6 (svc one_person_world) = [].
Proof.
  split.
  - apply search_rejects_bad_request. left. lia.
  - apply search_rejects_bad_request. right.
    intros ix H. injection H as <-. simpl. lia.
Defined.

Lemma search_results_are_enrolled_witness :
  In (7%Z, 1%R)
     (search (exhaustive true) (axis_embedding 3) 1 0.6 (svc one_person_world)) /\
  In 7%Z (person_ids (svc one_person_world)) /\
  exists j row,
    nth_error (person_ids (svc one_person_world)) j = Some 7%Z /\
    nth_error (vectors (svc one_person_world)) j = Some row /\
    vdot (l2_normalize (axis_embedding 3)) row = Some 1%R.
Proof.
  assert (H : In (7%Z, 1%R)
                (search (exhaustive true) (axis_embedding 3) 1 0.6
                        (svc one_person_world))).
  { rewrite SearchExamples.search_enrolled_embedding. left. reflexivity. }
  split; [exact H|].
  exact (search_results_are_enrolled (exhaustive true) (exhaustive_contract true)
           (axis_embedding 3) 1 0.6 (svc one_person_world) 7 1 H).
Defined.

Lemma search_threshold_monotone_witness :
  search (exhaustive true) (axis_embedding 3) 5 (1 / 2) twin_service =
  filter (fun r => if Rge_dec (snd r) (1 - 1 / 2) then true else false)
         (search (exhaustive true) (axis_embedding 3) 5 (3 / 4) twin_service).
Proof.
  apply (search_threshold_monotone (exhaustive true) (exhaustive_contract true)).
  - reflexivity.
  - lra.
Defined.

End SearchMoreFacts.

(* ------------------------------------------------------------------ *)
(** ** Normalized rows: idempotence, similarity bounds, zero queries *)

Module NormalizedFacts.
Import Faiss FlatScan FAISSService FaceRecognitionService NumericFacts Samples
       AddFacts LifecycleFacts InvariantFacts SearchFacts ScanFacts SearchMoreFacts.

Lemma sqrt_one_inv (s : R) : (0 <= s)%R -> sqrt s = 1%R -> s = 1%R.
Proof.
  intros Hs H. rewrite <- (sqrt_sqrt s Hs), H. ring.
Qed.

(** A normalized vector is finite with squares summing to 1, or NaN in
    every component. *)
Lemma l2_normalize_cases (v : vec) :
  (exists rs, l2_normalize v = map Some rs /\
              fold_right Rplus 0%R (map (fun r => (r * r)%R) rs) = 1%R) \/
  l2_normalize v = repeat NaN (length v).
Proof.
  destruct (vnorm v) as [n|] eqn:Hn.
  - destruct (Req_EM_T n 0) as [H0|H0].
    + right. unfold l2_normalize. rewrite Hn. unfold fdiv_norm.
      destruct (Req_EM_T n 0); [|contradiction].
      clear. induction v as [|x v IH]; [reflexivity|]. simpl. now rewrite IH.
    + left. pose proof (l2_normalize_unit v n Hn H0) as Hu.
      unfold vnorm in Hu.
      destruct (sumsq (l2_normalize v)) as [s|] eqn:Hs; [|discriminate].
      simpl in Hu. injection Hu as Hu.
      destruct (sumsq_finite _ _ Hs) as (rs & Hrs & Hsum).
      exists rs. split; [exact Hrs|]. rewrite <- Hsum.
      apply sqrt_one_inv; [|exact Hu]. rewrite Hsum. apply sum_squares_nonneg.
  - right. unfold l2_normalize. rewrite Hn. unfold fdiv_norm.
    clear. induction v as [|x v IH]; [reflexivity|]. simpl. now rewrite IH.
Qed.

Lemma vnorm_nans (n : nat) : vnorm (repeat NaN (S n)) = NaN.
Proof. reflexivity. Qed.

(** Normalizing twice is normalizing once. *)
Lemma l2_normalize_idempotent (v : vec) :
  l2_normalize (l2_normalize v) = l2_normalize v.
Proof.
  destruct (l2_normalize_cases v) as [(rs & Hrs & Hsum)|Hnan].
  - rewrite Hrs. unfold l2_normalize at 1.
    assert (Hn : vnorm (map Some rs) = Some 1%R).
    { unfold vnorm. rewrite sumsq_map_Some, Hsum. simpl. now rewrite sqrt_1. }
    rewrite Hn, map_map. apply map_ext. intros r. unfold fdiv_norm.
    destruct (Req_EM_T 1 0) as [H|_]; [lra|]. simpl. f_equal. field.
  - rewrite Hnan. destruct (length v) as [|n]; [reflexivity|].
    unfold l2_normalize. rewrite vnorm_nans, map_repeat. reflexivity.
Qed.


Lemma vdot_nans_left (n : nat) (row : vec) (c : R) :
  vdot (repeat NaN n) row = Some c -> n = 0%nat \/ row = [].
Proof.
  destruct n as [|n]; [now left|]. destruct row as [|y row]; [now right|].
  simpl. discriminate.
Qed.



(** *** The rows stay normalized *)

Lemma normalized_rows_app (rows : list vec) (e : vec) :
  normalized_rows rows -> normalized_rows (rows ++ [l2_normalize e]).
Proof.
  intros H. apply Forall_app. split; [exact H|]. constructor; [|constructor].
  exists e. reflexivity.
Qed.

Lemma add_person_rows_invariant (person_id : Z) (e : vec) (w : World) :
  rows_invariant w -> rows_invariant (snd (add_person person_id e w)).
Proof.
  intros (Hn & Hwf & Hdn & Hdw).
  destruct (add_person person_id e w) as [[|] w'] eqn:E; cbn [snd].
  - pose proof (add_person_true_vectors _ _ _ _ E) as Hv.
    destruct (add_person_true _ _ _ _ E) as (ix & Hix & Hlen & Hd & Hs & Hdisk).
    assert (Hn' : normalized_rows (vectors (svc w'))).
    { rewrite Hv. apply normalized_rows_app. exact Hn. }
    assert (Hwf0 : rows_wf ix).
    { unfold service_rows_wf in Hwf. unfold ensure_index in Hix.
      destruct (index (svc w)) as [ix0|] eqn:E0.
      - rewrite E0 in Hix. injection Hix as <-. exact Hwf.
      - simpl in Hix. injection Hix as <-. constructor. }
    assert (Hwf' : rows_wf (mkIndex (d ix) (xb ix ++ [l2_normalize e]))).
    { unfold rows_wf. cbn [xb d]. apply Forall_app. split; [exact Hwf0|].
      constructor; [|constructor]. rewrite length_l2_normalize. congruence. }
    assert (Hxb : vectors (svc w') = xb ix ++ [l2_normalize e]).
    { rewrite Hs. reflexivity. }
    split; [exact Hn'|]. split; [unfold service_rows_wf; rewrite Hs; exact Hwf'|].
    destruct (Nat.eqb (length (person_ids (svc w')) mod 10) 0).
    + rewrite Hdisk. unfold normalized_disk, disk_rows_wf. cbn [index_file xb].
      split; [rewrite <- Hxb; exact Hn'|exact Hwf'].
    + rewrite Hdisk. split; assumption.
  - apply add_person_false in E. subst w'. unfold rows_invariant. cbn [svc disk].
    split; [rewrite ensure_index_vectors; exact Hn|].
    split; [|split; assumption].
    unfold service_rows_wf, ensure_index in *.
    destruct (index (svc w)) as [ix0|] eqn:E0; [rewrite E0; exact Hwf|constructor].
Qed.

Lemma save_index_rows_invariant (w : World) :
  rows_invariant w -> rows_invariant (save_index w).
Proof.
  intros (Hn & Hwf & Hdn & Hdw). unfold save_index.
  destruct (index (svc w)) as [ix|] eqn:E; [|repeat split; assumption].
  unfold rows_invariant, normalized_disk, disk_rows_wf. cbn [svc disk index_file].
  unfold vectors, service_rows_wf in *. rewrite E in *. repeat split; assumption.
Qed.

Lemma emptied_rows_invariant (w : World) :
  rows_invariant w -> rows_invariant (mkWorld (create_index (svc w)) (disk w)).
Proof.
  intros (_ & _ & Hdn & Hdw). repeat split; try assumption; constructor.
Qed.

Lemma rebuild_rows_invariant (db : db_outcome) (w : World) :
  rows_invariant w -> rows_invariant (snd (rebuild_from_database db w)).
Proof.
  intros H. unfold rebuild_from_database.
  pose proof (emptied_rows_invariant w H) as He.
  destruct db as [|persons]; [exact He|]. cbn [snd].
  apply save_index_rows_invariant.
  revert He. generalize (mkWorld (create_index (svc w)) (disk w)).
  induction persons as [|p persons IH]; intros w0 H0; [exact H0|].
  cbn [fold_left]. apply IH. unfold rebuild_step.
  destruct (embedding_blob p); [apply add_person_rows_invariant|]; exact H0.
Qed.

Lemma initialize_rows_invariant (w : World) :
  rows_invariant w -> rows_invariant (initialize w).
Proof.
  intros (Hn & Hwf & Hdn & Hdw).
  unfold initialize, load_index, rows_invariant, normalized_disk, disk_rows_wf in *.
  destruct (index_file (disk w)) as [| |ix] eqn:Ei;
    destruct (mapping_file (disk w)) as [| |ids] eqn:Em;
    cbn; rewrite ?Ei; repeat split; try assumption; try constructor.
Qed.

Lemma step_rows_invariant (o : op) (w : World) :
  rows_invariant w -> rows_invariant (step o w).
Proof.
  intros H. destruct o as [pid e|q k t|db| | | |pid e db|pid db]; cbn [step].
  - apply add_person_rows_invariant. exact H.
  - exact H.
  - apply rebuild_rows_invariant. exact H.
  - apply save_index_rows_invariant. exact H.
  - apply initialize_rows_invariant. exact H.
  - unfold clear_index. apply save_index_rows_invariant, emptied_rows_invariant. exact H.
  - unfold update_person. destruct (existsb _ _); [|exact H].
    pose proof (rebuild_rows_invariant db w H) as Hr.
    destruct (rebuild_from_database db w) as [[|] w']; exact Hr.
  - unfold remove_person. destruct (existsb _ _); [|exact H].
    pose proof (rebuild_rows_invariant db w H) as Hr.
    destruct (rebuild_from_database db w) as [[|] w']; exact Hr.
Qed.

(** Every operation keeps the stored rows normalized and of the dimension
    of their index, in memory and in the vector artifact, provided the
    artifact it may load is so. *)
Theorem operations_keep_rows_normalized (ops : list op) (w : World) :
  rows_invariant w -> rows_invariant (run ops w).
Proof.
  unfold run. revert w. induction ops as [|o ops IH]; intros w H; [exact H|].
  cbn [fold_left]. apply IH, step_rows_invariant, H.
Qed.

Lemma fresh_rows_invariant : rows_invariant fresh_world.
Proof. repeat split; try constructor. Qed.

Lemma operations_keep_rows_normalized_witness :
  rows_invariant
    (run [OpLoad; OpAdd 1 (axis_embedding 5); OpAdd 2 zero_embedding; OpPersist;
          OpRebuild (ActivePersons [mkRow 3 (Some (axis_embedding 2))])]
         fresh_world).
Proof.
  apply operations_keep_rows_normalized. exact fresh_rows_invariant.
Defined.

Section Contract.

Variable scan : scan_fn.
Hypothesis contract : scan_contract scan.


(** A probe embedding without a direction (the zero vector, or one with a
    NaN norm) matches nobody on a well-formed index. *)
Theorem search_zero_query_matches_nobody
  (q : vec) (k : Z) (threshold : R) (self : Service) :
  service_rows_wf self ->
  q <> [] ->
  (forall n, vnorm q = Some n -> n = 0%R) ->
  search scan q k threshold self = [].
Proof.
  intros Hwf Hq Hzero.
  destruct (search scan q k threshold self) as [|[pid c] rest] eqn:E; [reflexivity|].
  exfalso.
  assert (Hin : In (pid, c) (search scan q k threshold self))
    by (rewrite E; left; reflexivity).
  destruct (search_origin scan contract _ _ _ _ _ _ Hin)
    as (ix & j & row & Hix & Hlen & Hrow & _ & Hdot & _).
  unfold service_rows_wf in Hwf. rewrite Hix in Hwf.
  unfold rows_wf in Hwf. rewrite Forall_forall in Hwf.
  pose proof (Hwf row (nth_error_In _ _ Hrow)) as Hrl.
  assert (Hnan : l2_normalize q = repeat NaN (length q)).
  { destruct (l2_normalize_cases q) as [(rs & Hrs & Hsum)|H]; [|exact H].
    exfalso. destruct (vnorm q) as [n|] eqn:Hn.
    - pose proof (Hzero n eq_refl) as H0. subst n.
      unfold l2_normalize in Hrs. rewrite Hn in Hrs.
      destruct q as [|x q]; [contradiction|].
      destruct rs as [|r rs]; [discriminate|]. simpl in Hrs.
      unfold fdiv_norm in Hrs. destruct (Req_EM_T 0 0) as [_|H]; [discriminate|].
      apply H. reflexivity.
    - unfold l2_normalize in Hrs. rewrite Hn in Hrs.
      destruct q as [|x q]; [contradiction|].
      destruct rs as [|r rs]; discriminate. }
  rewrite length_l2_normalize in Hlen. rewrite Hnan in Hdot.
  destruct (vdot_nans_left _ _ _ Hdot) as [H0|H0].
  - destruct q; [contradiction|discriminate].
  - subst row. simpl in Hrl. destruct q; [contradiction|]. simpl in Hlen. lia.
Qed.

End Contract.


Lemma search_zero_query_matches_nobody_witness :
  search (exhaustive true) zero_embedding 1 0.6 (svc one_person_world) = [].
Proof.
  apply (search_zero_query_matches_nobody (exhaustive true) (exhaustive_contract true)).
  - repeat constructor.
  - discriminate.
  - intros n H. unfold zero_embedding in H. rewrite vnorm_zeros in H.
    now injection H.
Defined.

(** An embedding that [extract_embedding] returned is stored by
    [add_person] as it is: the normalization inside [add_person] does not
    change it. *)
Theorem add_person_stores_extracted_embedding
  (image : Type) (represent : image -> option (list vec)) (img : image)
  (e : vec) (person_id : Z) (w : World) :
  extract_embedding represent img = Some e ->
  fst (add_person person_id e w) = true ->
  vectors (svc (snd (add_person person_id e w))) = vectors (svc w) ++ [e].
Proof.
  intros He Hok. unfold extract_embedding in He.
  destruct (represent img) as [[|raw rest]|]; try discriminate.
  injection He as <-.
  destruct (add_person person_id (l2_normalize raw) w) as [b w'] eqn:E.
  simpl in Hok. subst b. cbn [snd].
  rewrite (add_person_true_vectors _ _ _ _ E), l2_normalize_idempotent. reflexivity.
Qed.

Lemma add_person_stores_extracted_embedding_witness :
  vectors (svc (snd (add_person 1 (l2_normalize (axis_embedding 2)) fresh_world)))
  = vectors (svc fresh_world) ++ [l2_normalize (axis_embedding 2)].
Proof.
  apply (add_person_stores_extracted_embedding nat sample_represent 2%nat).
  - reflexivity.
  - apply add_person_accepts with (ix := Faiss.new 512);
      [reflexivity|rewrite length_l2_normalize; reflexivity|reflexivity].
Defined.

End NormalizedFacts.

(* ------------------------------------------------------------------ *)
(** ** Verification against stored embeddings *)

Module VerificationFacts.
Import Faiss FlatScan FAISSService FaceRecognitionService NumericFacts Samples
       AddFacts SearchFacts ScanFacts SearchExamples SearchMoreFacts NormalizedFacts.

Lemma fl_lt_one_minus (s threshold : R) :
  fl_lt (one_minus (Some s)) threshold = true <-> (1 - threshold < s)%R.
Proof.
  simpl. destruct (Rlt_dec (1 - s) threshold); split; intros H;
    try reflexivity; try discriminate; lra.
Qed.

(** [verify_face] reports a match exactly when an embedding is extracted,
    it has the length of the stored one, and their inner product is
    strictly above [1 - threshold]; the confidence is then that inner
    product.  A failed extraction, a length mismatch or a NaN product is
    never a match. *)
Theorem verify_face_match_iff
  (image : Type) (represent : image -> option (list vec)) (threshold : R)
  (img : image) (stored : vec) (confidence : fl) :
  verify_face represent threshold img stored = (true, confidence) <->
  exists e s,
    extract_embedding represent img = Some e /\
    length e = length stored /\
    vdot e stored = Some s /\
    (1 - threshold < s)%R /\
    confidence = Some s.
Proof.
  unfold verify_face, np_dot. split.
  - destruct (extract_embedding represent img) as [e|]; [|discriminate].
    destruct (Nat.eqb (length e) (length stored)) eqn:Hl; [|discriminate].
    destruct (vdot e stored) as [s|] eqn:Hs; [|discriminate].
    cbv zeta. intros H. injection H as Hm Hc.
    exists e, s. apply Nat.eqb_eq in Hl. apply fl_lt_one_minus in Hm.
    repeat split; try assumption. rewrite <- Hc. simpl. f_equal. ring.
  - intros (e & s & -> & Hl & Hs & Hm & ->).
    apply Nat.eqb_eq in Hl. rewrite Hl, Hs. cbv zeta.
    apply fl_lt_one_minus in Hm. rewrite Hm. simpl. do 2 f_equal. ring.
Qed.

(** When no embedding is extracted or the lengths differ, [verify_face]
    answers no match with confidence 0. *)
Lemma verify_face_failure
  (image : Type) (represent : image -> option (list vec)) (threshold : R)
  (img : image) (stored : vec) :
  extract_embedding represent img = None \/
  (exists e, extract_embedding represent img = Some e /\ length e <> length stored) ->
  verify_face represent threshold img stored = (false, Some 0%R).
Proof.
  unfold verify_face, np_dot. intros [->|(e & -> & Hl)]; [reflexivity|].
  apply Nat.eqb_neq in Hl. now rewrite Hl.
Qed.




(** *** [batch_verify] *)

Lemma insert_by_confidence_perm (x : Z * R) (l : list (Z * R)) :
  Permutation (insert_by_confidence x l) (x :: l).
Proof.
  induction l as [|y l IH]; simpl; [apply Permutation_refl|].
  destruct (Rlt_dec (snd x) (snd y)).
  - apply Permutation_trans with (y :: x :: l); [apply perm_skip; exact IH|apply perm_swap].
  - apply Permutation_refl.
Qed.

Lemma sort_by_confidence_perm (l : list (Z * R)) :
  Permutation (sort_by_confidence l) l.
Proof.
  induction l as [|x l IH]; simpl; [apply perm_nil|].
  apply Permutation_trans with (x :: sort_by_confidence l).
  - apply insert_by_confidence_perm.
  - apply perm_skip. exact IH.
Qed.

Lemma insert_by_confidence_sorted (x : Z * R) (l : list (Z * R)) :
  StronglySorted (fun a b => (snd b <= snd a)%R) l ->
  StronglySorted (fun a b => (snd b <= snd a)%R) (insert_by_confidence x l).
Proof.
  induction 1 as [|y l Hs IH Hall]; simpl; [repeat constructor|].
  rewrite Forall_forall in Hall.
  destruct (Rlt_dec (snd x) (snd y)) as [Hlt|Hge].
  - constructor; [exact IH|]. apply Forall_forall. intros z Hz.
    apply (Permutation_in _ (insert_by_confidence_perm x l)) in Hz.
    destruct Hz as [<-|Hz]; [lra|apply Hall; exact Hz].
  - constructor; [constructor; [exact Hs|apply Forall_forall; exact Hall]|].
    constructor; [lra|]. apply Forall_forall. intros z Hz.
    specialize (Hall z Hz). simpl in Hall. lra.
Qed.

Lemma sort_by_confidence_sorted (l : list (Z * R)) :
  StronglySorted (fun a b => (snd b <= snd a)%R) (sort_by_confidence l).
Proof.
  induction l as [|x l IH]; simpl; [constructor|].
  apply insert_by_confidence_sorted. exact IH.
Qed.

Lemma batch_matches_sound (e : vec) (threshold : R) (items : list (Z * vec))
  (acc r : list (Z * R)) :
  batch_matches e threshold items acc = Some r ->
  exists added,
    r = acc ++ added /\
    (length added <= length items)%nat /\
    forall uid c, In (uid, c) added ->
      exists stored, In (uid, stored) items /\ length e = length stored /\
                     vdot e stored = Some c /\ (1 - threshold < c)%R.
Proof.
  revert acc r. induction items as [|[uid stored] items IH]; intros acc r H.
  - simpl in H. injection H as <-. exists []. rewrite app_nil_r.
    split; [reflexivity|]. split; [simpl; lia|]. intros ? ? [].
  - cbn [batch_matches] in H. unfold np_dot in H.
    destruct (Nat.eqb (length e) (length stored)) eqn:Hl; [|discriminate].
    apply Nat.eqb_eq in Hl.
    assert (Hskip : batch_matches e threshold items acc = Some r ->
              exists added, r = acc ++ added /\
                (length added <= length ((uid, stored) :: items))%nat /\
                forall uid0 c, In (uid0, c) added ->
                  exists stored0, In (uid0, stored0) ((uid, stored) :: items) /\
                    length e = length stored0 /\
                    vdot e stored0 = Some c /\ (1 - threshold < c)%R).
    { intros H0. destruct (IH _ _ H0) as (added & Hr & Hlen & Hin).
      exists added. split; [exact Hr|]. split; [simpl; lia|].
      intros u c Hu. destruct (Hin u c Hu) as (st & H1 & H2).
      exists st. split; [right; exact H1|exact H2]. }
    destruct (fl_lt (one_minus (vdot e stored)) threshold) eqn:Hm;
      [|exact (Hskip H)].
    destruct (vdot e stored) as [s|] eqn:Hs; [|exact (Hskip H)].
    apply fl_lt_one_minus in Hm.
    destruct (IH _ _ H) as (added & Hr & Hlen & Hin).
    exists ((uid, s) :: added). split; [rewrite Hr, <- app_assoc; reflexivity|].
    split; [simpl; lia|].
    intros u c [Hu|Hu].
    + injection Hu as <- <-. exists stored. split; [left; reflexivity|].
      repeat split; assumption.
    + destruct (Hin u c Hu) as (st & H1 & H2).
      exists st. split; [right; exact H1|exact H2].
Qed.

Lemma batch_matches_complete (e : vec) (threshold : R) (items : list (Z * vec))
  (acc : list (Z * R)) :
  Forall (fun it => length (snd it) = length e) items ->
  exists r,
    batch_matches e threshold items acc = Some r /\
    (forall p, In p acc -> In p r) /\
    forall uid stored c, In (uid, stored) items -> vdot e stored = Some c ->
      (1 - threshold < c)%R -> In (uid, c) r.
Proof.
  intros Hall. revert acc.
  induction Hall as [|[uid stored] items Hl Hall IH]; intros acc.
  - exists acc. split; [reflexivity|]. split; [intros p H; exact H|intros ? ? ? []].
  - cbn [batch_matches]. unfold np_dot. simpl in Hl.
    rewrite Hl, Nat.eqb_refl.
    destruct (fl_lt (one_minus (vdot e stored)) threshold) eqn:Hm.
    + destruct (vdot e stored) as [s|] eqn:Hs; [|discriminate Hm].
      destruct (IH (acc ++ [(uid, s)])) as (r & Hr & Hacc & Hin).
      exists r. split; [exact Hr|].
      split; [intros p Hp; apply Hacc, in_or_app; left; exact Hp|].
      intros u st c [Hu|Hu] Hd Hc.
      * injection Hu as <- <-. rewrite Hs in Hd. injection Hd as <-.
        apply Hacc, in_or_app. right. left. reflexivity.
      * exact (Hin u st c Hu Hd Hc).
    + destruct (IH acc) as (r & Hr & Hacc & Hin).
      exists r. split; [exact Hr|]. split; [exact Hacc|].
      intros u st c [Hu|Hu] Hd Hc.
      * injection Hu as <- <-. rewrite Hd in Hm.
        apply fl_lt_one_minus in Hc. rewrite Hc in Hm. discriminate Hm.
      * exact (Hin u st c Hu Hd Hc).
Qed.

(** [batch_verify] returns the candidates whose inner product with the
    probe is strictly above [1 - threshold], each with that inner product,
    by non-increasing confidence; it returns no more entries than there are
    candidates, and nothing when no embedding is extracted.  When every
    stored embedding has the length of the probe, no such candidate is
    left out. *)
Theorem batch_verify_sorted_matches
  (image : Type) (represent : image -> option (list vec)) (threshold : R)
  (img : image) (embeddings_dict : list (Z * vec)) :
  let r := batch_verify represent threshold img embeddings_dict in
  StronglySorted (fun a b => (snd b <= snd a)%R) r /\
  (length r <= length embeddings_dict)%nat /\
  (forall uid c, In (uid, c) r ->
     (1 - threshold < c)%R /\
     exists e stored,
       extract_embedding represent img = Some e /\
       In (uid, stored) embeddings_dict /\ vdot e stored = Some c) /\
  (extract_embedding represent img = None -> r = []) /\
  (forall e, extract_embedding represent img = Some e ->
     Forall (fun it => length (snd it) = length e) embeddings_dict ->
     forall uid stored c,
       In (uid, stored) embeddings_dict -> vdot e stored = Some c ->
       (1 - threshold < c)%R -> In (uid, c) r).
Proof.
  intros r. subst r. unfold batch_verify.
  destruct (extract_embedding represent img) as [e|].
  2:{ split; [constructor|]. split; [simpl; lia|].
      split; [intros ? ? []|]. split; [reflexivity|].
      intros ? H. discriminate H. }
  destruct (batch_matches e threshold embeddings_dict []) as [ms|] eqn:Hb.
  - destruct (batch_matches_sound _ _ _ _ _ Hb) as (added & Hr & Hlen & Hin).
    simpl in Hr. subst added.
    pose proof (sort_by_confidence_perm ms) as Hp.
    split; [apply sort_by_confidence_sorted|].
    split; [rewrite (Permutation_length Hp); exact Hlen|].
    split.
    { intros uid c Hu. apply (Permutation_in _ Hp) in Hu.
      destruct (Hin uid c Hu) as (st & H1 & _ & H3 & H4).
      split; [exact H4|]. exists e, st. repeat split; assumption. }
    split; [intros H; discriminate H|].
    intros e' He' Hall uid stored c Hi Hd Hc. injection He' as <-.
    destruct (batch_matches_complete e threshold embeddings_dict [] Hall)
      as (r & Hr & _ & Hcomp).
    rewrite Hb in Hr. injection Hr as <-.
    apply (Permutation_in _ (Permutation_sym Hp)).
    exact (Hcomp uid stored c Hi Hd Hc).
  - split; [constructor|]. split; [simpl; lia|].
    split; [intros ? ? []|]. split; [intros H; discriminate H|].
    intros e' He' Hall. injection He' as <-.
    destruct (batch_matches_complete e threshold embeddings_dict [] Hall)
      as (r & Hr & _). rewrite Hb in Hr. discriminate Hr.
Qed.

End VerificationFacts.

(* ------------------------------------------------------------------ *)
(** ** Quality metrics and the score stored at approval *)

Module ApprovalFacts.
Import FaceRecognitionService AdminRoutes NumericFacts Samples QualityFacts
       EnrollmentFacts.

(** On every image, also one on which OpenCV raises, the four metrics that
    [assess_image_quality] returns lie in [[0, 1]]. *)
Theorem assess_image_quality_metrics_in_range (view : option GrayImage) :
  (forall g, view = Some g -> well_formed g) ->
  let m := assess_image_quality view in
  (0 <= quality_score m <= 1)%R /\ (0 <= sharpness m <= 1)%R /\
  (0 <= brightness m <= 1)%R /\ (0 <= contrast m <= 1)%R.
Proof. exact (assess_metrics_unit_interval view). Qed.

Lemma black_image_well_formed : well_formed black_image.
Proof.
  unfold well_formed, black_image. simpl.
  split; [discriminate|]. split; [|reflexivity].
  repeat constructor; lia.
Qed.

Lemma assess_image_quality_metrics_in_range_witness :
  let m := assess_image_quality (Some black_image) in
  (0 <= quality_score m <= 1)%R /\ (0 <= sharpness m <= 1)%R /\
  (0 <= brightness m <= 1)%R /\ (0 <= contrast m <= 1)%R.
Proof.
  apply assess_image_quality_metrics_in_range.
  intros g H. injection H as <-. exact black_image_well_formed.
Defined.

Section Capabilities.

Variable payload : Type.
Variable image : Type.
Variable base64_to_image : payload -> image + nat.
Variable gray_of : image -> option GrayImage.
Variable represent : image -> option (list vec).

Variable model_dimension : nat.
Hypothesis represent_dimension :
  forall img e es, represent img = Some (e :: es) -> length e = model_dimension.
Hypothesis gray_well_formed :
  forall img g, gray_of img = Some g -> well_formed g.

(** The reports the loop adds for accepted images carry a score between
    the gate 0.3 and 1. *)
Lemma enrollment_loop_accepted_scores (imgs : list payload) (idx : nat)
  (embeddings : list vec) (reports : list report) :
  exists added,
    snd (enrollment_loop base64_to_image gray_of represent idx imgs embeddings reports)
      = reports ++ added /\
    Forall (fun r => is_accepted (report_status r) = true ->
                     (0.3 <= report_quality r <= 1)%R) added.
Proof.
  revert idx embeddings reports.
  induction imgs as [|b imgs IH]; intros idx embeddings reports.
  - exists []. simpl. rewrite app_nil_r. split; [reflexivity|constructor].
  - cbn [enrollment_loop].
    destruct (base64_to_image b) as [img|msg].
    + destruct (Rlt_dec _ 0.3) as [Hlow|Hok].
      * destruct (IH (S idx) embeddings
                    (reports ++ [mkReport (idx + 1) rejected (Some LowQuality)
                                   (Some (assess_image_quality (gray_of img)))]))
          as (added & -> & Hall).
        eexists (_ :: added). rewrite <- app_assoc. split; [reflexivity|].
        constructor; [intros H; discriminate H|exact Hall].
      * destruct (extract_embedding represent img) as [e|].
        -- destruct (IH (S idx) (embeddings ++ [e])
                      (reports ++ [mkReport (idx + 1) accepted None
                                     (Some (assess_image_quality (gray_of img)))]))
             as (added & -> & Hall).
           eexists (_ :: added). rewrite <- app_assoc. split; [reflexivity|].
           constructor; [|exact Hall]. intros _. unfold report_quality. cbn [metrics].
           pose proof (assess_metrics_unit_interval (gray_of img)
                         (gray_well_formed img)) as (Hq & _).
           lra.
        -- destruct (IH (S idx) embeddings
                      (reports ++ [mkReport (idx + 1) rejected (Some NoFaceDetected)
                                     (Some (assess_image_quality (gray_of img)))]))
             as (added & -> & Hall).
           eexists (_ :: added). rewrite <- app_assoc. split; [reflexivity|].
           constructor; [intros H; discriminate H|exact Hall].
    + destruct (IH (S idx) embeddings
                  (reports ++ [mkReport (idx + 1) error (Some (ErrorText msg)) None]))
        as (added & -> & Hall).
      eexists (_ :: added). rewrite <- app_assoc. split; [reflexivity|].
      constructor; [intros H; discriminate H|exact Hall].
Qed.

Lemma filter_map_status (rs : list report) :
  length (filter (fun r => is_accepted (report_status r)) rs) =
  length (filter is_accepted (map report_status rs)).
Proof.
  induction rs as [|r rs IH]; [reflexivity|]. cbn [filter map].
  destruct (is_accepted (report_status r)); simpl; now rewrite IH.
Qed.

(** Whenever [process_enrollment_images] returns an embedding, the mean
    that [approve_enrollment] stores as the person's quality score is
    defined (at least one report is accepted, so the division is by a
    positive count) and lies between the gate 0.3 and 1. *)
Theorem approved_quality_score_in_range (imgs : list payload) :
  exists embedding reports,
    process_enrollment_images base64_to_image gray_of represent imgs
      = EnrollReturns embedding reports /\
    (embedding <> None ->
     exists q, person_quality_score reports = Some q /\ (0.3 <= q <= 1)%R).
Proof.
  unfold process_enrollment_images.
  destruct (enrollment_loop_reports payload image base64_to_image gray_of represent
              imgs 0 [] []) as (added & E & _ & Hst & _).
  destruct (enrollment_loop_accepted_scores imgs 0 [] []) as (added' & E' & Hall).
  rewrite E in E'. cbn [snd app] in E'. subst added'.
  rewrite E. cbn [app].
  pose proof (accepted_dimension payload image base64_to_image gray_of represent
                model_dimension represent_dimension imgs) as Hdim.
  pose proof (accepted_count payload image base64_to_image gray_of represent imgs)
    as Hcount.
  rewrite <- Hst, <- filter_map_status in Hcount.
  destruct (accepted_embeddings base64_to_image gray_of represent imgs)
    as [|e es] eqn:Ea.
  - exists None, added. split; [reflexivity|]. intros H. contradiction.
  - apply Forall_cons_iff in Hdim. destruct Hdim as [He Hes].
    assert (Hsame : Forall (fun e' => length e' = length e) es).
    { apply Forall_forall. intros v Hv. rewrite Forall_forall in Hes.
      rewrite (Hes _ Hv). symmetry. exact He. }
    destruct (np_mean_axis0_mean e es Hsame) as (m & Hm & _).
    rewrite Hm. exists (Some (l2_normalize m)), added.
    split; [reflexivity|]. intros _.
    unfold person_quality_score.
    set (acc := filter (fun r => is_accepted (report_status r)) added) in *.
    assert (Hacc : Forall (fun x => (0.3 <= x <= 1)%R) (map report_quality acc)).
    { apply Forall_forall. intros x Hx. apply in_map_iff in Hx.
      destruct Hx as (r & <- & Hr). unfold acc in Hr. apply filter_In in Hr.
      destruct Hr as [Hr Hra]. rewrite Forall_forall in Hall. exact (Hall r Hr Hra). }
    destruct acc as [|r0 acc']; [simpl in Hcount; discriminate Hcount|].
    eexists. split; [reflexivity|].
    assert (Hne : map report_quality (r0 :: acc') <> []) by discriminate.
    pose proof (rmean_bounds _ _ _ Hne Hacc) as Hb.
    unfold rmean in Hb. rewrite length_map in Hb. exact Hb.
Qed.

End Capabilities.

Lemma sample_gray_well_formed (img : nat) (g : GrayImage) :
  sample_gray img = Some g -> well_formed g.
Proof. discriminate. Qed.

Lemma approved_quality_score_in_range_witness :
  exists embedding reports,
    process_enrollment_images sample_decode sample_gray sample_represent
        [0; 1; 2; 3; 2]%nat
      = EnrollReturns embedding reports /\
    (embedding <> None ->
     exists q, person_quality_score reports = Some q /\ (0.3 <= q <= 1)%R).
Proof.
  exact (approved_quality_score_in_range nat nat sample_decode sample_gray
           sample_represent 512 sample_represent_dimension sample_gray_well_formed
           [0; 1; 2; 3; 2]%nat).
Defined.

End ApprovalFacts.

(* ------------------------------------------------------------------ *)
(** ** The cache service in fallback mode *)

Module CacheFacts.
Import Stdlib.Strings.String.
Import stdpp.base stdpp.option stdpp.fin_maps stdpp.gmap stdpp.strings.
Import CacheService CacheSamples.

Lemma append_cons (c : Ascii.ascii) (a b : string) :
  (String c a ++ b)%string = String c (a ++ b)%string.
Proof. reflexivity. Qed.

Lemma append_empty (b : string) : (EmptyString ++ b)%string = b.
Proof. reflexivity. Qed.

Lemma prefix_app (p k : string) :
  String.prefix p k = true <-> exists b, k = (p ++ b)%string.
Proof.
  revert k. induction p as [|a p IH]; intros k.
  - destruct k; simpl; split; intros _; eauto.
  - destruct k as [|c k]; simpl.
    + split; [discriminate | intros [b Hb]; rewrite append_cons in Hb; discriminate].
    + destruct (Ascii.ascii_dec a c) as [->|Hne].
      * rewrite IH. split; intros [b Hb]; exists b; rewrite append_cons in *; congruence.
      * split; [discriminate | intros [b Hb]; rewrite append_cons in Hb; congruence].
Qed.

(** [contains] is the substring test. *)
Lemma contains_substring (p k : string) :
  contains p k = true <-> exists a b, k = (a ++ p ++ b)%string.
Proof.
  induction k as [|c k IH]; cbn [contains].
  - rewrite orb_false_r, prefix_app. split.
    + intros [b Hb]. exists EmptyString, b. exact Hb.
    + intros [a [b Hab]]. destruct a.
      * rewrite append_empty in Hab. eauto.
      * rewrite append_cons in Hab. discriminate.
  - rewrite orb_true_iff, prefix_app, IH. split.
    + intros [[b Hb] | [a [b Hab]]].
      * exists EmptyString, b. exact Hb.
      * exists (String c a), b. rewrite append_cons. now rewrite Hab.
    + intros [a [b Hab]]. destruct a as [|c' a].
      * left. rewrite append_empty in Hab. eauto.
      * right. exists a, b. rewrite append_cons in Hab. congruence.
Qed.

Lemma decimal_round_trip (z : Z) : decimal_int (decimal_str z) = Some z.
Proof.
  unfold decimal_int, decimal_str.
  rewrite DecimalString.NilZero.isi.
  - simpl. now rewrite DecimalZ.of_to.
  - destruct z; simpl; try discriminate.
    intros [= E]. now apply DecimalPos.Unsigned.to_uint_nonnil in E.
  - destruct z; simpl; try discriminate.
    intros [= E]. now apply DecimalPos.Unsigned.to_uint_nonnil in E.
Qed.

Section Fallback.
Context `{Runtime}.

Lemma with_cache_same (self : CacheService) :
  with_cache (fallback_cache self) self = self.
Proof. now destruct self. Qed.

Lemma decode_present_lookup (cache : gmap string string) (keys : list string) :
  Forall (fun k => forall t, cache !! k = Some t -> is_Some (json_loads t)) keys ->
  forall results, exists decoded,
    decode_present cache keys results = Some decoded /\
    forall k,
      (In k keys ->
       decoded !! k = match cache !! k with
                      | Some t => json_loads t
                      | None => results !! k
                      end) /\
      (~ In k keys -> decoded !! k = results !! k).
Proof.
  induction 1 as [|key keys Hkey _ IH]; intros results.
  - exists results. split; [reflexivity | intros k; split; [intros [] | reflexivity]].
  - cbn [decode_present]. destruct (cache !! key) as [t|] eqn:Et.
    + destruct (Hkey t eq_refl) as [v Ev]. rewrite Ev.
      destruct (IH (<[key := v]> results)) as [decoded [Hd Hl]].
      exists decoded. split; [exact Hd|]. intros k.
      destruct (Hl k) as [Hin Hout]. split.
      * intros Hk. destruct (in_dec String.string_dec k keys) as [Hk'|Hk'].
        -- rewrite (Hin Hk'). destruct (cache !! k) eqn:Ek; [reflexivity|].
           apply lookup_insert_ne. congruence.
        -- destruct Hk as [<-|Hk]; [|contradiction].
           rewrite (Hout Hk'), Et, lookup_insert_eq. now rewrite Ev.
      * intros Hk. rewrite Hout by (intros Hk'; apply Hk; now right).
        apply lookup_insert_ne. intros <-. apply Hk. now left.
    + destruct (IH results) as [decoded [Hd Hl]].
      exists decoded. split; [exact Hd|]. intros k.
      destruct (Hl k) as [Hin Hout]. split.
      * intros Hk. destruct (in_dec String.string_dec k keys) as [Hk'|Hk'].
        -- exact (Hin Hk').
        -- destruct Hk as [<-|Hk]; [|contradiction].
           now rewrite (Hout Hk'), Et.
      * intros Hk. apply Hout. intros Hk'. apply Hk. now right.
Qed.

Lemma decode_present_fails (cache : gmap string string) (keys : list string) :
  Exists (fun k => exists t, cache !! k = Some t /\ json_loads t = None) keys ->
  forall results, decode_present cache keys results = None.
Proof.
  induction 1 as [key keys [t [Et Ev]] | key keys _ IH]; intros results;
    cbn [decode_present].
  - now rewrite Et, Ev.
  - destruct (cache !! key) as [t|]; [destruct (json_loads t)|]; auto.
Qed.

Lemma store_all_app (pre post : list (string * value)) (cache : gmap string string) :
  fst (store_all pre cache) = true ->
  store_all (pre ++ post) cache = store_all post (snd (store_all pre cache)).
Proof.
  revert cache. induction pre as [|[k v] pre IH]; intros cache Hok; [reflexivity|].
  cbn [store_all app] in *. destruct (json_dumps v); [now apply IH | discriminate].
Qed.

Lemma store_all_lookup (pre : list (string * value)) :
  Forall (fun kv => is_Some (json_dumps (snd kv))) pre ->
  List.NoDup (map fst pre) ->
  forall cache,
    fst (store_all pre cache) = true /\
    (forall k v, In (k, v) pre -> snd (store_all pre cache) !! k = json_dumps v) /\
    (forall k, ~ In k (map fst pre) -> snd (store_all pre cache) !! k = cache !! k).
Proof.
  induction 1 as [|[key v] pre [s Es] _ IH]; intros Hnd cache.
  - split; [reflexivity|]. split; [intros k v [] | reflexivity].
  - cbn [map fst] in Hnd. apply List.NoDup_cons_iff in Hnd as [Hfresh Hnd].
    cbn [store_all snd] in *. rewrite Es.
    destruct (IH Hnd (<[key := s]> cache)) as [Hok [Hin Hout]].
    split; [exact Hok|]. split.
    + intros k w [E|Hkw].
      * injection E as <- <-. rewrite Hout by exact Hfresh.
        now rewrite lookup_insert_eq.
      * now apply Hin.
    + intros k Hk. cbn [map fst] in Hk.
      rewrite Hout by (intros Hk'; apply Hk; now right).
      apply lookup_insert_ne. intros <-. apply Hk. now left.
Qed.

Lemma fallback_get_serialized
  (key : string) (v : value) (ttl : option Z) (self : CacheService) (s : string) :
  uses_redis self = None ->
  json_dumps v = Some s ->
  get key (snd (set key v ttl self)) = (Some (Text s), snd (set key v ttl self)) /\
  uses_redis (snd (set key v ttl self)) = None.
Proof.
  intros Hmode Hs. unfold set. rewrite Hs, Hmode. cbn [snd].
  assert (Hmode' : uses_redis (with_cache (<[key := s]> (fallback_cache self)) self) = None)
    by exact Hmode.
  split; [|exact Hmode'].
  unfold get. rewrite Hmode'. cbn [with_cache fallback_cache].
  now rewrite lookup_insert_eq.
Qed.

(** In fallback mode a stored value comes back from [get] as its
    serialized text, not as the value: [set] keeps [json.dumps value] and
    [get] hands the entry over without [json.loads], while [get_many]
    decodes it.  The other keys are not affected. *)
Theorem fallback_get_returns_serialized_text
  (key : string) (v : value) (ttl : option Z) (self : CacheService) (s : string) :
  uses_redis self = None ->
  json_dumps v = Some s ->
  let self' := snd (set key v ttl self) in
  fst (set key v ttl self) = true /\
  uses_redis self' = None /\
  get key self' = (Some (Text s), self') /\
  fst (exists_ key self') = true /\
  (forall k, k <> key -> fst (get k self') = fst (get k self)) /\
  (forall v', json_loads s = Some v' ->
     fst (get_many [key] self') = {[ key := v' ]}).
Proof.
  intros Hmode Hs. unfold set. rewrite Hs, Hmode. cbn [fst snd].
  assert (Hmode' : uses_redis (with_cache (<[key := s]> (fallback_cache self)) self) = None)
    by exact Hmode.
  split; [reflexivity|]. split; [exact Hmode'|].
  unfold get, exists_, get_many. rewrite Hmode', Hmode. cbn [fst snd with_cache fallback_cache].
  rewrite lookup_insert_eq. split; [reflexivity|]. split.
  - apply bool_decide_eq_true_2. eauto.
  - split.
    + intros k Hk. now rewrite lookup_insert_ne by congruence.
    + intros v' Hv'. cbn [decode_present]. rewrite lookup_insert_eq, Hv'.
      cbn [from_option Datatypes.id]. apply insert_empty.
Qed.

(** A value that [json.dumps] rejects is never stored: [set] returns false
    and the service is as before, with or without redis.  [set_many] stops
    at the first such value: it returns false; with redis nothing was sent
    (the pipeline is not executed), but the fallback dictionary keeps the
    entries written before the failure. *)
Theorem set_many_stops_at_first_failure
  (pre post : list (string * value)) (key : string) (v : value)
  (ttl : option Z) (self : CacheService) :
  Forall (fun kv => is_Some (json_dumps (snd kv))) pre ->
  List.NoDup (map fst pre) ->
  json_dumps v = None ->
  let mapping := pre ++ (key, v) :: post in
  set key v ttl self = (false, self) /\
  fst (set_many mapping ttl self) = false /\
  (forall r, uses_redis self = Some r -> snd (set_many mapping ttl self) = self) /\
  (uses_redis self = None ->
   let cache' := fallback_cache (snd (set_many mapping ttl self)) in
   (forall k w, In (k, w) pre -> cache' !! k = json_dumps w) /\
   (forall k, ~ In k (map fst pre) -> cache' !! k = fallback_cache self !! k)).
Proof.
  intros Hpre Hnd Hv mapping.
  assert (Hq : forall t, queue_all t mapping = None).
  { intros t. unfold mapping. clear Hnd. induction Hpre as [|[k w] pre [s Es] _ IH].
    - cbn [app queue_all]. now rewrite Hv.
    - cbn [app queue_all snd] in *. now rewrite Es, IH. }
  split; [unfold set; now rewrite Hv|].
  destruct (store_all_lookup pre Hpre Hnd (fallback_cache self)) as [Hok [Hin Hout]].
  assert (Hstore : store_all mapping (fallback_cache self)
                   = (false, snd (store_all pre (fallback_cache self)))).
  { unfold mapping. rewrite store_all_app by exact Hok.
    cbn [store_all]. now rewrite Hv. }
  unfold set_many. rewrite Hq, Hstore.
  split; [now destruct (uses_redis self)|]. split.
  - intros r Hr. now rewrite Hr.
  - intros Hmode. rewrite Hmode. cbn [snd with_cache fallback_cache]. now split.
Qed.

(** In fallback mode [delete] removes the key and only the key: it returns
    true also when the key is absent, and then the service is unchanged. *)
Theorem fallback_delete_removes_only_key (key : string) (self : CacheService) :
  uses_redis self = None ->
  let self' := snd (delete key self) in
  fst (delete key self) = true /\
  fst (get key self') = None /\
  fst (exists_ key self') = false /\
  (forall k, k <> key -> fst (get k self') = fst (get k self)) /\
  (fallback_cache self !! key = None -> self' = self).
Proof.
  intros Hmode. unfold delete. rewrite Hmode. cbn [fst snd].
  assert (Hmode' : uses_redis (with_cache (base.delete key (fallback_cache self)) self) = None)
    by exact Hmode.
  unfold get, exists_. rewrite Hmode', Hmode. cbn [fst snd with_cache fallback_cache].
  rewrite lookup_delete_eq. split; [reflexivity|]. split; [reflexivity|]. split.
  - apply bool_decide_eq_false_2. intros [x Hx]. discriminate.
  - split.
    + intros k Hk. now rewrite lookup_delete_ne by congruence.
    + intros Habsent. rewrite delete_id by exact Habsent. apply with_cache_same.
Qed.

(** Counters in fallback mode.  When the entry of the key reads as the
    integer [n] (an absent entry reads as ['0']), two increments return
    [n + a] and [n + a + b] and leave the text of the last sum under the
    key; when the entry does not read as an integer, [increment] returns
    None and changes nothing. *)
Theorem fallback_increment_accumulates
  (key : string) (a b : Z) (self : CacheService) :
  uses_redis self = None ->
  (forall z, py_int (py_str z) = Some z) ->
  let current := default "0"%string (fallback_cache self !! key) in
  (forall n, py_int current = Some n ->
     let r1 := increment key a self in
     let r2 := increment key b (snd r1) in
     fst r1 = Some (n + a)%Z /\
     fst r2 = Some (n + a + b)%Z /\
     fst (get key (snd r2)) = Some (Text (py_str (n + a + b))) /\
     (forall k, k <> key -> fst (get k (snd r2)) = fst (get k self))) /\
  (py_int current = None -> increment key a self = (None, self)).
Proof.
  intros Hmode Hround current. split.
  - intros n Hn.
    set (self1 := with_cache (<[key := py_str (n + a)]> (fallback_cache self)) self).
    set (self2 := with_cache (<[key := py_str (n + a + b)]> (fallback_cache self1)) self1).
    assert (H1 : increment key a self = (Some (n + a)%Z, self1)).
    { unfold increment. rewrite Hmode. fold current. now rewrite Hn. }
    assert (H2 : increment key b self1 = (Some (n + a + b)%Z, self2)).
    { unfold increment.
      replace (uses_redis self1) with (@None redis) by (symmetry; exact Hmode).
      unfold self1 at 1. cbn [with_cache fallback_cache].
      rewrite lookup_insert_eq. cbn [from_option Datatypes.id]. now rewrite Hround. }
    cbn zeta. rewrite H1. cbn [fst snd]. rewrite H2. cbn [fst snd].
    split; [reflexivity|]. split; [reflexivity|].
    unfold get.
    replace (uses_redis self2) with (@None redis) by (symmetry; exact Hmode).
    rewrite Hmode. cbn [fst]. unfold self2, self1. cbn [with_cache fallback_cache].
    rewrite lookup_insert_eq. split; [reflexivity|].
    intros k Hk. now rewrite !lookup_insert_ne by congruence.
  - intros Hn. unfold increment. rewrite Hmode. fold current. now rewrite Hn.
Qed.

(** In fallback mode [clear] with a pattern removes exactly the keys that
    contain the pattern as a substring and keeps the other entries; without
    a pattern, or with the empty pattern, it removes every entry. *)
Theorem fallback_clear_removes_matching (pattern : option string) (self : CacheService) :
  uses_redis self = None ->
  let self' := snd (clear pattern self) in
  fst (clear pattern self) = true /\
  (forall p, truthy pattern = Some p ->
     forall k,
       ((exists a b, k = (a ++ p ++ b)%string) -> fallback_cache self' !! k = None) /\
       (~ (exists a b, k = (a ++ p ++ b)%string) ->
        fallback_cache self' !! k = fallback_cache self !! k)) /\
  (truthy pattern = None -> forall k, fallback_cache self' !! k = None).
Proof.
  intros Hmode. unfold clear. rewrite Hmode.
  destruct (truthy pattern) as [p|]; cbn [fst snd with_cache fallback_cache].
  - split; [reflexivity|]. split; [|discriminate].
    intros p' [= <-] k. rewrite <- contains_substring. split.
    + intros Hc. apply map_lookup_filter_None. right. intros x _. cbn [fst].
      now rewrite Hc.
    + intros Hc. apply not_true_is_false in Hc.
      destruct (fallback_cache self !! k) as [x|] eqn:Ex.
      * apply map_lookup_filter_Some. now split.
      * apply map_lookup_filter_None. now left.
  - split; [reflexivity|]. split; [discriminate|]. intros _ k. apply lookup_empty.
Qed.

(** In fallback mode [get_many] is all or nothing.  When every requested
    entry that is present decodes, the result holds exactly the requested
    keys that are present, each with its decoded value; when one of them
    does not decode, the result is empty. *)
Theorem fallback_get_many_all_or_nothing (keys : list string) (self : CacheService) :
  uses_redis self = None ->
  (Forall (fun k => forall t, fallback_cache self !! k = Some t -> is_Some (json_loads t)) keys ->
   forall k,
     (In k keys ->
      fst (get_many keys self) !! k =
        match fallback_cache self !! k with
        | Some t => json_loads t
        | None => None
        end) /\
     (~ In k keys -> fst (get_many keys self) !! k = None)) /\
  (Exists (fun k => exists t, fallback_cache self !! k = Some t /\ json_loads t = None) keys ->
   fst (get_many keys self) = empty).
Proof.
  intros Hmode. unfold get_many. rewrite Hmode. cbn [fst]. split.
  - intros Hall k.
    destruct (decode_present_lookup (fallback_cache self) keys Hall empty)
      as [decoded [Hd Hl]].
    rewrite Hd. cbn [from_option Datatypes.id]. destruct (Hl k) as [Hin Hout]. split; intros Hk.
    + rewrite (Hin Hk).
      destruct (fallback_cache self !! k); [reflexivity | apply lookup_empty].
    + rewrite (Hout Hk). apply lookup_empty.
  - intros Hbad. now rewrite decode_present_fails.
Qed.

(** The wrapper of [cache_result] in fallback mode.  On a miss it calls
    the function and returns its value; the next call with the same key
    does not call the function and returns the serialized text of that
    value.  A value that does not serialize is never cached. *)
Theorem cache_result_hit_returns_text
  (ttl : Z) (cache_key : string) (func : unit -> value) (self : CacheService) :
  uses_redis self = None ->
  fallback_cache self !! cache_key = None ->
  let first := cache_result ttl cache_key func self in
  let second := cache_result ttl cache_key func (snd first) in
  fst first = (Decoded (func tt), true) /\
  (forall s, json_dumps (func tt) = Some s ->
     fst second = (Text s, false) /\ snd second = snd first) /\
  (json_dumps (func tt) = None -> snd first = self).
Proof.
  intros Hmode Hmiss.
  assert (Hfirst : cache_result ttl cache_key func self
                   = (Decoded (func tt), true, snd (set cache_key (func tt) (Some ttl) self))).
  { unfold cache_result, get. now rewrite Hmode, Hmiss. }
  cbn zeta. rewrite Hfirst. cbn [fst snd]. split; [reflexivity|]. split.
  - intros s Hs.
    destruct (fallback_get_serialized cache_key (func tt) (Some ttl) self s Hmode Hs)
      as [Hget _].
    unfold cache_result. rewrite Hget. now split.
  - intros Hs. unfold set. now rewrite Hs.
Qed.

End Fallback.

#[local] Existing Instance sample_runtime.

Lemma fallback_get_returns_serialized_text_witness :
  let self' := snd (set "count" (PyInt 5) None sample_cache) in
  fst (set "count" (PyInt 5) None sample_cache) = true /\
  uses_redis self' = None /\
  get "count" self' = (Some (Text "5"), self') /\
  fst (exists_ "count" self') = true /\
  (forall k, k <> "count"%string -> fst (get k self') = fst (get k sample_cache)) /\
  (forall v', json_loads "5" = Some v' ->
     fst (get_many ["count"%string] self') = {[ "count"%string := v' ]}).
Proof.
  apply (fallback_get_returns_serialized_text (H := sample_runtime) "count" (PyInt 5) None sample_cache "5");
    reflexivity.
Defined.

Lemma set_many_stops_at_first_failure_witness :
  let mapping := [("a"%string, PyInt 1)] ++ ("b"%string, PyObject) :: [("c"%string, PyNone)] in
  set "b" PyObject None sample_cache = (false, sample_cache) /\
  fst (set_many mapping None sample_cache) = false /\
  (forall r, uses_redis sample_cache = Some r ->
     snd (set_many mapping None sample_cache) = sample_cache) /\
  (uses_redis sample_cache = None ->
   let cache' := fallback_cache (snd (set_many mapping None sample_cache)) in
   (forall k w, In (k, w) [("a"%string, PyInt 1)] -> cache' !! k = json_dumps w) /\
   (forall k, ~ In k (map fst [("a"%string, PyInt 1)]) ->
      cache' !! k = fallback_cache sample_cache !! k)).
Proof.
  apply (set_many_stops_at_first_failure (H := sample_runtime) [("a"%string, PyInt 1)] [("c"%string, PyNone)]
           "b" PyObject None sample_cache).
  - constructor; [now exists "1"%string | constructor].
  - constructor; [intros [] | constructor].
  - reflexivity.
Defined.

Lemma fallback_delete_removes_only_key_witness :
  let self' := snd (delete "count" sample_cache) in
  fst (delete "count" sample_cache) = true /\
  fst (get "count" self') = None /\
  fst (exists_ "count" self') = false /\
  (forall k, k <> "count"%string -> fst (get k self') = fst (get k sample_cache)) /\
  (fallback_cache sample_cache !! "count"%string = None -> self' = sample_cache).
Proof.
  apply (fallback_delete_removes_only_key (H := sample_runtime) "count" sample_cache). reflexivity.
Defined.

Lemma fallback_increment_accumulates_witness :
  let current := default "0"%string (fallback_cache sample_cache !! "hits"%string) in
  (forall n, py_int current = Some n ->
     let r1 := increment "hits" 2 sample_cache in
     let r2 := increment "hits" 3 (snd r1) in
     fst r1 = Some (n + 2)%Z /\
     fst r2 = Some (n + 2 + 3)%Z /\
     fst (get "hits" (snd r2)) = Some (Text (py_str (n + 2 + 3))) /\
     (forall k, k <> "hits"%string -> fst (get k (snd r2)) = fst (get k sample_cache))) /\
  (py_int current = None -> increment "hits" 2 sample_cache = (None, sample_cache)).
Proof.
  apply (fallback_increment_accumulates (H := sample_runtime) "hits" 2 3 sample_cache).
  - reflexivity.
  - exact decimal_round_trip.
Defined.

Lemma fallback_clear_removes_matching_witness :
  let self' := snd (clear (Some "user:"%string) sample_cache) in
  fst (clear (Some "user:"%string) sample_cache) = true /\
  (forall p, truthy (Some "user:"%string) = Some p ->
     forall k,
       ((exists a b, k = (a ++ p ++ b)%string) -> fallback_cache self' !! k = None) /\
       (~ (exists a b, k = (a ++ p ++ b)%string) ->
        fallback_cache self' !! k = fallback_cache sample_cache !! k)) /\
  (truthy (Some "user:"%string) = None -> forall k, fallback_cache self' !! k = None).
Proof.
  apply (fallback_clear_removes_matching (H := sample_runtime) (Some "user:"%string) sample_cache). reflexivity.
Defined.

Lemma fallback_get_many_all_or_nothing_witness :
  let keys := ["count"%string; "other"%string] in
  let self := snd (set (H := sample_runtime) "count" (PyInt 5) None sample_cache) in
  (Forall (fun k => forall t, fallback_cache self !! k = Some t -> is_Some (json_loads t)) keys ->
   forall k,
     (In k keys ->
      fst (get_many keys self) !! k =
        match fallback_cache self !! k with
        | Some t => json_loads t
        | None => None
        end) /\
     (~ In k keys -> fst (get_many keys self) !! k = None)) /\
  (Exists (fun k => exists t, fallback_cache self !! k = Some t /\ json_loads t = None) keys ->
   fst (get_many keys self) = empty).
Proof.
  apply (fallback_get_many_all_or_nothing (H := sample_runtime)
           ["count"%string; "other"%string]
           (snd (set (H := sample_runtime) "count" (PyInt 5) None sample_cache))).
  reflexivity.
Defined.

Lemma cache_result_hit_returns_text_witness :
  let first := cache_result 60 "stats" (fun _ => PyInt 7) sample_cache in
  let second := cache_result 60 "stats" (fun _ => PyInt 7) (snd first) in
  fst first = (Decoded (PyInt 7), true) /\
  (forall s, json_dumps (PyInt 7) = Some s ->
     fst second = (Text s, false) /\ snd second = snd first) /\
  (json_dumps (PyInt 7) = None -> snd first = sample_cache).
Proof.
  apply (cache_result_hit_returns_text (H := sample_runtime) 60 "stats" (fun _ => PyInt 7) sample_cache);
    reflexivity.
Defined.

End CacheFacts.
